(** * flytekit.common.workflow: a shallow embedding and its properties

    The module under study is [flytekit/common/workflow.py]: the classes
    [Output], [SdkWorkflow] and [PythonWorkflow], and the functions
    [build_sdk_workflow_from_metaclass] and [_discover_workflow_components].

    Conventions of the embedding.
    - A Python call that may raise returns a [result]; the exception classes
      the module raises or catches are the constructors of [exn].  The
      decorator [system_entry_point] of some methods belongs to
      [flytekit.common.exceptions.scopes]; the definitions below are the
      bodies of the methods.
    - What the module calls but does not define (constructors and methods
      of the node, interface, launch plan and client classes) is a section
      variable, or a definition whose comment says that it is modelled from
      the specification.
    - Python objects whose identity matters (the objects walked by discovery,
      the nodes referenced as upstream of other nodes) live in a [Heap]; an
      [addr] is what Python's [id()] returns for them.
    - A dict whose order is not observed is a [gmap]; a dict whose order is
      observed ([node_map] in [promote_from_model]) is an association list
      with dict update semantics. *)

From Stdlib Require Import Strings.String Strings.Ascii Lists.List Sorting.Sorted Sorting.Permutation.
From stdpp Require Import base option list gmap sets strings pretty sorting.

Set Warnings "-register-all".

(** ** Exceptions and results *)

(** The exception classes that occur in the module.  [BaseExceptionOnly]
    stands for the classes that derive from [BaseException] but not from
    [Exception] (KeyboardInterrupt, SystemExit, ...): an [except Exception]
    clause does not catch them. *)
Inductive exn : Type :=
  | FlyteEntityAlreadyExistsException
  | FlyteAssertion (msg : string)
  | FlyteValueException (value : string) (msg : string)
  | FlyteSystemException (msg : string)
  | TypeError (msg : string)
  | KeyError (key : string)
  | ValueError (msg : string)
  | AttributeError (msg : string)
  | OtherException (cls : string)
  | BaseExceptionOnly (cls : string).

(** [isinstance(e, Exception)]. *)
Definition is_Exception (e : exn) : bool :=
  match e with
  | BaseExceptionOnly _ => false
  | _ => true
  end.

(** [isinstance(e, FlyteEntityAlreadyExistsException)]. *)
Definition is_already_exists (e : exn) : bool :=
  match e with
  | FlyteEntityAlreadyExistsException => true
  | _ => false
  end.

Inductive result (A : Type) : Type :=
  | Ok (a : A)
  | Raise (e : exn).
Arguments Ok {A} a.
Arguments Raise {A} e.

Definition rbind {A B : Type} (m : result A) (k : A -> result B) : result B :=
  match m with
  | Ok a => k a
  | Raise e => Raise e
  end.

Global Instance result_ret : MRet result := fun A a => Ok a.
Global Instance result_bind : MBind result := fun A B k m => rbind m k.

(** ** Data model *)

(** Object identity. *)
Abbreviation addr := nat.

Inductive ResourceType : Type := TASK | WORKFLOW | LAUNCH_PLAN.

Record Identifier : Type := mkIdentifier {
  resource_type : ResourceType;
  project : string;
  domain : string;
  name : string;
  version : string
}.

(** Literal types and values are opaque to this module. *)
Definition LiteralType : Type := string.
Definition Value : Type := string.

(** [flytekit.models.interface.Variable]. *)
Record Var : Type := mkVar {
  var_type : LiteralType;
  var_description : string
}.

(** The source of a bound value: a literal, a reference to the output of a
    node, a reference to a workflow input, or a collection of sources. *)
Inductive BindingData : Type :=
  | Literal (v : Value)
  | NodeOutputRef (node_id : string) (output_name : string)
  | WorkflowInputRef (input_name : string)
  | Collection (items : list BindingData).

(** [flytekit.models.literals.Binding]. *)
Record Binding : Type := mkBinding {
  b_var : string;
  b_binding : BindingData
}.

(** [TypedInterface]: two name-indexed mappings. *)
Record TypedInterface : Type := mkTypedInterface {
  ti_inputs : gmap string Var;
  ti_outputs : gmap string Var
}.

(** [flytekit.common.promise.Input], as far as this module reads it. *)
Record Input : Type := mkInput {
  in_name : string;
  in_var : Var;
  sdk_required : bool;
  sdk_default : option Value
}.

(** [Output]: the three fields set by [Output.__init__]. *)
Record Output : Type := mkOutput {
  out_name : string;
  out_binding_data : BindingData;
  out_var : Var
}.

(** [WorkflowMetadata.OnFailurePolicy]: an integer enumeration. *)
Definition OnFailurePolicy : Type := nat.

Record WorkflowMetadata : Type := mkWorkflowMetadata {
  on_failure : option OnFailurePolicy
}.

Record WorkflowMetadataDefaults : Type := mkWorkflowMetadataDefaults {
  interruptible : option bool
}.

Record NodeMetadata : Type := mkNodeMetadata {
  nm_name : string;
  nm_timeout : nat;
  nm_retries : nat
}.

(** The workflow target of a node: a sub-workflow reference or a launch plan
    reference. *)
Record WorkflowNode : Type := mkWorkflowNode {
  sub_workflow_ref : option Identifier;
  launchplan_ref : option Identifier
}.

(** Nodes, the entities they execute, and workflows.  A node refers to its
    upstream nodes by identity; the entity it executes and the nodes of a
    workflow are held by value.  An entity that is no workflow carries the
    text that [format] prints for it (its [__str__], defined with its
    class). *)
Inductive SdkNode : Type :=
  mkSdkNode (n_id : option string)
            (n_upstream_nodes : list addr)
            (n_bindings : list Binding)
            (n_metadata : NodeMetadata)
            (n_workflow_node : option WorkflowNode)
            (n_executable_sdk_object : option Executable)
with Executable : Type :=
  | ExTask (task_id : Identifier) (task_text : string)
  | ExWorkflow (w : SdkWorkflow)
  | ExBranch (branch_text : string)
with SdkWorkflow : Type :=
  mkSdkWorkflow (w_id : Identifier)
                (w_metadata : WorkflowMetadata)
                (w_metadata_defaults : WorkflowMetadataDefaults)
                (w_interface : TypedInterface)
                (w_nodes : list SdkNode)
                (w_outputs : list Binding)
                (w_user_inputs : option (list Input)).

Definition n_id (n : SdkNode) : option string :=
  match n with mkSdkNode i _ _ _ _ _ => i end.
Definition upstream_nodes (n : SdkNode) : list addr :=
  match n with mkSdkNode _ u _ _ _ _ => u end.
Definition bindings (n : SdkNode) : list Binding :=
  match n with mkSdkNode _ _ b _ _ _ => b end.
Definition n_metadata (n : SdkNode) : NodeMetadata :=
  match n with mkSdkNode _ _ _ m _ _ => m end.
Definition workflow_node (n : SdkNode) : option WorkflowNode :=
  match n with mkSdkNode _ _ _ _ w _ => w end.
Definition executable_sdk_object (n : SdkNode) : option Executable :=
  match n with mkSdkNode _ _ _ _ _ e => e end.

Definition w_id (w : SdkWorkflow) : Identifier :=
  match w with mkSdkWorkflow i _ _ _ _ _ _ => i end.
Definition w_metadata (w : SdkWorkflow) : WorkflowMetadata :=
  match w with mkSdkWorkflow _ m _ _ _ _ _ => m end.
Definition w_metadata_defaults (w : SdkWorkflow) : WorkflowMetadataDefaults :=
  match w with mkSdkWorkflow _ _ d _ _ _ _ => d end.
Definition interface (w : SdkWorkflow) : TypedInterface :=
  match w with mkSdkWorkflow _ _ _ i _ _ _ => i end.
Definition nodes (w : SdkWorkflow) : list SdkNode :=
  match w with mkSdkWorkflow _ _ _ _ n _ _ => n end.
Definition outputs (w : SdkWorkflow) : list Binding :=
  match w with mkSdkWorkflow _ _ _ _ _ o _ => o end.
Definition user_inputs (w : SdkWorkflow) : option (list Input) :=
  match w with mkSdkWorkflow _ _ _ _ _ _ u => u end.

(** [self._id = new_id]. *)
Definition set_id (w : SdkWorkflow) (new_id : Identifier) : SdkWorkflow :=
  match w with
  | mkSdkWorkflow _ m d i n o u => mkSdkWorkflow new_id m d i n o u
  end.

(** [entity_type_text]: ["Workflow"] for [SdkWorkflow] (the property defined
    in this module); the other entity classes carry their own text. *)
Definition entity_type_text (e : Executable) : string :=
  match e with
  | ExTask _ _ => "Task"
  | ExWorkflow _ => "Workflow"
  | ExBranch _ => "Branch"
  end.

(** ** SdkWorkflow.get_sub_workflows *)

(** The guard of the loop body:
    [n.workflow_node is not None and n.workflow_node.sub_workflow_ref is not None]. *)
Definition has_sub_workflow_ref (wn : option WorkflowNode) : bool :=
  match wn with
  | Some w => match sub_workflow_ref w with Some _ => true | None => false end
  | None => false
  end.

(** ["... bad executable object {}".format(n.executable_sdk_object)], for
    the text that [format] prints for the executable. *)
Definition bad_executable_msg (text : string) : string :=
  "workflow node with subworkflow found but bad executable object " +:+ text.

(** The text that [format] prints for an executable that is [None] or is no
    workflow; a workflow is never formatted. *)
Definition executable_text (ex : option Executable) : option string :=
  match ex with
  | None => Some "None"
  | Some (ExTask _ text) => Some text
  | Some (ExBranch text) => Some text
  | Some (ExWorkflow _) => None
  end.

Fixpoint get_sub_workflows (w : SdkWorkflow) : result (list SdkWorkflow) :=
  match w with
  | mkSdkWorkflow _ _ _ _ ns _ _ =>
      (fix loop (ns : list SdkNode) : result (list SdkWorkflow) :=
         match ns with
         | [] => Ok []
         | mkSdkNode _ _ _ _ wn ex :: rest =>
             if has_sub_workflow_ref wn then
               match ex with
               | Some (ExWorkflow w1) =>
                   subs ← get_sub_workflows w1;
                   more ← loop rest;
                   Ok (w1 :: subs ++ more)
               | Some (ExTask _ text) | Some (ExBranch text) =>
                   Raise (FlyteSystemException (bad_executable_msg text))
               | None => Raise (FlyteSystemException (bad_executable_msg "None"))
               end
             else loop rest
         end) ns
  end.

(** ** The object heap *)

(** The objects that [_discover_workflow_components] tells apart with
    [isinstance], in the order it tests them.  [OSeq] is a list, set or tuple,
    its elements in iteration order; [ODict] lists the items of a dict in
    iteration order, each key with the text [format] prints for it. *)
Inductive Obj : Type :=
  | ONode (n : SdkNode)
  | OInput (i : Input)
  | OOutput (o : Output)
  | OSeq (elems : list addr)
  | ODict (items : list (string * addr * addr))
  | OOther.

Abbreviation Heap := (list Obj).

(** [upstream.id] for the object at address [u]. *)
Definition upstream_id (h : Heap) (u : addr) : result (option string) :=
  match h !! u with
  | Some (ONode n) => Ok (n_id n)
  | _ => Raise (AttributeError "object has no attribute 'id'")
  end.

(** ** SdkWorkflow.__init__ *)

Definition missing_node_msg : string :=
  "Some nodes contained in the workflow were not found in the workflow description.  Please ensure all nodes are either assigned to attributes within the class or an element in a list, dict, or tuple which is stored as an attribute in the class.".

(** The inner loop [for upstream in n.upstream_nodes]. *)
Fixpoint check_upstream (h : Heap) (ups : list addr) : result unit :=
  match ups with
  | [] => Ok tt
  | u :: rest =>
      i ← upstream_id h u;
      match i with
      | None => Raise (FlyteAssertion missing_node_msg)
      | Some _ => check_upstream h rest
      end
  end.

(** The outer loop [for n in nodes]. *)
Fixpoint check_nodes (h : Heap) (ns : list SdkNode) : result unit :=
  match ns with
  | [] => Ok tt
  | n :: rest => _ ← check_upstream h (upstream_nodes n); check_nodes h rest
  end.

(** The configuration read by the constructors, and the source of
    [uuid.uuid4().hex]: the [k]-th identifier drawn in a run. *)
Record Config : Type := mkConfig {
  PROJECT : string;
  DOMAIN : string;
  VERSION : string;
  uuid4_hex : nat -> string
}.

(** Iterating over [None] raises [TypeError]. *)
Definition iter {A : Type} (l : option (list A)) : result (list A) :=
  match l with
  | Some l => Ok l
  | None => Raise (TypeError "'NoneType' object is not iterable")
  end.

(** [{v.name: v.var for v in inputs}]: a later entry replaces an earlier one
    of the same name. *)
Definition input_vars (inputs : list Input) : gmap string Var :=
  foldl (fun m v => <[in_name v := in_var v]> m) ∅ inputs.
Definition output_vars (outs : list Output) : gmap string Var :=
  foldl (fun m v => <[out_name v := out_var v]> m) ∅ outs.

(** [[Binding(v.name, v.binding_data) for v in outputs]]. *)
Definition output_bindings_of (outs : list Output) : list Binding :=
  map (fun v => mkBinding (out_name v) (out_binding_data v)) outs.

(** The constructor.  The last argument and the second component of the
    result count the identifiers drawn from [uuid4] so far. *)
Definition SdkWorkflow_init (cfg : Config) (h : Heap)
    (inputs : option (list Input)) (outs : option (list Output))
    (ns : list SdkNode) (id : option Identifier)
    (metadata : option WorkflowMetadata)
    (metadata_defaults : option WorkflowMetadataDefaults)
    (iface : option TypedInterface)
    (output_bindings : option (list Binding))
    (drawn : nat) : result SdkWorkflow * nat :=
  match check_nodes h ns with
  | Raise e => (Raise e, drawn)
  | Ok _ =>
      let '(id, drawn) :=
        match id with
        | Some i => (i, drawn)
        | None => (mkIdentifier WORKFLOW (PROJECT cfg) (DOMAIN cfg)
                     (uuid4_hex cfg drawn) (VERSION cfg), S drawn)
        end in
      let metadata := default (mkWorkflowMetadata None) metadata in
      let metadata_defaults :=
        default (mkWorkflowMetadataDefaults None) metadata_defaults in
      let r :=
        iface ← match iface with
                | Some i => Ok i
                | None =>
                    ins ← iter inputs;
                    os ← iter outs;
                    Ok (mkTypedInterface (input_vars ins) (output_vars os))
                end;
        output_bindings ← match output_bindings with
                          | Some b => Ok b
                          | None => os ← iter outs; Ok (output_bindings_of os)
                          end;
        Ok (mkSdkWorkflow id metadata metadata_defaults iface ns
              output_bindings inputs) in
      (r, drawn)
  end.

(** ** PythonWorkflow *)

Record PythonWorkflow : Type := mkPythonWorkflow {
  flyte_workflow : SdkWorkflow;
  pw_workflow_inputs : list Input;
  pw_nodes : list SdkNode;
  pw_user_inputs : list Input
}.

(** [PythonWorkflow.__init__(workflow_function, flyte_workflow, inputs, nodes)]. *)
Definition PythonWorkflow_init (w : SdkWorkflow) (inputs : list Input)
    (ns : list SdkNode) : PythonWorkflow :=
  mkPythonWorkflow w inputs ns inputs.

Definition PythonWorkflow_nodes (p : PythonWorkflow) : list SdkNode :=
  nodes (flyte_workflow p).
Definition PythonWorkflow_outputs (p : PythonWorkflow) : list Binding :=
  outputs (flyte_workflow p).
Definition PythonWorkflow_interface (p : PythonWorkflow) : TypedInterface :=
  interface (flyte_workflow p).

Definition construct_from_class_definition (cfg : Config) (h : Heap)
    (inputs : list Input) (outs : list Output) (ns : list SdkNode)
    (metadata : option WorkflowMetadata)
    (metadata_defaults : option WorkflowMetadataDefaults)
    (drawn : nat) : result PythonWorkflow * nat :=
  match check_nodes h ns with
  | Raise e => (Raise e, drawn)
  | Ok _ =>
      let id := mkIdentifier WORKFLOW (PROJECT cfg) (DOMAIN cfg)
                  (uuid4_hex cfg drawn) (VERSION cfg) in
      let iface := mkTypedInterface (input_vars inputs) (output_vars outs) in
      let output_bindings := output_bindings_of outs in
      match SdkWorkflow_init cfg h None None ns (Some id) metadata
              metadata_defaults (Some iface) (Some output_bindings)
              (S drawn) with
      | (Ok sdk_workflow, drawn') =>
          (Ok (PythonWorkflow_init sdk_workflow inputs ns), drawn')
      | (Raise e, drawn') => (Raise e, drawn')
      end
  end.

(** ** Python helpers: insertion-ordered dicts and [sorted] *)

(** [d[k] = v] on a dict kept in insertion order: an existing key keeps its
    position, a new key goes last. *)
Fixpoint dict_set {V : Type} (k : string) (v : V) (d : list (string * V))
    : list (string * V) :=
  match d with
  | [] => [(k, v)]
  | (k', v') :: d' =>
      if String.eqb k k' then (k, v) :: d' else (k', v') :: dict_set k v d'
  end.

(** [d[k]], raising [KeyError] on a missing key. *)
Fixpoint dict_get {V : Type} (k : string) (d : list (string * V)) : result V :=
  match d with
  | [] => Raise (KeyError k)
  | (k', v') :: d' => if String.eqb k k' then Ok v' else dict_get k d'
  end.

Definition dict_values {V : Type} (d : list (string * V)) : list V := map snd d.
Definition dict_keys {V : Type} (d : list (string * V)) : list string := map fst d.

(** [d.update(other)]. *)
Definition dict_update {V : Type} (d other : list (string * V))
    : list (string * V) :=
  foldl (fun acc kv => dict_set (fst kv) (snd kv) acc) d other.

(** Insertion of [x] in front of the first element whose key is not smaller. *)
Fixpoint insert_by {A : Type} (key : A -> string) (x : A) (l : list A) : list A :=
  match l with
  | [] => [x]
  | y :: l' =>
      if String.leb (key x) (key y) then x :: y :: l'
      else y :: insert_by key x l'
  end.

(** [sorted(l, key=key)] for string keys: a stable sort; strings compare
    by code point, which on their UTF-8 bytes is the byte-wise order of
    [String.leb]. *)
Definition sorted {A : Type} (key : A -> string) (l : list A) : list A :=
  foldr (insert_by key) [] l.

(** [o is None]. *)
Definition is_None {A : Type} (o : option A) : bool :=
  match o with Some _ => false | None => true end.

(** [sorted(l, key=key)] where a key may be [None]: comparing [None] with
    anything raises [TypeError], and sorting two or more elements compares
    each of them at least once. *)
Definition sorted_opt {A : Type} (key : A -> option string) (l : list A)
    : result (list A) :=
  if bool_decide (2 <= length l) && existsb (fun x => is_None (key x)) l
  then Raise (TypeError "'<' not supported between instances of 'NoneType' and 'str'")
  else Ok (sorted (fun x => default "" (key x)) l).

(** ** SdkWorkflow.register *)

Record WorkflowSpec : Type := mkWorkflowSpec {
  ws_template : SdkWorkflow;
  ws_sub_workflows : list SdkWorkflow
}.

(** The control-plane client, as far as [register] uses it. *)
Record Client : Type := mkClient {
  create_workflow : Identifier -> WorkflowSpec -> result unit
}.

(** [validate]: the body is [pass]. *)
Definition validate (self : SdkWorkflow) : result unit := Ok tt.

Section Registration.
(** [str(identifier)], defined with the identifier class. *)
Variable Identifier_str : Identifier -> string.
(** [_FlyteClientManager(URL.get(), insecure=INSECURE.get()).client]. *)
Variable client_manager : result Client.

(** The body of the [try] block up to the call of the client. *)
Definition register_attempt (self : SdkWorkflow) (id_to_register : Identifier)
    : result unit :=
  client ← client_manager;
  sub_workflows ← get_sub_workflows self;
  create_workflow client id_to_register (mkWorkflowSpec self sub_workflows).

(** [register] returns what the Python call returns ([None] when the
    function falls off its end) or raises, together with the workflow
    object as the call leaves it. *)
Definition register (self : SdkWorkflow) (project domain name version : string)
    : result (option string) * SdkWorkflow :=
  match validate self with
  | Raise e => (Raise e, self)
  | Ok _ =>
      let id_to_register := mkIdentifier WORKFLOW project domain name version in
      let old_id := w_id self in
      let self := set_id self id_to_register in
      match register_attempt self id_to_register with
      | Ok _ =>
          let self := set_id self id_to_register in
          (Ok (Some (Identifier_str id_to_register)), self)
      | Raise e =>
          if is_already_exists e then (Ok None, self)
          else if is_Exception e then (Raise e, set_id self old_id)
          else (Raise e, self)
      end
  end.
End Registration.

(** ** SdkWorkflow.__call__ and PythonWorkflow.__call__ *)

(** A call-time argument: nothing, a literal, the output of a node, or a
    workflow input. *)
Inductive Arg : Type :=
  | ArgNone
  | ArgValue (v : Value)
  | ArgPromise (node : addr) (var : string)
  | ArgInput (input_name : string).

(** Modelled from the spec: the node constructor
    [SdkNode(id, metadata, upstream_nodes, bindings, sdk_workflow=w)], which
    is not in this module; by section 3 a node holds its id, metadata,
    upstream references and bindings and a reference to what it executes,
    here the sub-workflow [w]. *)
Definition SdkNode_for_workflow (id : option string) (metadata : NodeMetadata)
    (ups : list addr) (bs : list Binding) (w : SdkWorkflow) : SdkNode :=
  mkSdkNode id ups bs metadata
    (Some (mkWorkflowNode (Some (w_id w)) None)) (Some (ExWorkflow w)).

Definition positional_args_msg (n : nat) : string :=
  "When adding a workflow as a node in a workflow, all inputs must be specified with kwargs only.  We detected "
  +:+ pretty n +:+ " positional args.".

Section Call.
(** [TypedInterface.create_bindings_for_inputs], defined with the
    interface class: the bindings and the upstream nodes it resolves for a
    keyword-argument mapping, given in the order of the keywords. *)
Variable create_bindings_for_inputs :
  TypedInterface -> list (string * Arg) -> result (list Binding * list addr).

Definition SdkWorkflow_call (self : SdkWorkflow) (args : list Arg)
    (input_map : list (string * Arg)) : result SdkNode :=
  if bool_decide (0 < length args) then
    Raise (FlyteAssertion (positional_args_msg (length args)))
  else
    r ← create_bindings_for_inputs (interface self) input_map;
    Ok (SdkNode_for_workflow None (mkNodeMetadata "placeholder" 0 0)
          (snd r) (sorted b_var (fst r)) self).

Definition arg_of_default (d : option Value) : Arg :=
  match d with Some v => ArgValue v | None => ArgNone end.

Definition PythonWorkflow_call (self : PythonWorkflow) (args : list Arg)
    (input_map : list (string * Arg)) : result SdkNode :=
  let compiled_inputs :=
    foldl (fun d v => dict_set (in_name v) (arg_of_default (sdk_default v)) d) []
      (filter (fun v => sdk_required v = false) (pw_user_inputs self)) in
  let compiled_inputs := dict_update compiled_inputs input_map in
  SdkWorkflow_call (flyte_workflow self) args compiled_inputs.
End Call.

(** ** Launch plans *)

Record AuthRole : Type := mkAuthRole {
  assumable_iam_role : option string;
  kubernetes_service_account : option string
}.

Record Schedule : Type := mkSchedule { cron_expression : string }.
Definition Notification : Type := string.

Record LaunchPlanMetadata : Type := mkLaunchPlanMetadata {
  lpm_schedule : Schedule;
  lpm_notifications : list Notification
}.

(** Truth value of an optional string: [None] and [''] are false. *)
Definition truthy (s : option string) : bool :=
  match s with
  | Some s => negb (String.eqb s "")
  | None => false
  end.

(** [Output.rename_and_return_reference]. *)
Definition Output_rename_and_return_reference (self : Output) (new_name : string)
    : Output :=
  mkOutput new_name (out_binding_data self) (out_var self).

(** Modelled from the spec: [Input.rename_and_return_reference], which is
    defined with the [Input] class and not in this module; by section 4.1 an
    input is renamed to the name it is given and is itself what is collected. *)
Definition Input_rename_and_return_reference (self : Input) (new_name : string)
    : Input :=
  mkInput new_name (in_var self) (sdk_required self) (sdk_default self).

(** The keyword arguments [PythonWorkflow.create_launch_plan] hands to
    [SdkRunnableLaunchPlan]. *)
Record RunnableLaunchPlanArgs : Type := mkRunnableLaunchPlanArgs {
  rlp_sdk_workflow : PythonWorkflow;
  rlp_default_inputs : gmap string Input;
  rlp_fixed_inputs : gmap string Value;
  rlp_schedule : option Schedule;
  rlp_notifications : option (list Notification);
  rlp_labels : option (gmap string string);
  rlp_annotations : option (gmap string string);
  rlp_auth_role : AuthRole
}.

(** [{v.name: v for v in inputs if v.name not in fixed_inputs}]. *)
Definition declared_defaults (inputs : list Input) (fixed_inputs : gmap string Value)
    : gmap string Input :=
  foldl (fun m v => <[in_name v := v]> m) ∅
    (filter (fun v => fixed_inputs !! in_name v = None) inputs).

Section RunnableLaunchPlan.
(** The class [SdkRunnableLaunchPlan] and its constructor are defined in
    [flytekit.common.launch_plan], the constructor of [AuthRole] in
    [flytekit.models.common]: a call of either may raise. *)
Variable RunnableLaunchPlan : Type.
Variable AuthRole_init : option string -> option string -> result AuthRole.
Variable SdkRunnableLaunchPlan :
  RunnableLaunchPlanArgs -> result RunnableLaunchPlan.

Definition PythonWorkflow_create_launch_plan (self : PythonWorkflow)
    (default_inputs : option (gmap string Input))
    (fixed_inputs : option (gmap string Value))
    (schedule : option Schedule)
    (role : option string)
    (notifications : option (list Notification))
    (labels annotations : option (gmap string string))
    (assumable_iam_role kubernetes_service_account : option string)
    : result RunnableLaunchPlan :=
  if truthy role && (truthy assumable_iam_role || truthy kubernetes_service_account)
  then Raise (ValueError "Cannot set both role and auth. Role is deprecated, use auth instead.")
  else
    let fixed_inputs := default ∅ fixed_inputs in
    let merged_default_inputs :=
      declared_defaults (pw_workflow_inputs self) fixed_inputs in
    let merged_default_inputs :=
      default ∅ default_inputs ∪ merged_default_inputs in
    let assumable_iam_role :=
      if truthy role then role else assumable_iam_role in
    auth_role ← AuthRole_init assumable_iam_role kubernetes_service_account;
    SdkRunnableLaunchPlan
      (mkRunnableLaunchPlanArgs self
         (map_imap (fun k user_input =>
                      Some (Input_rename_and_return_reference user_input k))
            merged_default_inputs)
         fixed_inputs schedule notifications labels annotations auth_role).
End RunnableLaunchPlan.

(** The arguments [SdkWorkflow.create_launch_plan] hands to [SdkLaunchPlan];
    [LiteralMap] is what packing the fixed inputs produces. *)
Record LaunchPlanArgs (LiteralMap : Type) : Type := mkLaunchPlanArgs {
  lp_workflow_id : option Identifier;
  lp_entity_metadata : LaunchPlanMetadata;
  lp_default_inputs : option (gmap string Input);
  lp_fixed_inputs : LiteralMap;
  lp_labels : gmap string string;
  lp_annotations : gmap string string;
  lp_auth_role : option AuthRole
}.
Arguments mkLaunchPlanArgs {LiteralMap}.
Arguments lp_default_inputs {LiteralMap}.
Arguments lp_fixed_inputs {LiteralMap}.

Section LaunchPlan.
(** From [flytekit.common.types.helpers] and [flytekit.common.launch_plan]. *)
Variables SdkType LiteralMap LaunchPlan : Type.
Variable get_sdk_type_from_literal_type : LiteralType -> SdkType.
Variable pack_python_std_map_to_literal_map :
  gmap string Value -> gmap string SdkType -> result LiteralMap.
Variable SdkLaunchPlan : LaunchPlanArgs LiteralMap -> result LaunchPlan.

Definition SdkWorkflow_create_launch_plan (self : SdkWorkflow)
    (default_inputs : option (gmap string Input))
    (fixed_inputs : option (gmap string Value))
    (schedule : option Schedule)
    (notifications : option (list Notification))
    (labels annotations : option (gmap string string))
    (auth_role : option AuthRole) : result LaunchPlan :=
  let fixed_inputs := default ∅ fixed_inputs in
  fixed_launch_plan_inputs ←
    pack_python_std_map_to_literal_map fixed_inputs
      (get_sdk_type_from_literal_type ∘ var_type <$>
         filter (fun kv => is_Some (fixed_inputs !! kv.1))
           (ti_inputs (interface self)));
  SdkLaunchPlan
    (mkLaunchPlanArgs None
       (mkLaunchPlanMetadata (default (mkSchedule "") schedule)
          (default [] notifications))
       default_inputs fixed_launch_plan_inputs
       (default ∅ labels) (default ∅ annotations) auth_role).
End LaunchPlan.

(** ** Entity discovery *)

Definition _assign_indexed_attribute_name (attribute_name index : string) : string :=
  attribute_name +:+ "[" +:+ index +:+ "]".

Definition input_outside_msg : string :=
  "Detected workflow input specified outside of top level.".
Definition output_outside_msg : string :=
  "Detected workflow output specified outside of top level.".

(** The local variables of [_discover_workflow_components] together with the
    heap it mutates.  The collected objects are kept with their addresses.
    [visit_log] is a history variable that is not in the source: the pairs
    taken from the queue so far, oldest first. *)
Record Discovery : Type := mkDiscovery {
  d_heap : Heap;
  to_visit_objs : list (string * addr);
  visited_obj_ids : gset addr;
  d_inputs : list (addr * Input);
  d_outputs : list (addr * Output);
  d_nodes : list (addr * SdkNode);
  visit_log : list (string * addr)
}.

(** What a container puts on the queue. *)
Definition seq_children (attribute_name : string) (elems : list addr)
    : list (string * addr) :=
  imap (fun idx value =>
          (_assign_indexed_attribute_name attribute_name (pretty idx), value))
    elems.

Definition dict_children (attribute_name : string)
    (items : list (string * addr * addr)) : list (string * addr) :=
  map (fun it => (_assign_indexed_attribute_name attribute_name it.1.1, it.1.2)) items
  ++ map (fun it => (_assign_indexed_attribute_name attribute_name it.1.1, it.2)) items.

Section Discovery.
(** [SdkNode.assign_id_and_return], defined with the node class. *)
Variable assign_id_and_return : SdkNode -> string -> result SdkNode.

(** The body of the loop for an object that has not been visited, after its
    address has been added to [visited_obj_ids]. *)
Definition visit (top_level_attributes : gset string) (st : Discovery)
    (attribute_name : string) (current_obj : addr) : result Discovery :=
  let '(mkDiscovery h q vis ins outs ns log) := st in
  match h !! current_obj with
  | Some (ONode n) =>
      n' ← assign_id_and_return n attribute_name;
      Ok (mkDiscovery (<[current_obj := ONode n']> h) q vis ins outs
            (ns ++ [(current_obj, n')]) log)
  | Some (OInput i) =>
      if bool_decide (attribute_name ∉ top_level_attributes) then
        Raise (FlyteValueException attribute_name input_outside_msg)
      else
        let i' := Input_rename_and_return_reference i attribute_name in
        Ok (mkDiscovery (<[current_obj := OInput i']> h) q vis
              (ins ++ [(current_obj, i')]) outs ns log)
  | Some (OOutput o) =>
      if bool_decide (attribute_name ∉ top_level_attributes) then
        Raise (FlyteValueException attribute_name output_outside_msg)
      else
        let o' := Output_rename_and_return_reference o attribute_name in
        Ok (mkDiscovery (<[current_obj := OOutput o']> h) q vis ins
              (outs ++ [(current_obj, o')]) ns log)
  | Some (OSeq elems) =>
      Ok (mkDiscovery h (q ++ seq_children attribute_name elems) vis ins outs ns log)
  | Some (ODict items) =>
      Ok (mkDiscovery h (q ++ dict_children attribute_name items) vis ins outs ns log)
  | _ => Ok st
  end.

(** The [while not to_visit_objs.empty()] loop; [None] when [fuel]
    iterations do not empty the queue. *)
Fixpoint discover_loop (fuel : nat) (top_level_attributes : gset string)
    (st : Discovery) : option (result Discovery) :=
  match to_visit_objs st with
  | [] => Some (Ok st)
  | (attribute_name, current_obj) :: rest =>
      match fuel with
      | 0 => None
      | S fuel =>
          let '(mkDiscovery h _ vis ins outs ns log) := st in
          let log := log ++ [(attribute_name, current_obj)] in
          if bool_decide (current_obj ∈ vis) then
            discover_loop fuel top_level_attributes
              (mkDiscovery h rest vis ins outs ns log)
          else
            match visit top_level_attributes
                    (mkDiscovery h rest ({[current_obj]} ∪ vis) ins outs ns log)
                    attribute_name current_obj with
            | Raise e => Some (Raise e)
            | Ok st' => discover_loop fuel top_level_attributes st'
            end
      end
  end.

(** The number of pairs an object puts on the queue when it is visited. *)
Definition children_count (o : Obj) : nat :=
  match o with
  | OSeq elems => length elems
  | ODict items => length items + length items
  | _ => 0
  end.

(** Every pair that can ever be on the queue: the top-level ones and, for
    each object of the heap, the ones it puts there when it is visited. *)
Definition discovery_fuel (h : Heap) (workflow_class : list (string * addr)) : nat :=
  length workflow_class + sum_list (map children_count h).

(** [workflow_class] lists the names [dir] returns, in its order, each
    with the address of the object [getattr] returns for it. *)
Definition discover_state (h : Heap) (workflow_class : list (string * addr))
    : option (result Discovery) :=
  let to_visit_objs := workflow_class in
  let top_level_attributes : gset string := list_to_set (map fst workflow_class) in
  discover_loop (discovery_fuel h workflow_class) top_level_attributes
    (mkDiscovery h to_visit_objs ∅ [] [] [] []).

Definition _discover_workflow_components (h : Heap)
    (workflow_class : list (string * addr))
    : option (result (list Input * list Output * list SdkNode)) :=
  r ← discover_state h workflow_class;
  Some (st ← r;
        Ok (map snd (d_inputs st), map snd (d_outputs st), map snd (d_nodes st))).

(** ** build_sdk_workflow_from_metaclass *)

(** [on_failure if on_failure else None]: the policy numbered 0 is false. *)
Definition on_failure_or_None (on_failure : option OnFailurePolicy)
    : option OnFailurePolicy :=
  match on_failure with
  | Some 0 => None
  | other => other
  end.

Definition build_sdk_workflow_from_metaclass (cfg : Config) (h : Heap)
    (metaclass : list (string * addr)) (on_failure : option OnFailurePolicy)
    (drawn : nat) : option (result PythonWorkflow * nat) :=
  r ← discover_state h metaclass;
  Some match r with
       | Raise e => (Raise e, drawn)
       | Ok st =>
           let inputs := map snd (d_inputs st) in
           let outs := map snd (d_outputs st) in
           let ns := map snd (d_nodes st) in
           let metadata := mkWorkflowMetadata (on_failure_or_None on_failure) in
           let inputs := sorted in_name inputs in
           let outs := sorted out_name outs in
           match sorted_opt n_id ns with
           | Raise e => (Raise e, drawn)
           | Ok ns =>
               construct_from_class_definition cfg (d_heap st) inputs outs ns
                 (Some metadata) None drawn
           end
       end.
End Discovery.

(** ** Auxiliary definitions used in the statements *)

(** The loop of [get_sub_workflows] over a list of nodes. *)
Fixpoint sub_workflows_of_nodes (ns : list SdkNode) : result (list SdkWorkflow) :=
  match ns with
  | [] => Ok []
  | n :: rest =>
      if has_sub_workflow_ref (workflow_node n) then
        match executable_sdk_object n with
        | Some (ExWorkflow w1) =>
            subs ← get_sub_workflows w1;
            more ← sub_workflows_of_nodes rest;
            Ok (w1 :: subs ++ more)
        | Some (ExTask _ text) | Some (ExBranch text) =>
            Raise (FlyteSystemException (bad_executable_msg text))
        | None => Raise (FlyteSystemException (bad_executable_msg "None"))
        end
      else sub_workflows_of_nodes rest
  end.

(** A node that is not a sub-workflow node: a task node, a branch node or a
    launch plan node. *)
Definition skipped_node (n : SdkNode) : Prop :=
  has_sub_workflow_ref (workflow_node n) = false.

(** A node whose target is a sub-workflow and whose executable is the
    hydrated workflow [w]. *)
Definition sub_workflow_node (n : SdkNode) (w : SdkWorkflow) : Prop :=
  has_sub_workflow_ref (workflow_node n) = true
  /\ executable_sdk_object n = Some (ExWorkflow w).

(** Every upstream reference of the nodes is the address of a node. *)
Definition upstream_refs_are_nodes (h : Heap) (ns : list SdkNode) : Prop :=
  forall n u, n ∈ ns -> u ∈ upstream_nodes n -> exists m, h !! u = Some (ONode m).

(** Some node has an upstream reference to a node whose id is [None]. *)
Definition has_unassigned_upstream (h : Heap) (ns : list SdkNode) : Prop :=
  exists n u m, n ∈ ns /\ u ∈ upstream_nodes n
                /\ h !! u = Some (ONode m) /\ n_id m = None.

(** ** Sample data *)

Module Sample.
Definition ident (n : string) : Identifier :=
  mkIdentifier WORKFLOW "proj" "dev" n "v1".
Definition no_interface : TypedInterface := mkTypedInterface ∅ ∅.
Definition node_meta : NodeMetadata := mkNodeMetadata "placeholder" 0 0.

Definition workflow (n : string) (ns : list SdkNode) : SdkWorkflow :=
  mkSdkWorkflow (ident n) (mkWorkflowMetadata None)
    (mkWorkflowMetadataDefaults None) no_interface ns [] None.

Definition task_node (i : string) (ups : list addr) : SdkNode :=
  mkSdkNode (Some i) ups [] node_meta None
    (Some (ExTask (mkIdentifier TASK "proj" "dev" i "v1") ("Task " +:+ i))).
Definition unassigned_task_node (ups : list addr) : SdkNode :=
  mkSdkNode None ups [] node_meta None
    (Some (ExTask (mkIdentifier TASK "proj" "dev" "t" "v1") "Task t")).
Definition wf_node (i : string) (w : SdkWorkflow) : SdkNode :=
  SdkNode_for_workflow (Some i) node_meta [] [] w.

Definition W2 : SdkWorkflow := workflow "w2" [task_node "t2" []].
Definition W1 : SdkWorkflow := workflow "w1" [task_node "t1" []; wf_node "n2" W2].
Definition W0 : SdkWorkflow := workflow "w0" [wf_node "n1" W1; task_node "t0" []].

Definition str (i : Identifier) : string :=
  project i +:+ ":" +:+ domain i +:+ ":" +:+ name i +:+ ":" +:+ version i.

(** A client whose server already holds every workflow. *)
Definition conflicting_client : Client :=
  mkClient (fun _ _ => Raise FlyteEntityAlreadyExistsException).
(** A client whose server cannot be reached. *)
Definition failing_client : Client :=
  mkClient (fun _ _ => Raise (FlyteSystemException "admin is unavailable")).
Definition accepting_client : Client :=
  mkClient (fun _ _ => Ok tt).

Definition cfg : Config := mkConfig "proj" "dev" "v1" (fun k => "uuid" +:+ pretty k).
End Sample.

(** [a] does not come after [b] in the order of their keys. *)
Definition key_le {A : Type} (key : A -> string) (a b : A) : Prop :=
  String.leb (key a) (key b) = true.

(** The order of optional keys that are all present. *)
Definition opt_key_le {A : Type} (key : A -> option string) (a b : A) : Prop :=
  exists ka kb, key a = Some ka /\ key b = Some kb /\ String.leb ka kb = true.

Module SampleHeap.
(** Address 0 holds a node without id, address 1 a node with id. *)
Definition heap : Heap :=
  [ONode (Sample.unassigned_task_node []); ONode (Sample.task_node "a" [])].
Definition dangling : list SdkNode := [Sample.task_node "b" [0]].
Definition attached : list SdkNode := [Sample.task_node "b" [1]].
End SampleHeap.

Module SampleCall.
(** A resolver that binds every keyword to its literal, in keyword order. *)
Definition literal_of (a : Arg) : BindingData :=
  match a with
  | ArgValue v => Literal v
  | ArgInput i => WorkflowInputRef i
  | ArgPromise n v => NodeOutputRef (pretty n) v
  | ArgNone => Collection []
  end.
Definition resolve (_ : TypedInterface) (kw : list (string * Arg))
    : result (list Binding * list addr) :=
  Ok (map (fun p => mkBinding p.1 (literal_of p.2)) kw, []).
Definition kw_ba : list (string * Arg) := [("b", ArgValue "2"); ("a", ArgValue "1")].
Definition kw_ab : list (string * Arg) := [("a", ArgValue "1"); ("b", ArgValue "2")].
End SampleCall.

(** ** Auxiliary definitions for discovery *)

(** The pairs that the objects not yet visited can still put on the queue. *)
Definition pending (h : Heap) (vis : gset addr) : nat :=
  sum_list (imap (fun a o => if decide (a ∈ vis) then 0 else children_count o) h).

(** The name under which address [a] was first taken from the queue. *)
Fixpoint first_visit (log : list (string * addr)) (a : addr) : option string :=
  match log with
  | [] => None
  | (nm, b) :: rest => if decide (b = a) then Some nm else first_visit rest a
  end.

(** The addresses of the collected objects. *)
Definition collected_addrs (st : Discovery) : list addr :=
  map fst (d_inputs st) ++ map fst (d_outputs st) ++ map fst (d_nodes st).

(** How a collected object relates to the heap [h0] discovery started from
    and to the log: it is the object of [h0] at its address, renamed to (or
    given the id made from) the name of its first visit. *)
Definition input_collected_as (top : gset string) (h0 : Heap)
    (log : list (string * addr)) (a : addr) (i : Input) : Prop :=
  exists nm i0, first_visit log a = Some nm /\ nm ∈ top
    /\ h0 !! a = Some (OInput i0)
    /\ i = Input_rename_and_return_reference i0 nm.

Definition output_collected_as (top : gset string) (h0 : Heap)
    (log : list (string * addr)) (a : addr) (o : Output) : Prop :=
  exists nm o0, first_visit log a = Some nm /\ nm ∈ top
    /\ h0 !! a = Some (OOutput o0)
    /\ o = Output_rename_and_return_reference o0 nm.

Definition node_collected_as (assign : SdkNode -> string -> result SdkNode)
    (h0 : Heap) (log : list (string * addr)) (a : addr) (n : SdkNode) : Prop :=
  exists nm n0, first_visit log a = Some nm
    /\ h0 !! a = Some (ONode n0)
    /\ assign n0 nm = Ok n.

(** The invariant of the discovery loop. *)
Definition discovery_inv (assign : SdkNode -> string -> result SdkNode)
    (top : gset string) (h0 : Heap) (st : Discovery) : Prop :=
  (forall nm a, (nm, a) ∈ visit_log st -> a ∈ visited_obj_ids st)
  /\ (forall a, a ∉ visited_obj_ids st -> d_heap st !! a = h0 !! a)
  /\ NoDup (collected_addrs st)
  /\ (forall a, a ∈ collected_addrs st -> a ∈ visited_obj_ids st)
  /\ (forall a i, (a, i) ∈ d_inputs st ->
        input_collected_as top h0 (visit_log st) a i)
  /\ (forall a o, (a, o) ∈ d_outputs st ->
        output_collected_as top h0 (visit_log st) a o)
  /\ (forall a n, (a, n) ∈ d_nodes st ->
        node_collected_as assign h0 (visit_log st) a n).

(** Whether a name contains an opening bracket. *)
Fixpoint has_open_bracket (s : string) : bool :=
  match s with
  | EmptyString => false
  | String c s' => Ascii.eqb c "[" || has_open_bracket s'
  end.

(** [n.id = id]. *)
Definition set_node_id (n : SdkNode) (id : option string) : SdkNode :=
  match n with
  | mkSdkNode _ u b m w e => mkSdkNode id u b m w e
  end.

(** Modelled from the spec: [SdkNode.assign_id_and_return], which is defined
    with the node class and not in this module.  By section 4.1 discovery
    assigns a node the synthesized name under which it is collected, and by
    section 3 the id of a node is assigned exactly once and frozen after
    that: assigning to a node that has an id is an assertion error. *)
Definition assign_id_once (n : SdkNode) (id : string) : result SdkNode :=
  match n_id n with
  | Some _ => Raise (FlyteAssertion "Error assigning ID: an id is already assigned")
  | None => Ok (set_node_id n (Some id))
  end.

(** The sample classes list the attributes that hold entities or containers;
    the attributes every class has besides hold none and are left out. *)
Module SampleSurface.
Definition x : Input := mkInput "" (mkVar "Int" "") true None.
Definition y : Output := mkOutput "" (NodeOutputRef "n1" "y") (mkVar "Int" "").

(** A class with the attributes [a = b = x] (one input under two names),
    [c = [n, c, n]] (a list that holds a node twice, and itself), [d = n]
    and [e = y]. *)
Definition heap : Heap :=
  [OInput x; OSeq [2; 1; 2]; ONode (Sample.unassigned_task_node []); OOutput y].
Definition surface : list (string * addr) :=
  [("a", 0); ("b", 0); ("c", 1); ("d", 2); ("e", 3)].

(** A class with the attributes [x = [inp]] and one named [x[0]]. *)
Definition bracket_heap : Heap := [OSeq [1]; OInput x; OOther].
Definition bracket_surface : list (string * addr) := [("x", 0); ("x[0]", 2)].

(** A class with the attribute [x = [inp]] only. *)
Definition nested_surface : list (string * addr) := [("x", 0)].
End SampleSurface.

Module SampleBuild.
(** A class with the attributes [a_list = [n0]], [b = n1], [y] and [z]
    (two inputs) and [out] (an output); [n1] is upstream of [n0]. *)
Definition heap : Heap :=
  [OSeq [2];
   ONode (Sample.unassigned_task_node []);
   ONode (Sample.unassigned_task_node [1]);
   OInput SampleSurface.x;
   OInput SampleSurface.x;
   OOutput SampleSurface.y].
Definition surface : list (string * addr) :=
  [("a_list", 0); ("b", 1); ("out", 5); ("y", 3); ("z", 4)].
End SampleBuild.

(** Modelled from the spec: the constructors of [SdkRunnableLaunchPlan] and
    [SdkLaunchPlan], which are defined in [flytekit.common.launch_plan] and
    not in this module.  By section 3 a launch plan is the record of its
    workflow, default inputs, fixed inputs, schedule, notifications, labels,
    annotations and auth role, with the invariant that a name present in
    the fixed inputs must not also appear in the default inputs; by section
    8 a launch plan with such a name is a conflict and must fail.  So the
    constructor raises for arguments that break the invariant and stores the
    others. *)
Definition launch_plan_conflict_msg : string :=
  "a name present in fixed_inputs must not also appear in default_inputs".

Definition SdkRunnableLaunchPlan_init (args : RunnableLaunchPlanArgs)
    : result RunnableLaunchPlanArgs :=
  if bool_decide (dom (rlp_fixed_inputs args) ∩ dom (rlp_default_inputs args) = ∅)
  then Ok args
  else Raise (FlyteAssertion launch_plan_conflict_msg).


(** A sample of the constructor of [AuthRole]: it refuses an IAM role
    together with a service account and stores the others. *)
Definition sample_auth_role (assumable_iam_role kubernetes_service_account : option string)
    : result AuthRole :=
  if truthy assumable_iam_role && truthy kubernetes_service_account
  then Raise (ValueError "Only one of assumable_iam_role or kubernetes_service_account can be set")
  else Ok (mkAuthRole assumable_iam_role kubernetes_service_account).

Module SamplePlan.
Definition a : Input := mkInput "a" (mkVar "Int" "") false (Some "0").
Definition caller_a : Input := mkInput "other" (mkVar "Int" "") false (Some "7").
(** A workflow that declares the input [a]. *)
Definition pw : PythonWorkflow := PythonWorkflow_init Sample.W2 [a] [].
Definition fixed : gmap string Value := {["a" := "1"]}.
Definition defaults : gmap string Input := {["a" := caller_a]}.
End SamplePlan.

(** ** Promotion and serialization *)

Record TaskTemplate : Type := mkTaskTemplate { tt_id : Identifier }.

(** [flytekit.models.core.workflow.Node], as far as this module reads it. *)
Record NodeModel : Type := mkNodeModel {
  mn_id : string;
  mn_upstream_node_ids : list string;
  mn_inputs : list Binding;
  mn_metadata : NodeMetadata;
  mn_workflow_node : option WorkflowNode;
  mn_task_ref : option Identifier
}.

(** [flytekit.models.core.workflow.WorkflowTemplate]. *)
Record WorkflowTemplate : Type := mkWorkflowTemplate {
  t_id : Identifier;
  t_metadata : WorkflowMetadata;
  t_metadata_defaults : WorkflowMetadataDefaults;
  t_interface : TypedInterface;
  t_nodes : list NodeModel;
  t_outputs : list Binding
}.

Record WireWorkflowSpec : Type := mkWireWorkflowSpec {
  primary_template : WorkflowTemplate;
  sub_workflow_templates : list WorkflowTemplate
}.

(** The node object at an address, if there is one. *)
Definition node_at (h : Heap) (a : addr) : option SdkNode :=
  match h !! a with
  | Some (ONode n) => Some n
  | _ => None
  end.

Definition nodes_at (h : Heap) (addrs : list addr) : list SdkNode :=
  omap (node_at h) addrs.

(** Modelled from the spec: the property [upstream_node_ids] of a node, which
    is defined with the node class and not in this module; by section 3 it
    is the set of the ids of the nodes upstream of the node. *)
Definition upstream_node_ids (h : Heap) (n : SdkNode) : list string :=
  omap (fun u => node_at h u ≫= n_id) (upstream_nodes n).

(** [n.upstream_nodes.append(u)]. *)
Definition add_upstream (n : SdkNode) (u : addr) : SdkNode :=
  match n with
  | mkSdkNode i ups b m w e => mkSdkNode i (ups ++ [u]) b m w e
  end.

(** Modelled from the spec: the operator [current << upstream_node] of the
    node class, which is not in this module; by section 4.2 it records the
    edge from [upstream_node] to [current]. *)
Definition lshift (h : Heap) (current upstream_node : addr) : Heap :=
  match h !! current with
  | Some (ONode n) =>
      if bool_decide (upstream_node ∈ upstream_nodes n) then h
      else <[current := ONode (add_upstream n upstream_node)]> h
  | _ => h
  end.

(** Modelled from the spec: the wire form of a workflow and its nodes
    ([to_flyte_idl], defined with the model classes and not in this module).
    By section 6 a template carries the id, the metadata, the interface, the
    nodes and the output bindings of the workflow, and a workflow spec a
    primary template and the templates of the sub-workflows; by section 3 a
    node carries its id, its metadata, the ids of its upstream nodes, its
    bindings and its target.  The id field of the wire node is a string, so
    an unassigned id goes out as the empty string. *)
Definition node_to_model (h : Heap) (n : SdkNode) : NodeModel :=
  mkNodeModel (default "" (n_id n)) (upstream_node_ids h n) (bindings n)
    (n_metadata n) (workflow_node n)
    match executable_sdk_object n with
    | Some (ExTask t _) => Some t
    | _ => None
    end.

Definition template_of (h : Heap) (w : SdkWorkflow) : WorkflowTemplate :=
  mkWorkflowTemplate (w_id w) (w_metadata w) (w_metadata_defaults w)
    (interface w) (map (node_to_model h) (nodes w)) (outputs w).

Definition to_flyte_idl (h : Heap) (spec : WorkflowSpec) : WireWorkflowSpec :=
  mkWireWorkflowSpec (template_of h (ws_template spec))
    (map (template_of h) (ws_sub_workflows spec)).

(** [SdkWorkflow.serialize]. *)
Definition serialize (h : Heap) (self : SdkWorkflow) : result WireWorkflowSpec :=
  sub_workflows ← get_sub_workflows self;
  Ok (to_flyte_idl h (mkWorkflowSpec self sub_workflows)).

Section Promotion.
(** The two reserved node ids of [flytekit.common.constants]. *)
Variables START_NODE_ID END_NODE_ID : string.
(** [SdkNode.promote_from_model], [Identifier.promote_from_model] and
    [TypedInterface.promote_from_model], defined with their classes. *)
Variable SdkNode_promote_from_model :
  NodeModel -> list (Identifier * WorkflowTemplate)
  -> list (Identifier * TaskTemplate) -> result SdkNode.
Variable Identifier_promote_from_model : Identifier -> Identifier.
Variable TypedInterface_promote_from_model : TypedInterface -> TypedInterface.

Definition get_non_system_nodes (ns : list NodeModel) : list NodeModel :=
  filter (fun n => mn_id n <> START_NODE_ID /\ mn_id n <> END_NODE_ID) ns.

(** The dict comprehension that builds [node_map]: every promoted node is a
    new object, and [node_map] holds its address. *)
Fixpoint build_node_map (sub_workflows : list (Identifier * WorkflowTemplate))
    (tasks : list (Identifier * TaskTemplate)) (h : Heap)
    (node_map : list (string * addr)) (ns : list NodeModel)
    : result (Heap * list (string * addr)) :=
  match ns with
  | [] => Ok (h, node_map)
  | n :: rest =>
      sdk_node ← SdkNode_promote_from_model n sub_workflows tasks;
      build_node_map sub_workflows tasks (h ++ [ONode sdk_node])
        (dict_set (mn_id n) (length h) node_map) rest
  end.

(** [for upstream_id in current.upstream_node_ids]. *)
Fixpoint wire_upstream (h : Heap) (node_map : list (string * addr))
    (current : addr) (ids : list string) : result Heap :=
  match ids with
  | [] => Ok h
  | upstream_id :: rest =>
      upstream_node ← dict_get upstream_id node_map;
      wire_upstream (lshift h current upstream_node) node_map current rest
  end.

(** [for n in base_model_non_system_nodes]. *)
Fixpoint wire_nodes (h : Heap) (node_map : list (string * addr))
    (ns : list NodeModel) : result Heap :=
  match ns with
  | [] => Ok h
  | n :: rest =>
      current ← dict_get (mn_id n) node_map;
      match node_at h current with
      | Some c =>
          h' ← wire_upstream h node_map current (upstream_node_ids h c);
          wire_nodes h' node_map rest
      | None => Raise (AttributeError "object has no attribute 'upstream_node_ids'")
      end
  end.

(** [promote_from_model] returns the workflow or raises, together with the
    heap that holds the promoted nodes and the count of drawn identifiers. *)
Definition promote_from_model (cfg : Config) (h : Heap)
    (base_model : WorkflowTemplate)
    (sub_workflows : option (list (Identifier * WorkflowTemplate)))
    (tasks : option (list (Identifier * TaskTemplate)))
    (drawn : nat) : result SdkWorkflow * Heap * nat :=
  let base_model_non_system_nodes := get_non_system_nodes (t_nodes base_model) in
  let sub_workflows := default [] sub_workflows in
  let tasks := default [] tasks in
  match build_node_map sub_workflows tasks h [] base_model_non_system_nodes with
  | Raise e => (Raise e, h, drawn)
  | Ok (h, node_map) =>
      match wire_nodes h node_map base_model_non_system_nodes with
      | Raise e => (Raise e, h, drawn)
      | Ok h =>
          let '(r, drawn) :=
            SdkWorkflow_init cfg h None None (nodes_at h (dict_values node_map))
              (Some (Identifier_promote_from_model (t_id base_model)))
              (Some (t_metadata base_model))
              (Some (t_metadata_defaults base_model))
              (Some (TypedInterface_promote_from_model (t_interface base_model)))
              (Some (t_outputs base_model)) drawn in
          (r, h, drawn)
      end
  end.
End Promotion.

(** The ids of a list of nodes, as a set. *)
Definition node_id_set (ns : list SdkNode) : gset string :=
  list_to_set (omap n_id ns).

Module SampleRoundTrip.
(** A node-level promotion that keeps the id, the metadata, the bindings and
    the target of the serialized node and hydrates no executable. *)
Definition promote_node (m : NodeModel) (_ : list (Identifier * WorkflowTemplate))
    (_ : list (Identifier * TaskTemplate)) : result SdkNode :=
  Ok (mkSdkNode (Some (mn_id m)) [] (mn_inputs m) (mn_metadata m)
        (mn_workflow_node m) None).
Definition START : string := "start-node".
Definition END : string := "end-node".
Definition plain : list SdkNode := [Sample.task_node "n1" []; Sample.task_node "n2" []].
Definition reserved : list SdkNode := [Sample.task_node "start-node" []].
End SampleRoundTrip.

(** Every entry of the node map is the address of a node that has the key as
    its id and no upstream reference. *)
Definition node_map_ok (h : Heap) (node_map : list (string * addr)) : Prop :=
  forall k a, (k, a) ∈ node_map ->
    exists n, h !! a = Some (ONode n) /\ n_id n = Some k /\ upstream_nodes n = [].

(** The objects a container holds: the elements of a sequence, the keys and
    the values of a dict. *)
Definition obj_children (o : Obj) : list addr :=
  match o with
  | OSeq elems => elems
  | ODict items => map (fun it => it.1.2) items ++ map (fun it => it.2) items
  | _ => []
  end.

(** The objects that can be reached from the attributes of a class through
    containers. *)
Inductive reachable (h : Heap) (workflow_class : list (string * addr))
    : addr -> Prop :=
  | reach_attribute nm a :
      (nm, a) ∈ workflow_class -> reachable h workflow_class a
  | reach_element a o a' :
      reachable h workflow_class a -> h !! a = Some o -> a' ∈ obj_children o ->
      reachable h workflow_class a'.

(** A visited input, output or node of the initial heap has been collected. *)
Definition collected_if_entity (h0 : Heap) (st : Discovery) (a : addr) : Prop :=
  match h0 !! a with
  | Some (OInput _) => a ∈ map fst (d_inputs st)
  | Some (OOutput _) => a ∈ map fst (d_outputs st)
  | Some (ONode _) => a ∈ map fst (d_nodes st)
  | _ => True
  end.

(** The second invariant of the discovery loop: what has been visited has
    been collected, and what can be reached in one step from the class or
    from a visited object is visited or on the queue. *)
Definition coverage_inv (h0 : Heap) (workflow_class : list (string * addr))
    (st : Discovery) : Prop :=
  (forall a, a ∈ visited_obj_ids st -> collected_if_entity h0 st a)
  /\ (forall nm a, (nm, a) ∈ workflow_class ->
        a ∈ visited_obj_ids st \/ a ∈ map snd (to_visit_objs st))
  /\ (forall a o a', a ∈ visited_obj_ids st -> h0 !! a = Some o ->
        a' ∈ obj_children o ->
        a' ∈ visited_obj_ids st \/ a' ∈ map snd (to_visit_objs st)).

Definition discovery_and_coverage_inv
    (assign : SdkNode -> string -> result SdkNode) (top : gset string)
    (h0 : Heap) (workflow_class : list (string * addr)) (st : Discovery) : Prop :=
  discovery_inv assign top h0 st /\ coverage_inv h0 workflow_class st.

(** The third invariant of the discovery loop: a pair that is or was on the
    queue is an attribute of the class with its value, or carries a
    synthesized path. *)
Definition names_inv (workflow_class : list (string * addr)) (st : Discovery) : Prop :=
  forall nm a, (nm, a) ∈ to_visit_objs st ++ visit_log st ->
    (nm, a) ∈ workflow_class
    \/ exists attribute_name index,
         nm = _assign_indexed_attribute_name attribute_name index.

(** * Further definitions *)

(** ** The closure of a workflow *)

(** A sub-workflow node whose executable is missing or is no workflow: the
    case in which [get_sub_workflows] raises. *)
Definition bad_node (n : SdkNode) : Prop :=
  has_sub_workflow_ref (workflow_node n) = true
  /\ forall w, executable_sdk_object n <> Some (ExWorkflow w).

(** [w1] is the hydrated workflow of a sub-workflow node of [w]. *)
Definition sub_step (w w1 : SdkWorkflow) : Prop :=
  exists n, n ∈ nodes w /\ sub_workflow_node n w1.

(** The workflows that [w] uses through one or more sub-workflow nodes. *)
Inductive in_closure : SdkWorkflow -> SdkWorkflow -> Prop :=
  | closure_direct w w1 : sub_step w w1 -> in_closure w w1
  | closure_nested w w1 w2 :
      sub_step w w1 -> in_closure w1 w2 -> in_closure w w2.

(** [w] or a workflow of its closure has a bad node. *)
Definition has_bad_node (w : SdkWorkflow) : Prop :=
  (exists n, n ∈ nodes w /\ bad_node n)
  \/ exists w', in_closure w w' /\ exists n, n ∈ nodes w' /\ bad_node n.

(** The number of constructors of a workflow, counted through the
    workflows that its nodes execute. *)
Fixpoint wf_size (w : SdkWorkflow) : nat :=
  match w with
  | mkSdkWorkflow _ _ _ _ ns _ _ =>
      S ((fix go (ns : list SdkNode) : nat :=
            match ns with
            | [] => 0
            | mkSdkNode _ _ _ _ _ ex :: rest =>
                match ex with
                | Some (ExWorkflow w1) => wf_size w1
                | _ => 0
                end + S (go rest)
            end) ns)
  end.

(** The closure and the bad nodes, for the nodes of a list. *)
Definition list_closure (ns : list SdkNode) (w' : SdkWorkflow) : Prop :=
  exists n w1, n ∈ ns /\ sub_workflow_node n w1 /\ (w' = w1 \/ in_closure w1 w').

Definition list_has_bad (ns : list SdkNode) : Prop :=
  (exists n, n ∈ ns /\ bad_node n)
  \/ exists n w1, n ∈ ns /\ sub_workflow_node n w1 /\ has_bad_node w1.

(** [n] is a bad node of [w] or of a workflow of its closure. *)
Definition bad_node_of (w : SdkWorkflow) (n : SdkNode) : Prop :=
  bad_node n
  /\ (n ∈ nodes w \/ exists w', in_closure w w' /\ n ∈ nodes w').

(** [n] is a bad node of the list or of a workflow that the list uses. *)
Definition list_bad_node_of (ns : list SdkNode) (n : SdkNode) : Prop :=
  bad_node n
  /\ (n ∈ ns \/ exists w', list_closure ns w' /\ n ∈ nodes w').

(** The exception that [get_sub_workflows] raises for the bad node [n]. *)
Definition raised_for (e : exn) (n : SdkNode) : Prop :=
  exists text, executable_text (executable_sdk_object n) = Some text
    /\ e = FlyteSystemException (bad_executable_msg text).

(** What [get_sub_workflows] returns, in terms of the closure. *)
Definition closure_spec (r : result (list SdkWorkflow))
    (closure : SdkWorkflow -> Prop) (bad : Prop) (bad_of : SdkNode -> Prop)
    : Prop :=
  (forall l, r = Ok l -> forall w', w' ∈ l <-> closure w')
  /\ ((exists e, r = Raise e) <-> bad)
  /\ (forall e, r = Raise e -> exists n, bad_of n /\ raised_for e n).

Module SampleRegister.
(** A sub-workflow node that was never hydrated. *)
Definition unhydrated : SdkNode :=
  mkSdkNode (Some "n") [] [] Sample.node_meta
    (Some (mkWorkflowNode (Some (Sample.ident "w9")) None)) None.
Definition broken : SdkWorkflow :=
  Sample.workflow "wb" [Sample.wf_node "n1" Sample.W1; unhydrated].
(** A client whose call is interrupted from the keyboard. *)
Definition interrupted_client : Client :=
  mkClient (fun _ _ => Raise (BaseExceptionOnly "KeyboardInterrupt")).
End SampleRegister.

Module SampleInterface.
Definition out (n : string) (v : Value) : Output :=
  mkOutput n (Literal v) (mkVar "Int" v).
(** Two outputs declared under one name. *)
Definition twice : list Output := [out "r" "1"; out "r" "2"].
End SampleInterface.

Module SampleLaunch.
Definition b : Input := mkInput "b" (mkVar "Int" "") false (Some "2").
(** A workflow that declares the inputs [a] and [b]. *)
Definition pw : PythonWorkflow :=
  PythonWorkflow_init Sample.W2 [SamplePlan.a; b] [].
(** A packing function that refuses every map. *)
Definition failing_pack (_ : gmap string Value) (_ : gmap string LiteralType)
    : result (gmap string Value) :=
  Raise (TypeError "cannot pack").
End SampleLaunch.

(** ** Further invariants of the discovery loop *)

(** The pairs taken from the queue, followed by the pairs on it, are the
    attributes of the class followed by what containers have put on the
    queue. *)
Definition queue_inv (workflow_class : list (string * addr)) (st : Discovery) : Prop :=
  exists ch, visit_log st ++ to_visit_objs st = workflow_class ++ ch.

(** The heap holds every collected object at its address, where the heap
    discovery started from holds an object of the same class, and is
    as that heap everywhere else. *)
Definition heap_inv (h0 : Heap) (st : Discovery) : Prop :=
  length (d_heap st) = length h0
  /\ (forall a, a ∈ collected_addrs st -> a ∈ visited_obj_ids st)
  /\ (forall a i, (a, i) ∈ d_inputs st ->
        d_heap st !! a = Some (OInput i) /\ exists i0, h0 !! a = Some (OInput i0))
  /\ (forall a o, (a, o) ∈ d_outputs st ->
        d_heap st !! a = Some (OOutput o) /\ exists o0, h0 !! a = Some (OOutput o0))
  /\ (forall a n, (a, n) ∈ d_nodes st ->
        d_heap st !! a = Some (ONode n) /\ exists n0, h0 !! a = Some (ONode n0))
  /\ (forall a, a ∉ collected_addrs st -> d_heap st !! a = h0 !! a).

(** ** Building from a class *)

(** What [build_sdk_workflow_from_metaclass] needs of
    [assign_id_and_return]: the node it returns has an id and the upstream
    nodes it had. *)
Definition assigns_an_id (assign : SdkNode -> string -> result SdkNode) : Prop :=
  forall n nm n', assign n nm = Ok n' ->
    n_id n' <> None /\ upstream_nodes n' = upstream_nodes n.

(** Every upstream reference of a node of the heap is the address of a
    node. *)
Definition heap_upstream_are_nodes (h : Heap) : Prop :=
  forall a n u, h !! a = Some (ONode n) -> u ∈ upstream_nodes n ->
    exists m, h !! u = Some (ONode m).

(** Some discovered node has upstream a node that discovery has not
    collected and that has no id. *)
Definition missing_upstream (h0 : Heap) (st : Discovery) : Prop :=
  exists a n u m, (a, n) ∈ d_nodes st /\ u ∈ upstream_nodes n
    /\ (u ∉ map fst (d_nodes st)) /\ h0 !! u = Some (ONode m) /\ n_id m = None.

Module SampleMissing.
(** A class with the attribute [b = n] only, where a node that is no
    attribute of the class is upstream of [n]. *)
Definition heap : Heap :=
  [ONode (Sample.unassigned_task_node [1]); ONode (Sample.unassigned_task_node [])].
Definition surface : list (string * addr) := [("b", 0)].
End SampleMissing.

Module SamplePromote.
(** A node-level promotion that cannot promote the node [n2]. *)
Definition promote_node (m : NodeModel) (subs : list (Identifier * WorkflowTemplate))
    (tasks : list (Identifier * TaskTemplate)) : result SdkNode :=
  if String.eqb (mn_id m) "n2"
  then Raise (FlyteSystemException "cannot hydrate n2")
  else SampleRoundTrip.promote_node m subs tasks.
Definition node (i : string) : NodeModel :=
  mkNodeModel i [] [] Sample.node_meta None None.
(** A node-level promotion that rebuilds the nodes of the user and cannot
    promote the two reserved nodes. *)
Definition promote_user_node (m : NodeModel)
    (subs : list (Identifier * WorkflowTemplate))
    (tasks : list (Identifier * TaskTemplate)) : result SdkNode :=
  if String.eqb (mn_id m) SampleRoundTrip.START
     || String.eqb (mn_id m) SampleRoundTrip.END
  then Raise (FlyteSystemException "a reserved node has no target")
  else SampleRoundTrip.promote_node m subs tasks.
Definition template : WorkflowTemplate :=
  mkWorkflowTemplate (Sample.ident "w") (mkWorkflowMetadata None)
    (mkWorkflowMetadataDefaults None) Sample.no_interface
    [node "start-node"; node "n1"; node "n2"; node "end-node"] [].
End SamplePromote.

Module SampleDuplicate.
(** A template in which two nodes have the id [n1], with the two reserved
    nodes. *)
Definition first : NodeModel :=
  mkNodeModel "n1" [] [] (mkNodeMetadata "first" 0 0) None None.
Definition second : NodeModel :=
  mkNodeModel "n1" [] [] (mkNodeMetadata "second" 0 0) None None.
Definition template : WorkflowTemplate :=
  mkWorkflowTemplate (Sample.ident "w") (mkWorkflowMetadata None)
    (mkWorkflowMetadataDefaults None) Sample.no_interface
    [SamplePromote.node "start-node"; first; SamplePromote.node "n0"; second;
     SamplePromote.node "end-node"] [].
End SampleDuplicate.

(** ** SdkWorkflow.fetch *)

(** The parts of the answer of Admin that [fetch] reads:
    [admin_workflow.closure.compiled_workflow], its [primary] workflow, its
    [sub_workflows] and its [tasks], each with its [template]. *)
Record CompiledWorkflow : Type := mkCompiledWorkflow {
  cw_template : WorkflowTemplate
}.
Record CompiledTask : Type := mkCompiledTask { ct_template : TaskTemplate }.
Record CompiledWorkflowClosure : Type := mkCompiledWorkflowClosure {
  cwc_primary : CompiledWorkflow;
  cwc_sub_workflows : list CompiledWorkflow;
  cwc_tasks : list CompiledTask
}.
Record WorkflowClosure : Type := mkWorkflowClosure {
  compiled_workflow : CompiledWorkflowClosure
}.
Record AdminWorkflow : Type := mkAdminWorkflow { closure : WorkflowClosure }.

(** The method of the client that [fetch] calls. *)
Record FetchClient : Type := mkFetchClient {
  get_workflow : Identifier -> result AdminWorkflow
}.

Global Instance ResourceType_eq_dec : EqDecision ResourceType.
Proof. solve_decision. Defined.
Global Instance Identifier_eq_dec : EqDecision Identifier.
Proof. solve_decision. Defined.

(** [d[k] = v] on a dict whose keys are identifiers. *)
Fixpoint id_dict_set {V : Type} (k : Identifier) (v : V)
    (d : list (Identifier * V)) : list (Identifier * V) :=
  match d with
  | [] => [(k, v)]
  | (k', v') :: d' =>
      if bool_decide (k = k') then (k, v) :: d' else (k', v') :: id_dict_set k v d'
  end.

(** [{sw.template.id: sw.template for sw in cwc.sub_workflows}]. *)
Definition sub_workflow_map (cwc : CompiledWorkflowClosure)
    : list (Identifier * WorkflowTemplate) :=
  foldl (fun d sw => id_dict_set (t_id (cw_template sw)) (cw_template sw) d) []
    (cwc_sub_workflows cwc).

(** [{t.template.id: t.template for t in cwc.tasks}]. *)
Definition task_map (cwc : CompiledWorkflowClosure)
    : list (Identifier * TaskTemplate) :=
  foldl (fun d t => id_dict_set (tt_id (ct_template t)) (ct_template t) d) []
    (cwc_tasks cwc).

Section Fetch.
Variables START_NODE_ID END_NODE_ID : string.
Variable SdkNode_promote_from_model :
  NodeModel -> list (Identifier * WorkflowTemplate)
  -> list (Identifier * TaskTemplate) -> result SdkNode.
Variable Identifier_promote_from_model : Identifier -> Identifier.
Variable TypedInterface_promote_from_model : TypedInterface -> TypedInterface.
(** [_FlyteClientManager(URL.get(), insecure=INSECURE.get()).client]. *)
Variable client_manager : result FetchClient.

(** [version or _internal_config.VERSION.get()]. *)
Definition version_or_configured (cfg : Config) (version : option string) : string :=
  match version with
  | Some v => if String.eqb v "" then VERSION cfg else v
  | None => VERSION cfg
  end.

Definition fetch (cfg : Config) (h : Heap) (project domain name : string)
    (version : option string) (drawn : nat) : result SdkWorkflow * Heap * nat :=
  let version := version_or_configured cfg version in
  let workflow_id := mkIdentifier WORKFLOW project domain name version in
  match client ← client_manager; get_workflow client workflow_id with
  | Raise e => (Raise e, h, drawn)
  | Ok admin_workflow =>
      let cwc := compiled_workflow (closure admin_workflow) in
      let primary_template := cw_template (cwc_primary cwc) in
      match promote_from_model START_NODE_ID END_NODE_ID
              SdkNode_promote_from_model Identifier_promote_from_model
              TypedInterface_promote_from_model cfg h primary_template
              (Some (sub_workflow_map cwc)) (Some (task_map cwc)) drawn with
      | (Ok sdk_workflow, h, drawn) => (Ok (set_id sdk_workflow workflow_id), h, drawn)
      | (Raise e, h, drawn) => (Raise e, h, drawn)
      end
  end.
End Fetch.

Module SampleFetch.
(** What Admin holds for every id: a workflow with one node and the two
    reserved nodes, stored under an id of its own, without sub-workflows and
    tasks. *)
Definition stored : WorkflowTemplate :=
  mkWorkflowTemplate (Sample.ident "stored") (mkWorkflowMetadata None)
    (mkWorkflowMetadataDefaults None) Sample.no_interface
    [SamplePromote.node "start-node"; SamplePromote.node "n1";
     SamplePromote.node "end-node"] [].
Definition client : FetchClient :=
  mkFetchClient (fun _ =>
    Ok (mkAdminWorkflow (mkWorkflowClosure
          (mkCompiledWorkflowClosure (mkCompiledWorkflow stored) [] [])))).
End SampleFetch.

(** ** The queue of the discovery loop *)

(** The invariant of the discovery loop that tells where its errors come
    from: a pair that has been taken from the queue has a visited address;
    an object that has not been visited is as it was; the pairs taken from
    the queue, followed by the pairs on it, are the attributes of the class
    followed by pairs with a synthesized name; and every object on the queue
    can be reached from the class. *)
Definition frontier_inv (h0 : Heap) (workflow_class : list (string * addr))
    (st : Discovery) : Prop :=
  (forall nm a, (nm, a) ∈ visit_log st -> a ∈ visited_obj_ids st)
  /\ (forall a, a ∉ visited_obj_ids st -> d_heap st !! a = h0 !! a)
  /\ (exists ch,
        visit_log st ++ to_visit_objs st = workflow_class ++ ch
        /\ forall nm a, (nm, a) ∈ ch ->
             exists attribute_name index,
               nm = _assign_indexed_attribute_name attribute_name index)
  /\ (forall nm a, (nm, a) ∈ to_visit_objs st -> reachable h0 workflow_class a).

Module SampleNested.
(** A class with the attributes [a = [x]] and [z = x], for an input [x], and
    a class with the attribute [a = [x]] only. *)
Definition heap : Heap := [OSeq [1]; OInput SampleSurface.x].
Definition both : list (string * addr) := [("a", 0); ("z", 1)].
Definition nested_only : list (string * addr) := [("a", 0)].
End SampleNested.

(** * Properties *)

(** ** get_sub_workflows *)

Lemma get_sub_workflows_unfold (w : SdkWorkflow) :
  get_sub_workflows w = sub_workflows_of_nodes (nodes w).
Proof.
  destruct w as [i m d f ns o u]; simpl.
  induction ns as [|n rest IH]; [reflexivity|].
  destruct n as [ni nu nb nm wn ex]; simpl.
  destruct (has_sub_workflow_ref wn); [|exact IH].
  destruct ex as [[t|w1|]|]; try reflexivity.
  simpl in *. rewrite IH. reflexivity.
Qed.

Lemma entity_type_text_workflow (e : Executable) :
  entity_type_text e = "Workflow" <-> exists w, e = ExWorkflow w.
Proof.
  split.
  - destruct e; simpl; intros H; try discriminate H. eauto.
  - intros [w ->]. reflexivity.
Qed.

Lemma sub_workflows_skipped (ns : list SdkNode) :
  Forall skipped_node ns -> sub_workflows_of_nodes ns = Ok [].
Proof.
  induction 1 as [|n rest Hn _ IH]; simpl; [reflexivity|].
  unfold skipped_node in Hn. rewrite Hn. exact IH.
Qed.

Lemma sub_workflows_skip_prefix (pre ns : list SdkNode) :
  Forall skipped_node pre ->
  sub_workflows_of_nodes (pre ++ ns) = sub_workflows_of_nodes ns.
Proof.
  induction 1 as [|n rest Hn _ IH]; simpl; [reflexivity|].
  unfold skipped_node in Hn. rewrite Hn. exact IH.
Qed.

(** Depth first, parent before children: a sub-workflow node contributes its
    workflow, then that workflow's own sub-workflows, then what the rest of
    the list contributes. *)
Lemma sub_workflows_cons (n : SdkNode) (w1 : SdkWorkflow) (rest : list SdkNode)
    (subs more : list SdkWorkflow) :
  sub_workflow_node n w1 ->
  get_sub_workflows w1 = Ok subs ->
  sub_workflows_of_nodes rest = Ok more ->
  sub_workflows_of_nodes (n :: rest) = Ok (w1 :: subs ++ more).
Proof.
  intros [Hg Hx] Hs Hm. simpl. rewrite Hg, Hx, Hs, Hm. reflexivity.
Qed.

(** C6. [get_sub_workflows] returns the empty list for a workflow without
    sub-workflow nodes; for a workflow whose only sub-workflow node has the
    hydrated workflow [W1], whose only sub-workflow node in turn has the
    hydrated workflow [W2], itself without sub-workflow nodes, it returns
    [[W1; W2]]; the other nodes (tasks, branches) are skipped wherever they
    stand.  In general the result is depth first: a sub-workflow node
    contributes its workflow, then the sub-workflows of that workflow, and
    the nodes after it contribute after that. *)
Theorem get_sub_workflows_depth_first :
  (forall w, Forall skipped_node (nodes w) -> get_sub_workflows w = Ok [])
  /\ (forall w W1 W2 n1 n2 pre post pre1 post1,
        nodes w = pre ++ n1 :: post ->
        nodes W1 = pre1 ++ n2 :: post1 ->
        Forall skipped_node (pre ++ post) ->
        Forall skipped_node (pre1 ++ post1) ->
        Forall skipped_node (nodes W2) ->
        sub_workflow_node n1 W1 ->
        sub_workflow_node n2 W2 ->
        get_sub_workflows w = Ok [W1; W2])
  /\ (forall w w1 n pre post subs more,
        nodes w = pre ++ n :: post ->
        Forall skipped_node pre ->
        sub_workflow_node n w1 ->
        get_sub_workflows w1 = Ok subs ->
        sub_workflows_of_nodes post = Ok more ->
        get_sub_workflows w = Ok (w1 :: subs ++ more)).
Proof.
  split; [|split].
  - intros w H. rewrite get_sub_workflows_unfold. by apply sub_workflows_skipped.
  - intros w W1 W2 n1 n2 pre post pre1 post1 Hw H1 Hs Hs1 Hs2 Hn1 Hn2.
    apply Forall_app in Hs as [Hpre Hpost].
    apply Forall_app in Hs1 as [Hpre1 Hpost1].
    assert (H2 : get_sub_workflows W2 = Ok []).
    { rewrite get_sub_workflows_unfold. by apply sub_workflows_skipped. }
    assert (HW1 : get_sub_workflows W1 = Ok [W2]).
    { rewrite get_sub_workflows_unfold, H1, sub_workflows_skip_prefix by done.
      by rewrite (sub_workflows_cons n2 W2 post1 [] []);
        [|done|done|apply sub_workflows_skipped]. }
    rewrite get_sub_workflows_unfold, Hw, sub_workflows_skip_prefix by done.
    by rewrite (sub_workflows_cons n1 W1 post [W2] []);
      [|done|done|apply sub_workflows_skipped].
  - intros w w1 n pre post subs more Hw Hpre Hn Hs Hm.
    rewrite get_sub_workflows_unfold, Hw, sub_workflows_skip_prefix by done.
    by apply sub_workflows_cons.
Qed.

Lemma get_sub_workflows_depth_first_witness :
  get_sub_workflows Sample.W2 = Ok []
  /\ get_sub_workflows Sample.W0 = Ok [Sample.W1; Sample.W2].
Proof.
  split.
  - apply (proj1 get_sub_workflows_depth_first).
    repeat constructor.
  - apply (proj1 (proj2 get_sub_workflows_depth_first) Sample.W0 Sample.W1 Sample.W2
             (Sample.wf_node "n1" Sample.W1) (Sample.wf_node "n2" Sample.W2)
             [] [Sample.task_node "t0" []] [Sample.task_node "t1" []] []);
      try reflexivity; repeat constructor.
Defined.

(** ** register *)

Lemma set_id_set_id (w : SdkWorkflow) (i j : Identifier) :
  set_id (set_id w i) j = set_id w j.
Proof. by destruct w. Qed.

Lemma set_id_w_id (w : SdkWorkflow) : set_id w (w_id w) = w.
Proof. by destruct w. Qed.

Lemma w_id_set_id (w : SdkWorkflow) (i : Identifier) : w_id (set_id w i) = i.
Proof. by destruct w. Qed.

Lemma nodes_set_id (w : SdkWorkflow) (i : Identifier) : nodes (set_id w i) = nodes w.
Proof. by destruct w. Qed.

Lemma get_sub_workflows_set_id (w : SdkWorkflow) (i : Identifier) :
  get_sub_workflows (set_id w i) = get_sub_workflows w.
Proof. by rewrite !get_sub_workflows_unfold, nodes_set_id. Qed.

(** What [register] does once the [try] block has raised [e]. *)
Lemma register_raise (str : Identifier -> string) (cm : result Client)
    (self : SdkWorkflow) (p d n v : string) (e : exn) :
  register_attempt cm (set_id self (mkIdentifier WORKFLOW p d n v))
    (mkIdentifier WORKFLOW p d n v) = Raise e ->
  register str cm self p d n v =
    if is_already_exists e then
      (Ok None, set_id self (mkIdentifier WORKFLOW p d n v))
    else if is_Exception e then (Raise e, self)
    else (Raise e, set_id self (mkIdentifier WORKFLOW p d n v)).
Proof.
  intros H. unfold register, validate. rewrite H.
  by rewrite set_id_set_id, set_id_w_id.
Qed.

Lemma register_attempt_client (client : Client) (self : SdkWorkflow)
    (i : Identifier) (subs : list SdkWorkflow) :
  get_sub_workflows self = Ok subs ->
  register_attempt (Ok client) self i =
    create_workflow client i (mkWorkflowSpec self subs).
Proof. intros H. unfold register_attempt. simpl. by rewrite H. Qed.

(** When the client reports that the workflow already exists, [register]
    raises nothing, keeps the new id, and returns [None]. *)
Lemma register_already_exists (str : Identifier -> string) (client : Client)
    (self : SdkWorkflow) (p d n v : string) (subs : list SdkWorkflow) :
  get_sub_workflows self = Ok subs ->
  create_workflow client (mkIdentifier WORKFLOW p d n v)
    (mkWorkflowSpec (set_id self (mkIdentifier WORKFLOW p d n v)) subs)
    = Raise FlyteEntityAlreadyExistsException ->
  register str (Ok client) self p d n v
    = (Ok None, set_id self (mkIdentifier WORKFLOW p d n v)).
Proof.
  intros Hs Hc.
  rewrite (register_raise _ _ _ _ _ _ _ FlyteEntityAlreadyExistsException); [done|].
  rewrite (register_attempt_client _ _ _ subs); [done|].
  by rewrite get_sub_workflows_set_id.
Qed.

(** On success [register] returns the text of the new id. *)
Lemma register_success (str : Identifier -> string) (client : Client)
    (self : SdkWorkflow) (p d n v : string) (subs : list SdkWorkflow) :
  get_sub_workflows self = Ok subs ->
  create_workflow client (mkIdentifier WORKFLOW p d n v)
    (mkWorkflowSpec (set_id self (mkIdentifier WORKFLOW p d n v)) subs) = Ok tt ->
  register str (Ok client) self p d n v
    = (Ok (Some (str (mkIdentifier WORKFLOW p d n v))),
       set_id self (mkIdentifier WORKFLOW p d n v)).
Proof.
  intros Hs Hc. unfold register, validate.
  rewrite (register_attempt_client _ _ _ subs), Hc
    by (by rewrite get_sub_workflows_set_id).
  by rewrite set_id_set_id.
Qed.

(** C1. Registering the sample workflow under [proj/dev/w0/v2] with a client
    that reports the workflow as already existing: nothing is raised and
    the workflow keeps the new id, but the call returns [None], not the new
    id that the same call returns when the client accepts the workflow. *)
Theorem register_already_exists_returns_None :
  register Sample.str (Ok Sample.conflicting_client) Sample.W0 "proj" "dev" "w0" "v2"
    = (Ok None, set_id Sample.W0 (mkIdentifier WORKFLOW "proj" "dev" "w0" "v2"))
  /\ register Sample.str (Ok Sample.accepting_client) Sample.W0 "proj" "dev" "w0" "v2"
    = (Ok (Some "proj:dev:w0:v2"),
       set_id Sample.W0 (mkIdentifier WORKFLOW "proj" "dev" "w0" "v2")).
Proof.
  split.
  - by apply (register_already_exists _ _ _ _ _ _ _ [Sample.W1; Sample.W2]).
  - by rewrite (register_success Sample.str _ _ _ _ _ _ [Sample.W1; Sample.W2]).
Qed.

(** C2. When [create_workflow] raises an exception [e] other than the
    already-exists one, [register] raises [e] and leaves the workflow as it
    was before the call, its id included. *)
Theorem register_rolls_back_on_error (str : Identifier -> string)
    (client : Client) (self : SdkWorkflow) (p d n v : string)
    (subs : list SdkWorkflow) (e : exn) :
  get_sub_workflows self = Ok subs ->
  create_workflow client (mkIdentifier WORKFLOW p d n v)
    (mkWorkflowSpec (set_id self (mkIdentifier WORKFLOW p d n v)) subs) = Raise e ->
  is_Exception e = true ->
  is_already_exists e = false ->
  register str (Ok client) self p d n v = (Raise e, self)
  /\ w_id (snd (register str (Ok client) self p d n v)) = w_id self.
Proof.
  intros Hs Hc He Hn.
  assert (H : register str (Ok client) self p d n v = (Raise e, self)).
  { rewrite (register_raise _ _ _ _ _ _ _ e).
    - by rewrite Hn, He.
    - rewrite (register_attempt_client _ _ _ subs); [done|].
      by rewrite get_sub_workflows_set_id. }
  by rewrite H.
Qed.

Lemma register_rolls_back_on_error_witness :
  register Sample.str (Ok Sample.failing_client) Sample.W0 "proj" "dev" "w0" "v2"
    = (Raise (FlyteSystemException "admin is unavailable"), Sample.W0)
  /\ w_id (snd (register Sample.str (Ok Sample.failing_client) Sample.W0
                  "proj" "dev" "w0" "v2")) = w_id Sample.W0.
Proof.
  apply (register_rolls_back_on_error Sample.str Sample.failing_client Sample.W0
           "proj" "dev" "w0" "v2" [Sample.W1; Sample.W2]
           (FlyteSystemException "admin is unavailable")); reflexivity.
Defined.

(** ** Construction: the check of the upstream ids *)

Lemma check_upstream_cases (h : Heap) (ups : list addr) :
  (forall u, u ∈ ups -> exists m, h !! u = Some (ONode m)) ->
  (check_upstream h ups = Raise (FlyteAssertion missing_node_msg)
   /\ exists u m, u ∈ ups /\ h !! u = Some (ONode m) /\ n_id m = None)
  \/ (check_upstream h ups = Ok tt
      /\ forall u m, u ∈ ups -> h !! u = Some (ONode m) -> n_id m <> None).
Proof.
  induction ups as [|u rest IH]; intros Hty.
  - right. split; [reflexivity|]. intros u m Hu. by apply elem_of_nil in Hu.
  - destruct (Hty u) as [m Hm]; [by left|].
    simpl. unfold upstream_id. rewrite Hm. simpl.
    destruct (n_id m) as [i|] eqn:Hi.
    + destruct IH as [[Hc (u' & m' & Hin & Hl & Hn)]|[Hc Hall]].
      * intros u' Hu'. apply Hty. by right.
      * left. split; [done|]. exists u', m'. split; [by right|done].
      * right. split; [done|]. intros u' m' Hin Hl.
        apply elem_of_cons in Hin as [->|Hin]; [|by eapply Hall].
        rewrite Hm in Hl. injection Hl as <-. by rewrite Hi.
    + left. split; [done|]. exists u, m. split; [by left|done].
Qed.

Lemma check_nodes_cases (h : Heap) (ns : list SdkNode) :
  upstream_refs_are_nodes h ns ->
  (check_nodes h ns = Raise (FlyteAssertion missing_node_msg)
   /\ has_unassigned_upstream h ns)
  \/ (check_nodes h ns = Ok tt /\ ~ has_unassigned_upstream h ns).
Proof.
  induction ns as [|n rest IH]; intros Hty.
  - right. split; [reflexivity|].
    intros (n & u & m & Hn & _). by apply elem_of_nil in Hn.
  - simpl.
    destruct (check_upstream_cases h (upstream_nodes n))
      as [[Hc (u & m & Hu & Hl & Hi)]|[Hc Hall]].
    + intros u Hu. apply (Hty n); [by left|done].
    + left. rewrite Hc. split; [done|]. exists n, u, m. split; [by left|done].
    + rewrite Hc. simpl.
      destruct IH as [[Hr (n' & u & m & Hn' & Hrest)]|[Hr Hnone]].
      * intros n' u Hn' Hu. apply (Hty n'); [by right|done].
      * left. split; [done|]. exists n', u, m. split; [by right|done].
      * right. split; [done|]. intros (n' & u & m & Hn' & Hu & Hl & Hi).
        apply elem_of_cons in Hn' as [->|Hn'].
        -- by apply (Hall u m).
        -- apply Hnone. by exists n', u, m.
Qed.

Lemma SdkWorkflow_init_checked (cfg : Config) (h : Heap)
    (inputs : option (list Input)) (outs : option (list Output))
    (ns : list SdkNode) (id : option Identifier)
    (md : option WorkflowMetadata) (mdd : option WorkflowMetadataDefaults)
    (iface : option TypedInterface) (ob : option (list Binding)) (drawn : nat) :
  check_nodes h ns = Ok tt ->
  forall msg, fst (SdkWorkflow_init cfg h inputs outs ns id md mdd iface ob drawn)
              <> Raise (FlyteAssertion msg).
Proof.
  intros Hc msg. unfold SdkWorkflow_init. rewrite Hc.
  destruct id, iface, ob, inputs, outs; simpl; discriminate.
Qed.

(** C3. For nodes whose upstream references are nodes, both constructors
    raise the assertion error exactly when some node has an upstream
    reference to a node whose id is [None]; in that case they raise it
    whatever the other arguments are, and before an id is drawn. *)
Theorem construction_fails_iff_unassigned_upstream (cfg : Config) (h : Heap)
    (inputs : option (list Input)) (outs : option (list Output))
    (ins' : list Input) (outs' : list Output)
    (ns : list SdkNode) (id : option Identifier)
    (md : option WorkflowMetadata) (mdd : option WorkflowMetadataDefaults)
    (iface : option TypedInterface) (ob : option (list Binding)) (drawn : nat) :
  upstream_refs_are_nodes h ns ->
  ((exists msg, fst (SdkWorkflow_init cfg h inputs outs ns id md mdd iface ob drawn)
                = Raise (FlyteAssertion msg))
   <-> has_unassigned_upstream h ns)
  /\ ((exists msg, fst (construct_from_class_definition cfg h ins' outs' ns md mdd drawn)
                   = Raise (FlyteAssertion msg))
      <-> has_unassigned_upstream h ns)
  /\ (has_unassigned_upstream h ns ->
      SdkWorkflow_init cfg h inputs outs ns id md mdd iface ob drawn
        = (Raise (FlyteAssertion missing_node_msg), drawn)
      /\ construct_from_class_definition cfg h ins' outs' ns md mdd drawn
        = (Raise (FlyteAssertion missing_node_msg), drawn)).
Proof.
  intros Hty.
  destruct (check_nodes_cases h ns Hty) as [[Hc Hex]|[Hc Hno]].
  - assert (Hi : SdkWorkflow_init cfg h inputs outs ns id md mdd iface ob drawn
                 = (Raise (FlyteAssertion missing_node_msg), drawn)).
    { unfold SdkWorkflow_init. by rewrite Hc. }
    assert (Hk : construct_from_class_definition cfg h ins' outs' ns md mdd drawn
                 = (Raise (FlyteAssertion missing_node_msg), drawn)).
    { unfold construct_from_class_definition. by rewrite Hc. }
    rewrite Hi, Hk. repeat split; eauto.
  - repeat split; try (intros; contradiction).
    + intros [msg Hm]. by apply SdkWorkflow_init_checked in Hm.
    + intros [msg Hm]. revert Hm.
      unfold construct_from_class_definition. rewrite Hc.
      destruct (SdkWorkflow_init _ _ _ _ _ _ _ _ _ _ _) as [[w|e] k] eqn:Hw; [done|].
      simpl. intros He.
      pose proof (SdkWorkflow_init_checked cfg h None None ns
        (Some (mkIdentifier WORKFLOW (PROJECT cfg) (DOMAIN cfg)
                 (uuid4_hex cfg drawn) (VERSION cfg)))
        md mdd
        (Some (mkTypedInterface (input_vars ins') (output_vars outs')))
        (Some (output_bindings_of outs')) (S drawn) Hc msg) as Hn.
      injection He as ->. rewrite Hw in Hn. by destruct Hn.
Qed.

Lemma construction_fails_iff_unassigned_upstream_witness :
  SdkWorkflow_init Sample.cfg SampleHeap.heap None None SampleHeap.dangling
    None None None None None 0
  = (Raise (FlyteAssertion missing_node_msg), 0)
  /\ construct_from_class_definition Sample.cfg SampleHeap.heap [] []
       SampleHeap.dangling None None 0
  = (Raise (FlyteAssertion missing_node_msg), 0).
Proof.
  apply (construction_fails_iff_unassigned_upstream Sample.cfg SampleHeap.heap
           None None [] [] SampleHeap.dangling None None None None None 0).
  - intros n u Hn Hu. apply list_elem_of_singleton in Hn as ->.
    apply list_elem_of_singleton in Hu as ->. eexists. reflexivity.
  - exists (Sample.task_node "b" [0]), 0, (Sample.unassigned_task_node []).
    repeat split; apply list_elem_of_singleton; reflexivity.
Defined.

(** ** sorted *)

Lemma leb_refl (s : string) : String.leb s s = true.
Proof. destruct (String.leb_total s s); done. Qed.

Lemma leb_trans (a b c : string) :
  String.leb a b = true -> String.leb b c = true -> String.leb a c = true.
Proof.
  intros H1 H2. apply Is_true_true.
  change (String.le a c). transitivity b; apply Is_true_true; done.
Qed.

Lemma leb_false_le (a b : string) :
  String.leb a b = false -> String.leb b a = true.
Proof. intros H. destruct (String.leb_total a b) as [H'|H']; congruence. Qed.

Section Sorted.
Context {A : Type} (key : A -> string).

Lemma insert_by_perm (x : A) (l : list A) : insert_by key x l ≡ₚ x :: l.
Proof.
  induction l as [|y l IH]; simpl; [done|].
  destruct (String.leb (key x) (key y)); [done|].
  rewrite IH. apply Permutation_swap.
Qed.

Lemma sorted_perm (l : list A) : sorted key l ≡ₚ l.
Proof.
  induction l as [|x l IH]; simpl; [done|].
  change (insert_by key x (sorted key l) ≡ₚ x :: l).
  by rewrite insert_by_perm, IH.
Qed.

Lemma insert_by_sorted (x : A) (l : list A) :
  StronglySorted (key_le key) l -> StronglySorted (key_le key) (insert_by key x l).
Proof.
  induction 1 as [|y l Hs IH Hy]; simpl.
  - repeat constructor.
  - destruct (String.leb (key x) (key y)) eqn:Hxy.
    + constructor; [by constructor|]. constructor; [done|].
      eapply Forall_impl; [exact Hy|]. intros z Hz. unfold key_le in *.
      by eapply leb_trans.
    + constructor; [done|]. rewrite insert_by_perm.
      constructor; [|done]. by apply leb_false_le.
Qed.

Lemma sorted_sorted (l : list A) : StronglySorted (key_le key) (sorted key l).
Proof.
  induction l as [|x l IH]; simpl; [constructor|].
  by apply insert_by_sorted.
Qed.

(** Two lists with the same elements, no two of them with the same key,
    sort to the same list. *)
Lemma sorted_unique (l1 l2 : list A) :
  l1 ≡ₚ l2 -> NoDup (map key l1) -> sorted key l1 = sorted key l2.
Proof.
  intros Hp Hnd.
  apply (StronglySorted_unique_strong (key_le key)); try apply sorted_sorted.
  - intros x1 x2 H1 H2 H12 H21.
    rewrite sorted_perm in H1. rewrite sorted_perm, <- Hp in H2.
    assert (Hk : key x1 = key x2) by (by apply String.leb_antisym).
    clear H12 H21 Hp. induction l1 as [|y l IH]; [by apply elem_of_nil in H1|].
    simpl in Hnd. apply NoDup_cons in Hnd as [Hy Hnd].
    apply elem_of_cons in H1 as [->|H1]; apply elem_of_cons in H2 as [->|H2].
    + done.
    + exfalso. apply Hy. rewrite Hk. by apply list_elem_of_fmap_2.
    + exfalso. apply Hy. rewrite <- Hk. by apply list_elem_of_fmap_2.
    + by apply IH.
  - by rewrite !sorted_perm.
Qed.
End Sorted.

(** ** __call__ *)

Lemma SdkWorkflow_call_ok
    (resolve : TypedInterface -> list (string * Arg) -> result (list Binding * list addr))
    (self : SdkWorkflow) (kw : list (string * Arg)) (r : list Binding * list addr) :
  resolve (interface self) kw = Ok r ->
  SdkWorkflow_call resolve self [] kw
    = Ok (SdkNode_for_workflow None (mkNodeMetadata "placeholder" 0 0)
            r.2 (sorted b_var r.1) self).
Proof. intros H. unfold SdkWorkflow_call. simpl. by rewrite H. Qed.

(** C9. Calling a workflow with keyword arguments that the resolver accepts
    gives a node whose bindings are the resolved ones sorted by variable
    name.  The same keyword arguments give the same node; and two calls whose
    resolved bindings differ only in their order (as when the keywords are
    given in another order), one binding per variable, give nodes with the
    same binding sequence. *)
Theorem call_bindings_sorted_and_canonical
    (resolve : TypedInterface -> list (string * Arg) -> result (list Binding * list addr))
    (self : SdkWorkflow) (kw1 kw2 : list (string * Arg))
    (r1 r2 : list Binding * list addr) :
  resolve (interface self) kw1 = Ok r1 ->
  resolve (interface self) kw2 = Ok r2 ->
  exists n1 n2,
    SdkWorkflow_call resolve self [] kw1 = Ok n1
    /\ SdkWorkflow_call resolve self [] kw2 = Ok n2
    /\ StronglySorted (key_le b_var) (bindings n1)
    /\ StronglySorted (key_le b_var) (bindings n2)
    /\ bindings n1 ≡ₚ r1.1
    /\ (kw1 = kw2 -> n1 = n2)
    /\ (r1.1 ≡ₚ r2.1 -> NoDup (map b_var r1.1) -> bindings n1 = bindings n2).
Proof.
  intros H1 H2. eexists _, _.
  split; [by apply SdkWorkflow_call_ok|].
  split; [by apply SdkWorkflow_call_ok|].
  simpl. repeat split.
  - apply sorted_sorted.
  - apply sorted_sorted.
  - apply sorted_perm.
  - intros ->. rewrite H1 in H2. by injection H2 as ->.
  - apply sorted_unique.
Qed.

Lemma call_bindings_sorted_and_canonical_witness :
  exists n1 n2,
    SdkWorkflow_call SampleCall.resolve Sample.W2 [] SampleCall.kw_ba = Ok n1
    /\ SdkWorkflow_call SampleCall.resolve Sample.W2 [] SampleCall.kw_ab = Ok n2
    /\ bindings n1 = [mkBinding "a" (Literal "1"); mkBinding "b" (Literal "2")]
    /\ bindings n1 = bindings n2.
Proof.
  destruct (call_bindings_sorted_and_canonical SampleCall.resolve Sample.W2
              SampleCall.kw_ba SampleCall.kw_ab _ _ eq_refl eq_refl)
    as (n1 & n2 & H1 & H2 & _ & _ & _ & _ & Hc).
  exists n1, n2. split; [exact H1|]. split; [exact H2|]. split.
  - unfold SdkWorkflow_call in H1. simpl in H1. injection H1 as <-. reflexivity.
  - apply Hc.
    + apply Permutation_swap.
    + simpl. apply NoDup_cons. split.
      * intros H. apply list_elem_of_singleton in H. discriminate H.
      * apply NoDup_singleton.
Defined.

(** ** Discovery: termination *)

Lemma wsum_split (f g : nat -> Obj -> nat) (h : list Obj) (a : nat) (o : Obj) :
  h !! a = Some o ->
  (forall i o', i <> a -> h !! i = Some o' -> f i o' = g i o') ->
  sum_list (imap f h) + g a o = sum_list (imap g h) + f a o.
Proof.
  revert f g a. induction h as [|x l IH]; intros f g a Ha Hext; [done|].
  rewrite !imap_cons. simpl. destruct a as [|a].
  - injection Ha as ->.
    rewrite (imap_ext (f ∘ S) (g ∘ S) l); [lia|].
    intros i o' Hi. simpl. by apply Hext.
  - rewrite (Hext 0 x) by done.
    specialize (IH (f ∘ S) (g ∘ S) a Ha). simpl in IH.
    rewrite <- Nat.add_assoc, IH; [lia|].
    intros i o' Hi Hl. apply Hext; [lia|done].
Qed.

Lemma pending_visit (h : Heap) (vis : gset addr) (a : addr) (o : Obj) :
  h !! a = Some o -> a ∉ vis ->
  pending h vis = children_count o + pending h ({[a]} ∪ vis).
Proof.
  intros Ha Hv. unfold pending.
  pose proof (wsum_split
    (fun a o => if decide (a ∈ vis) then 0 else children_count o)
    (fun b o => if decide (b ∈ {[a]} ∪ vis) then 0 else children_count o)
    h a o Ha) as H. simpl in H.
  rewrite decide_True in H by set_solver.
  rewrite (decide_False (P := a ∈ vis)) in H by done.
  rewrite Nat.add_0_r in H. rewrite H; [lia|].
  intros i o' Hi _. destruct (decide (i ∈ vis)).
  - rewrite decide_True; [done|]. apply elem_of_union. by right.
  - rewrite decide_False; [done|]. intros [Hs|Hs]%elem_of_union; [|done].
    by apply elem_of_singleton in Hs.
Qed.

Lemma pending_visit_outside (h : Heap) (vis : gset addr) (a : addr) :
  h !! a = None -> pending h ({[a]} ∪ vis) = pending h vis.
Proof.
  intros Ha. unfold pending. f_equal. apply imap_ext. intros i o Hi.
  assert (i <> a) by (intros ->; congruence).
  destruct (decide (i ∈ vis)).
  - rewrite decide_True; [done|]. apply elem_of_union. by right.
  - rewrite decide_False; [done|]. intros [Hs|Hs]%elem_of_union; [|done].
    by apply elem_of_singleton in Hs.
Qed.

Lemma wsum_insert (f : nat -> Obj -> nat) (h : list Obj) (a : nat) (o : Obj) :
  (forall o1 o2, f a o1 = f a o2) ->
  sum_list (imap f (<[a := o]> h)) = sum_list (imap f h).
Proof.
  revert f a. induction h as [|x l IH]; intros f a Hf; [done|].
  destruct a as [|a].
  - change (sum_list (imap f (o :: l)) = sum_list (imap f (x :: l))).
    rewrite !imap_cons. simpl. by rewrite (Hf o x).
  - change (sum_list (imap f (x :: <[a := o]> l)) = sum_list (imap f (x :: l))).
    rewrite !imap_cons. simpl. f_equal. apply IH. intros o1 o2. apply Hf.
Qed.

Lemma pending_insert (h : Heap) (vis : gset addr) (a : addr) (o : Obj) :
  a ∈ vis -> pending (<[a := o]> h) vis = pending h vis.
Proof.
  intros Hv. unfold pending. apply wsum_insert.
  intros o1 o2. by rewrite !decide_True by done.
Qed.

Lemma pending_empty (h : Heap) : pending h ∅ = sum_list (map children_count h).
Proof.
  unfold pending. f_equal.
  change (map children_count h) with (children_count <$> h).
  rewrite <- (imap_const children_count h).
  apply imap_ext. intros i o _. simpl. by rewrite decide_False by set_solver.
Qed.

Arguments visit : simpl never.

Section DiscoveryLoop.
Variable assign : SdkNode -> string -> result SdkNode.
Variable top : gset string.

Lemma length_seq_children (nm : string) (elems : list addr) :
  length (seq_children nm elems) = length elems.
Proof. unfold seq_children. by rewrite length_imap. Qed.

Lemma length_dict_children (nm : string) (items : list (string * addr * addr)) :
  length (dict_children nm items) = length items + length items.
Proof. unfold dict_children. by rewrite length_app, !length_map. Qed.

(** A visit does not increase the measure of the loop. *)
Lemma visit_measure (h : Heap) (rest : list (string * addr)) (vis : gset addr)
    (ins : list (addr * Input)) (outs : list (addr * Output))
    (ns : list (addr * SdkNode)) (log : list (string * addr))
    (nm : string) (a : addr) (st' : Discovery) :
  a ∉ vis ->
  visit assign top (mkDiscovery h rest ({[a]} ∪ vis) ins outs ns log) nm a = Ok st' ->
  length (to_visit_objs st') + pending (d_heap st') (visited_obj_ids st')
    <= length rest + pending h vis.
Proof.
  intros Hv. unfold visit.
  assert (Ha : a ∈ ({[a]} ∪ vis : gset addr)).
  { apply elem_of_union. left. by apply elem_of_singleton. }
  destruct (h !! a) as [o|] eqn:Ho.
  - rewrite (pending_visit h vis a o Ho Hv).
    destruct o as [n|i|o|elems|items|]; simpl.
    + destruct (assign n nm) as [n'|e]; simpl; [|done].
      intros [= <-]. simpl. rewrite pending_insert by done. lia.
    + case_bool_decide; [done|]. intros [= <-]. simpl.
      rewrite pending_insert by done. lia.
    + case_bool_decide; [done|]. intros [= <-]. simpl.
      rewrite pending_insert by done. lia.
    + intros [= <-]. simpl. rewrite length_app, length_seq_children. lia.
    + intros [= <-]. simpl. rewrite length_app, length_dict_children. lia.
    + intros [= <-]. simpl. lia.
  - intros [= <-]. simpl. rewrite pending_visit_outside by done. lia.
Qed.

(** The loop ends with enough fuel. *)
Lemma discover_loop_terminates (fuel : nat) (st : Discovery) :
  length (to_visit_objs st) + pending (d_heap st) (visited_obj_ids st) <= fuel ->
  exists r, discover_loop assign fuel top st = Some r.
Proof.
  revert st. induction fuel as [|fuel IH]; intros st Hm.
  - destruct st as [h [|[nm a] rest] vis ins outs ns log]; simpl in *.
    + eauto.
    + lia.
  - destruct st as [h [|[nm a] rest] vis ins outs ns log]; simpl in *.
    + eauto.
    + case_bool_decide as Hv.
      * apply IH. simpl. lia.
      * destruct (visit _ _ _ _ _) as [st'|e] eqn:Hvisit; [|eauto].
        apply IH. apply visit_measure in Hvisit; [lia|done].
Qed.

(** An invariant kept by both kinds of iteration holds when the loop ends. *)
Lemma discover_loop_invariant (P : Discovery -> Prop) :
  (forall h nm a rest vis ins outs ns log,
      P (mkDiscovery h ((nm, a) :: rest) vis ins outs ns log) -> a ∈ vis ->
      P (mkDiscovery h rest vis ins outs ns (log ++ [(nm, a)]))) ->
  (forall h nm a rest vis ins outs ns log st',
      P (mkDiscovery h ((nm, a) :: rest) vis ins outs ns log) -> a ∉ vis ->
      visit assign top
        (mkDiscovery h rest ({[a]} ∪ vis) ins outs ns (log ++ [(nm, a)])) nm a
        = Ok st' ->
      P st') ->
  forall fuel st st',
    P st -> discover_loop assign fuel top st = Some (Ok st') ->
    P st' /\ to_visit_objs st' = [].
Proof.
  intros Hskip Hvisit fuel. induction fuel as [|fuel IH]; intros st st' HP Hl.
  - destruct st as [h [|[nm a] rest] vis ins outs ns log]; simpl in Hl; [|done].
    by injection Hl as <-.
  - destruct st as [h [|[nm a] rest] vis ins outs ns log]; simpl in Hl.
    + by injection Hl as <-.
    + case_bool_decide as Hv.
      * eapply IH; [|exact Hl]. by apply Hskip.
      * destruct (visit _ _ _ _ _) as [st1|e] eqn:Hvis; [|done].
        eapply IH; [|exact Hl]. by eapply Hvisit.
Qed.
End DiscoveryLoop.

(** ** Discovery: the invariant *)

Lemma first_visit_app (log l : list (string * addr)) (a : addr) :
  first_visit (log ++ l) a
  = match first_visit log a with Some nm => Some nm | None => first_visit l a end.
Proof.
  induction log as [|[nm b] log IH]; simpl; [done|].
  by destruct (decide (b = a)).
Qed.

Lemma first_visit_app_Some (log l : list (string * addr)) (a : addr) (nm : string) :
  first_visit log a = Some nm -> first_visit (log ++ l) a = Some nm.
Proof. intros H. by rewrite first_visit_app, H. Qed.

Lemma first_visit_fresh (log : list (string * addr)) (a : addr) :
  (forall nm, (nm, a) ∉ log) -> first_visit log a = None.
Proof.
  induction log as [|[nm b] log IH]; intros H; simpl; [done|].
  destruct (decide (b = a)) as [->|Hb].
  - destruct (H nm). by left.
  - apply IH. intros nm' Hin. apply (H nm'). by right.
Qed.

Section DiscoveryInvariant.
Variable assign : SdkNode -> string -> result SdkNode.
Variable top : gset string.
Variable h0 : Heap.

Lemma input_collected_as_app log l a i :
  input_collected_as top h0 log a i -> input_collected_as top h0 (log ++ l) a i.
Proof.
  intros (nm & i0 & Hf & Ht & Hh & Hi). exists nm, i0.
  by rewrite (first_visit_app_Some _ _ _ _ Hf).
Qed.

Lemma output_collected_as_app log l a o :
  output_collected_as top h0 log a o -> output_collected_as top h0 (log ++ l) a o.
Proof.
  intros (nm & o0 & Hf & Ht & Hh & Ho). exists nm, o0.
  by rewrite (first_visit_app_Some _ _ _ _ Hf).
Qed.

Lemma node_collected_as_app log l a n :
  node_collected_as assign h0 log a n -> node_collected_as assign h0 (log ++ l) a n.
Proof.
  intros (nm & n0 & Hf & Hh & Hn). exists nm, n0.
  by rewrite (first_visit_app_Some _ _ _ _ Hf).
Qed.

(** Logging a pair whose address is (now) visited keeps the invariant,
    whatever becomes of the queue. *)
Lemma inv_log h q q' vis vis' ins outs ns log nm a :
  discovery_inv assign top h0 (mkDiscovery h q vis ins outs ns log) ->
  vis ⊆ vis' -> a ∈ vis' ->
  discovery_inv assign top h0
    (mkDiscovery h q' vis' ins outs ns (log ++ [(nm, a)])).
Proof.
  intros (I1 & I2 & I3 & I4 & I5 & I6 & I7) Hsub Ha.
  unfold discovery_inv, collected_addrs in *; simpl in *.
  repeat split.
  - intros nm' a' [Hin|Hin]%elem_of_app.
    + apply Hsub. by eapply I1.
    + apply list_elem_of_singleton in Hin. by injection Hin as -> ->.
  - intros a' Ha'. apply I2. intros Hin. apply Ha'. by apply Hsub.
  - done.
  - intros a' Ha'. apply Hsub. by apply I4.
  - intros a' i Hin. apply input_collected_as_app. by apply I5.
  - intros a' o Hin. apply output_collected_as_app. by apply I6.
  - intros a' n Hin. apply node_collected_as_app. by apply I7.
Qed.

(** Facts about an address that is taken from the queue for the first time. *)
Lemma inv_first h q vis ins outs ns log nm a :
  discovery_inv assign top h0 (mkDiscovery h q vis ins outs ns log) ->
  a ∉ vis ->
  first_visit (log ++ [(nm, a)]) a = Some nm
  /\ h !! a = h0 !! a
  /\ a ∉ map fst ins ++ map fst outs ++ map fst ns.
Proof.
  intros (I1 & I2 & I3 & I4 & I5 & I6 & I7) Ha.
  unfold collected_addrs in *; simpl in *. repeat split.
  - rewrite first_visit_app, first_visit_fresh.
    + simpl. by rewrite decide_True.
    + intros nm' Hin. apply Ha. by eapply I1.
  - by apply I2.
  - intros Hin. apply Ha. by apply I4.
Qed.
End DiscoveryInvariant.

Lemma perm_collect_first {A : Type} (a : A) (l1 l2 l3 : list A) :
  (l1 ++ [a]) ++ l2 ++ l3 ≡ₚ a :: l1 ++ l2 ++ l3.
Proof. rewrite <- app_assoc. simpl. symmetry. apply Permutation_middle. Qed.

Lemma perm_collect_second {A : Type} (a : A) (l1 l2 l3 : list A) :
  l1 ++ (l2 ++ [a]) ++ l3 ≡ₚ a :: l1 ++ l2 ++ l3.
Proof.
  rewrite <- app_assoc. simpl. rewrite !app_assoc.
  symmetry. apply Permutation_middle.
Qed.

Lemma perm_collect_third {A : Type} (a : A) (l1 l2 l3 : list A) :
  l1 ++ l2 ++ l3 ++ [a] ≡ₚ a :: l1 ++ l2 ++ l3.
Proof. rewrite !app_assoc. symmetry. apply Permutation_cons_append. Qed.

Section DiscoveryCollect.
Variable assign : SdkNode -> string -> result SdkNode.
Variable top : gset string.
Variable h0 : Heap.

(** The parts of the invariant that do not depend on which list grows. *)
Lemma inv_collect_common h q vis ins outs ns log a o ins' outs' ns' :
  discovery_inv assign top h0 (mkDiscovery h q vis ins outs ns log) ->
  a ∈ vis ->
  a ∉ map fst ins ++ map fst outs ++ map fst ns ->
  map fst ins' ++ map fst outs' ++ map fst ns'
    ≡ₚ a :: map fst ins ++ map fst outs ++ map fst ns ->
  (forall b i, (b, i) ∈ ins' -> input_collected_as top h0 log b i) ->
  (forall b x, (b, x) ∈ outs' -> output_collected_as top h0 log b x) ->
  (forall b n, (b, n) ∈ ns' -> node_collected_as assign h0 log b n) ->
  discovery_inv assign top h0
    (mkDiscovery (<[a := o]> h) q vis ins' outs' ns' log).
Proof.
  intros (I1 & I2 & I3 & I4 & I5 & I6 & I7) Ha Hfresh Hperm H5 H6 H7.
  unfold discovery_inv, collected_addrs in *; simpl in *.
  repeat split; try done.
  - intros a' Ha'. rewrite list_lookup_insert_ne; [by apply I2|].
    intros ->. by apply Ha'.
  - rewrite Hperm. by apply NoDup_cons.
  - intros a' Hin. rewrite Hperm in Hin.
    apply elem_of_cons in Hin as [->|Hin]; [done|]. by apply I4.
Qed.

Lemma inv_visit h nm a rest vis ins outs ns log st' :
  discovery_inv assign top h0 (mkDiscovery h ((nm, a) :: rest) vis ins outs ns log) ->
  a ∉ vis ->
  visit assign top
    (mkDiscovery h rest ({[a]} ∪ vis) ins outs ns (log ++ [(nm, a)])) nm a = Ok st' ->
  discovery_inv assign top h0 st'.
Proof.
  intros Hinv Ha.
  destruct (inv_first assign top h0 _ _ _ _ _ _ _ nm a Hinv Ha)
    as (Hfirst & Hh & Hfresh).
  assert (Hin : a ∈ ({[a]} ∪ vis : gset addr)).
  { apply elem_of_union. left. by apply elem_of_singleton. }
  assert (Hsub : vis ⊆ ({[a]} ∪ vis : gset addr)).
  { intros x Hx. apply elem_of_union. by right. }
  pose proof (inv_log assign top h0 _ _ rest _ _ _ _ _ _ nm a Hinv Hsub Hin) as Hinv2.
  assert (K5 := proj1 (proj2 (proj2 (proj2 (proj2 Hinv2))))).
  assert (K6 := proj1 (proj2 (proj2 (proj2 (proj2 (proj2 Hinv2)))))).
  assert (K7 := proj2 (proj2 (proj2 (proj2 (proj2 (proj2 Hinv2)))))).
  simpl in K5, K6, K7.
  unfold visit. destruct (h !! a) as [[n|i|o|elems|items|]|] eqn:Ho.
  - destruct (assign n nm) as [n'|e] eqn:Hn; simpl; [|done]. intros [= <-].
    eapply inv_collect_common; try done.
    + rewrite map_app. simpl. apply perm_collect_third.
    + intros b m [Hb|Hb]%elem_of_app; [by apply K7|].
      apply list_elem_of_singleton in Hb. injection Hb as -> ->.
      exists nm, n. by rewrite <- Hh.
  - case_bool_decide as Ht; [done|]. intros [= <-].
    eapply inv_collect_common; try done.
    + rewrite map_app. simpl. apply perm_collect_first.
    + intros b m [Hb|Hb]%elem_of_app; [by apply K5|].
      apply list_elem_of_singleton in Hb. injection Hb as -> ->.
      exists nm, i. rewrite <- Hh.
      repeat split; first [done | by apply dec_stable].
  - case_bool_decide as Ht; [done|]. intros [= <-].
    eapply inv_collect_common; try done.
    + rewrite map_app. simpl. apply perm_collect_second.
    + intros b m [Hb|Hb]%elem_of_app; [by apply K6|].
      apply list_elem_of_singleton in Hb. injection Hb as -> ->.
      exists nm, o. rewrite <- Hh.
      repeat split; first [done | by apply dec_stable].
  - intros [= <-]. exact Hinv2.
  - intros [= <-]. exact Hinv2.
  - intros [= <-]. exact Hinv2.
  - intros [= <-]. exact Hinv2.
Qed.

Lemma inv_initial (h : Heap) (q : list (string * addr)) :
  h = h0 -> discovery_inv assign top h0 (mkDiscovery h q ∅ [] [] [] []).
Proof.
  intros ->. unfold discovery_inv, collected_addrs; simpl.
  repeat split; try done.
  - intros nm a Hin. by apply elem_of_nil in Hin.
  - apply NoDup_nil_2.
  - intros a Hin. by apply elem_of_nil in Hin.
  - intros a i Hin. by apply elem_of_nil in Hin.
  - intros a i Hin. by apply elem_of_nil in Hin.
  - intros a i Hin. by apply elem_of_nil in Hin.
Qed.

(** The invariant holds for the state in which the loop ends. *)
Lemma discover_loop_inv (fuel : nat) (st st' : Discovery) :
  discovery_inv assign top h0 st ->
  discover_loop assign fuel top st = Some (Ok st') ->
  discovery_inv assign top h0 st'.
Proof.
  intros Hinv Hl.
  apply (discover_loop_invariant assign top (discovery_inv assign top h0))
    with (fuel := fuel) (st := st); try done.
  - intros h nm a rest vis ins outs ns log HP Ha.
    by apply (inv_log assign top h0 h ((nm, a) :: rest) rest vis vis).
  - intros h nm a rest vis ins outs ns log st1 HP Ha Hv.
    by eapply inv_visit.
Qed.
End DiscoveryCollect.

(** ** Discovery: each object once, under the name of its first visit *)

Lemma discover_state_terminates (assign : SdkNode -> string -> result SdkNode)
    (h : Heap) (workflow_class : list (string * addr)) :
  exists r, discover_state assign h workflow_class = Some r.
Proof.
  unfold discover_state. apply discover_loop_terminates. simpl.
  rewrite pending_empty. unfold discovery_fuel. lia.
Qed.

(** A pair whose object has been visited is dropped from the queue, and
    nothing else changes but the log. *)
Lemma discover_loop_skip (assign : SdkNode -> string -> result SdkNode)
    (fuel : nat) (top : gset string) (h : Heap) (q : list (string * addr))
    (vis : gset addr) ins outs ns log (nm : string) (a : addr) :
  a ∈ vis ->
  discover_loop assign (S fuel) top (mkDiscovery h ((nm, a) :: q) vis ins outs ns log)
  = discover_loop assign fuel top (mkDiscovery h q vis ins outs ns (log ++ [(nm, a)])).
Proof. intros Ha. simpl. by rewrite bool_decide_eq_true_2. Qed.

(** ** Discovery: placement of inputs and outputs *)

Lemma has_open_bracket_app (s t : string) :
  has_open_bracket (s +:+ t) = has_open_bracket s || has_open_bracket t.
Proof.
  induction s as [|c s IH]; simpl; [done|].
  rewrite IH. by rewrite orb_assoc.
Qed.

Lemma indexed_name_has_bracket (attribute_name index : string) :
  has_open_bracket (_assign_indexed_attribute_name attribute_name index) = true.
Proof.
  unfold _assign_indexed_attribute_name.
  rewrite has_open_bracket_app. simpl. apply orb_true_r.
Qed.

(** When no top-level attribute name contains a bracket, no synthesized
    path of a nested position is a top-level attribute name. *)
Lemma indexed_name_not_top_level (top : gset string) (attribute_name index : string) :
  (forall t, t ∈ top -> has_open_bracket t = false) ->
  _assign_indexed_attribute_name attribute_name index ∉ top.
Proof.
  intros Htop Hin. apply Htop in Hin.
  by rewrite indexed_name_has_bracket in Hin.
Qed.

(** The pairs a container puts on the queue carry synthesized paths. *)
Lemma children_names_indexed (attribute_name : string) (elems : list addr)
    (items : list (string * addr * addr)) (nm : string) (a : addr) :
  (nm, a) ∈ seq_children attribute_name elems
    ++ dict_children attribute_name items ->
  exists index, nm = _assign_indexed_attribute_name attribute_name index.
Proof.
  unfold seq_children, dict_children.
  intros [Hin|[Hin|Hin]%elem_of_app]%elem_of_app.
  - apply elem_of_lookup_imap in Hin as (i & v & Heq & _).
    injection Heq as -> _. eauto.
  - apply list_elem_of_fmap in Hin as (it & Heq & _). injection Heq as -> _. eauto.
  - apply list_elem_of_fmap in Hin as (it & Heq & _). injection Heq as -> _. eauto.
Qed.

(** ** build_sdk_workflow_from_metaclass *)

Lemma construct_from_class_definition_ok (cfg : Config) (h : Heap)
    (inputs : list Input) (outs : list Output) (ns : list SdkNode)
    (md : option WorkflowMetadata) (mdd : option WorkflowMetadataDefaults)
    (drawn drawn' : nat) (p : PythonWorkflow) :
  construct_from_class_definition cfg h inputs outs ns md mdd drawn = (Ok p, drawn') ->
  pw_user_inputs p = inputs
  /\ PythonWorkflow_nodes p = ns
  /\ PythonWorkflow_outputs p = output_bindings_of outs
  /\ PythonWorkflow_interface p = mkTypedInterface (input_vars inputs) (output_vars outs)
  /\ drawn' = S drawn.
Proof.
  unfold construct_from_class_definition, SdkWorkflow_init.
  destruct (check_nodes h ns) as [[]|e]; [|done]. simpl.
  by intros [= <- <-].
Qed.

Lemma output_bindings_sorted (outs : list Output) :
  StronglySorted (key_le out_name) outs ->
  StronglySorted (key_le b_var) (output_bindings_of outs).
Proof.
  induction 1 as [|o l Hs IH Ho]; simpl; constructor; [done|].
  apply Forall_fmap. eapply Forall_impl; [exact Ho|]. by intros x Hx.
Qed.

Lemma sorted_le_1 {A : Type} (R : A -> A -> Prop) (l : list A) :
  length l < 2 -> StronglySorted R l.
Proof.
  destruct l as [|x [|y l]]; simpl; intros H; try lia; repeat constructor.
Qed.

Lemma sorted_key_opt {A : Type} (key : A -> option string) (l : list A) :
  Forall (fun x => is_Some (key x)) l ->
  StronglySorted (key_le (fun x => default "" (key x))) l ->
  StronglySorted (opt_key_le key) l.
Proof.
  intros Hall Hs. induction Hs as [|x l Hs IH Hx]; constructor.
  - apply IH. by apply Forall_cons in Hall as [_ ?].
  - apply Forall_cons in Hall as [[kx Hkx] Hall].
    apply Forall_forall. intros y Hy.
    pose proof (proj1 (Forall_forall _ _) Hall y Hy) as [ky Hky].
    pose proof (proj1 (Forall_forall _ _) Hx y Hy) as Hle.
    unfold key_le in Hle. rewrite Hkx, Hky in Hle. simpl in Hle.
    by exists kx, ky.
Qed.

Lemma existsb_is_None_false {A : Type} (key : A -> option string) (l : list A) :
  existsb (fun x => is_None (key x)) l = false ->
  Forall (fun x => is_Some (key x)) l.
Proof.
  induction l as [|x l IH]; simpl; [constructor|].
  intros [Hx Hl]%orb_false_elim. constructor; [|by apply IH].
  destruct (key x); [eauto|done].
Qed.

(** What [sorted] with optional keys returns when it does not raise. *)
Lemma sorted_opt_ok {A : Type} (key : A -> option string) (l l' : list A) :
  sorted_opt key l = Ok l' ->
  l' = sorted (fun x => default "" (key x)) l
  /\ l' ≡ₚ l
  /\ StronglySorted (opt_key_le key) l'
  /\ (2 <= length l -> Forall (fun x => is_Some (key x)) l).
Proof.
  unfold sorted_opt. case_bool_decide as Hlen; simpl.
  - destruct (existsb _ l) eqn:Hex; [done|]. intros [= <-].
    pose proof (existsb_is_None_false key l Hex) as Hall.
    repeat split; try done.
    + apply sorted_perm.
    + apply sorted_key_opt; [|apply sorted_sorted].
      by rewrite sorted_perm.
  - intros [= <-]. repeat split.
    + apply sorted_perm.
    + apply sorted_le_1. rewrite sorted_perm. lia.
    + lia.
Qed.

Lemma sorted_opt_perm {A : Type} (key : A -> option string) (l1 l2 l' : list A) :
  sorted_opt key l1 = Ok l' -> l2 ≡ₚ l1 -> NoDup (map key l1) ->
  sorted_opt key l2 = Ok l'.
Proof.
  intros H1 Hp Hnd.
  destruct (sorted_opt_ok key l1 l' H1) as (-> & _ & _ & Hall).
  revert H1. unfold sorted_opt. rewrite (Permutation_length Hp).
  assert (He : existsb (fun x => is_None (key x)) l2
               = existsb (fun x => is_None (key x)) l1).
  { apply eq_true_iff_eq. rewrite !existsb_exists.
    split; intros (x & Hx & Hk); exists x; split; try done;
      apply list_elem_of_In; apply list_elem_of_In in Hx;
      [by rewrite <- Hp|by rewrite Hp]. }
  rewrite He. destruct (_ && _) eqn:Hc; [done|]. intros _. f_equal.
  apply sorted_unique; [done|].
  destruct (decide (2 <= length l1)) as [Hlen|Hlen].
  - specialize (Hall Hlen). rewrite <- Hp in Hall, Hnd. clear -Hall Hnd.
    induction l2 as [|x l IH]; simpl; [constructor|].
    simpl in Hnd. apply NoDup_cons in Hnd as [Hx Hnd].
    apply Forall_cons in Hall as [[kx Hkx] Hall].
    apply NoDup_cons. split; [|by apply IH].
    intros Hin. apply Hx. rewrite Hkx in Hin |- *. simpl in Hin.
    apply list_elem_of_fmap in Hin as (y & Hy & Hin).
    pose proof (proj1 (Forall_forall _ _) Hall y Hin) as [ky Hky].
    rewrite Hky in Hy. simpl in Hy. subst ky. rewrite <- Hky.
    by apply list_elem_of_fmap_2.
  - rewrite <- Hp in Hlen. destruct l2 as [|x [|y l]]; simpl in *; try lia.
    + constructor.
    + apply NoDup_singleton.
Qed.

(** C10. Building a workflow from a class always ends, and a workflow it
    returns holds the discovered inputs sorted by name, the bindings of the
    discovered outputs sorted by name, and the discovered nodes sorted by
    id; had discovery met the same objects (no two of them with the same
    key) in another order, the three lists would be the same. *)
Theorem build_sorts_inputs_outputs_nodes
    (assign : SdkNode -> string -> result SdkNode) (cfg : Config) (h : Heap)
    (metaclass : list (string * addr)) (on_failure : option OnFailurePolicy)
    (drawn : nat) :
  (exists r, build_sdk_workflow_from_metaclass assign cfg h metaclass on_failure drawn
             = Some r)
  /\ forall p drawn',
       build_sdk_workflow_from_metaclass assign cfg h metaclass on_failure drawn
         = Some (Ok p, drawn') ->
       exists st,
         discover_state assign h metaclass = Some (Ok st)
         /\ StronglySorted (key_le in_name) (pw_user_inputs p)
         /\ StronglySorted (key_le b_var) (PythonWorkflow_outputs p)
         /\ StronglySorted (opt_key_le n_id) (PythonWorkflow_nodes p)
         /\ pw_user_inputs p ≡ₚ map snd (d_inputs st)
         /\ PythonWorkflow_outputs p ≡ₚ output_bindings_of (map snd (d_outputs st))
         /\ PythonWorkflow_nodes p ≡ₚ map snd (d_nodes st)
         /\ (forall ins', map snd (d_inputs st) ≡ₚ ins' ->
               NoDup (map in_name (map snd (d_inputs st))) ->
               sorted in_name ins' = pw_user_inputs p)
         /\ (forall outs', map snd (d_outputs st) ≡ₚ outs' ->
               NoDup (map out_name (map snd (d_outputs st))) ->
               output_bindings_of (sorted out_name outs') = PythonWorkflow_outputs p)
         /\ (forall ns', ns' ≡ₚ map snd (d_nodes st) ->
               NoDup (map n_id (map snd (d_nodes st))) ->
               sorted_opt n_id ns' = Ok (PythonWorkflow_nodes p)).
Proof.
  unfold build_sdk_workflow_from_metaclass.
  destruct (discover_state_terminates assign h metaclass) as [r Hr].
  rewrite Hr. simpl. split; [eauto|].
  intros p drawn' Hb. injection Hb as Hb.
  destruct r as [st|e]; [|done]. exists st. split; [done|].
  destruct (sorted_opt n_id (map snd (d_nodes st))) as [ns|e] eqn:Hns; [|done].
  apply construct_from_class_definition_ok in Hb as (Hi & Hn & Ho & _ & _).
  destruct (sorted_opt_ok _ _ _ Hns) as (_ & Hperm & Hsorted & _).
  rewrite Hi, Hn, Ho. repeat split.
  - apply sorted_sorted.
  - apply output_bindings_sorted, sorted_sorted.
  - done.
  - apply sorted_perm.
  - unfold output_bindings_of. apply fmap_Permutation, sorted_perm.
  - done.
  - intros ins' Hp Hnd. symmetry. by apply sorted_unique.
  - intros outs' Hp Hnd. f_equal. symmetry. by apply sorted_unique.
  - intros ns' Hp Hnd. by apply (sorted_opt_perm _ _ _ _ Hns).
Qed.

Lemma build_sorts_inputs_outputs_nodes_witness :
  exists p,
    build_sdk_workflow_from_metaclass assign_id_once Sample.cfg SampleBuild.heap
      SampleBuild.surface None 0 = Some (Ok p, 1)
    /\ map n_id (PythonWorkflow_nodes p) = [Some "a_list[0]"; Some "b"]
    /\ map in_name (pw_user_inputs p) = ["y"; "z"]
    /\ map b_var (PythonWorkflow_outputs p) = ["out"]
    /\ StronglySorted (opt_key_le n_id) (PythonWorkflow_nodes p).
Proof.
  eexists. split; [vm_compute; reflexivity|].
  split; [reflexivity|]. split; [reflexivity|]. split; [reflexivity|].
  destruct (proj2 (build_sorts_inputs_outputs_nodes assign_id_once Sample.cfg
              SampleBuild.heap SampleBuild.surface None 0) _ 1
              ltac:(vm_compute; reflexivity))
    as (st & _ & _ & _ & Hs & _).
  exact Hs.
Defined.

(** ** Launch plans *)

Lemma declared_defaults_fixed (inputs : list Input) (fixed : gmap string Value)
    (a : string) :
  is_Some (fixed !! a) -> declared_defaults inputs fixed !! a = None.
Proof.
  intros Hfix. unfold declared_defaults.
  assert (Hgen : forall l (m : gmap string Input),
             m !! a = None -> Forall (fun v => in_name v <> a) l ->
             foldl (fun m v => <[in_name v := v]> m) m l !! a = None).
  { induction l as [|v l IH]; intros m Hm Hall; simpl; [done|].
    apply Forall_cons in Hall as [Hv Hall].
    apply IH; [|done]. by rewrite lookup_insert_ne. }
  apply Hgen; [apply lookup_empty|].
  apply Forall_forall. intros v Hv. apply list_elem_of_filter in Hv as [Hv _].
  intros Heq. rewrite Heq in Hv. rewrite Hv in Hfix. by destruct Hfix.
Qed.



(** ** Promotion of a serialized workflow *)

Lemma dict_set_elem {V : Type} (k k' : string) (v v' : V) (d : list (string * V)) :
  (k', v') ∈ dict_set k v d -> (k' = k /\ v' = v) \/ (k', v') ∈ d.
Proof.
  induction d as [|[k0 v0] d IH]; simpl.
  - intros H. apply list_elem_of_singleton in H. injection H as -> ->. by left.
  - destruct (String.eqb k k0) eqn:Hk.
    + intros [H|H]%elem_of_cons.
      * injection H as -> ->. by left.
      * right. by right.
    + intros [H|H]%elem_of_cons.
      * right. rewrite H. by left.
      * destruct (IH H) as [?|?]; [by left|]. right. by right.
Qed.

Lemma dict_set_keys {V : Type} (k k' : string) (v : V) (d : list (string * V)) :
  k' ∈ dict_keys (dict_set k v d) <-> k' = k \/ k' ∈ dict_keys d.
Proof.
  unfold dict_keys. induction d as [|[k0 v0] d IH]; simpl.
  - rewrite list_elem_of_singleton. split; [by left|].
    intros [?|H]; [done|]. by apply elem_of_nil in H.
  - destruct (String.eqb k k0) eqn:Hk; simpl.
    + apply String.eqb_eq in Hk as ->. rewrite !elem_of_cons. tauto.
    + rewrite !elem_of_cons, IH. tauto.
Qed.

Lemma dict_get_ok {V : Type} (k : string) (d : list (string * V)) :
  k ∈ dict_keys d -> exists v, dict_get k d = Ok v /\ (k, v) ∈ d.
Proof.
  unfold dict_keys. induction d as [|[k0 v0] d IH]; simpl.
  - intros H. by apply elem_of_nil in H.
  - intros H. destruct (String.eqb k k0) eqn:Hk.
    + apply String.eqb_eq in Hk as ->. exists v0. split; [done|]. by left.
    + apply elem_of_cons in H as [->|H].
      * by rewrite String.eqb_refl in Hk.
      * destruct (IH H) as (v & Hg & Hin). exists v. split; [done|]. by right.
Qed.

Lemma dict_elem_key {V : Type} (k : string) (v : V) (d : list (string * V)) :
  (k, v) ∈ d -> k ∈ dict_keys d.
Proof. intros H. unfold dict_keys. by apply (list_elem_of_fmap_2 fst) in H. Qed.

Lemma dict_key_elem {V : Type} (k : string) (d : list (string * V)) :
  k ∈ dict_keys d -> exists v, (k, v) ∈ d.
Proof.
  unfold dict_keys. intros ([k' v] & Hk & Hin)%list_elem_of_fmap.
  simpl in Hk. subst. eauto.
Qed.

Lemma check_nodes_no_upstream (h : Heap) (ns : list SdkNode) :
  Forall (fun n => upstream_nodes n = []) ns -> check_nodes h ns = Ok tt.
Proof.
  induction 1 as [|n l Hn _ IH]; simpl; [done|]. by rewrite Hn.
Qed.

Lemma SdkWorkflow_init_ok (cfg : Config) (h : Heap)
    (inputs : option (list Input)) (outs : option (list Output))
    (ns : list SdkNode) (id : option Identifier)
    (md : option WorkflowMetadata) (mdd : option WorkflowMetadataDefaults)
    (iface : option TypedInterface) (ob : option (list Binding))
    (drawn drawn' : nat) (w : SdkWorkflow) :
  SdkWorkflow_init cfg h inputs outs ns id md mdd iface ob drawn = (Ok w, drawn') ->
  nodes w = ns
  /\ (forall i, iface = Some i -> interface w = i)
  /\ (forall b, ob = Some b -> outputs w = b).
Proof.
  unfold SdkWorkflow_init. destruct (check_nodes h ns); [|done].
  destruct id, iface, ob, inputs, outs; simpl; intros [= <- <-]; simpl;
    repeat split; by intros ? [= <-].
Qed.

Section PromotionProps.
Variables START END : string.
Variable promote_node :
  NodeModel -> list (Identifier * WorkflowTemplate)
  -> list (Identifier * TaskTemplate) -> result SdkNode.
Variable idp : Identifier -> Identifier.
Variable tip : TypedInterface -> TypedInterface.
Variable subs : list (Identifier * WorkflowTemplate).
Variable tasks : list (Identifier * TaskTemplate).

Lemma build_node_map_ok (ns : list NodeModel) (h : Heap)
    (node_map : list (string * addr)) :
  (forall m, m ∈ ns -> exists n', promote_node m subs tasks = Ok n'
      /\ n_id n' = Some (mn_id m) /\ upstream_nodes n' = []) ->
  node_map_ok h node_map ->
  exists h1 node_map1,
    build_node_map promote_node subs tasks h node_map ns = Ok (h1, node_map1)
    /\ node_map_ok h1 node_map1
    /\ forall k, k ∈ dict_keys node_map1
                 <-> k ∈ dict_keys node_map \/ k ∈ map mn_id ns.
Proof.
  revert h node_map. induction ns as [|m ns IH]; intros h node_map Hp Hok.
  - exists h, node_map. simpl. repeat split; try done.
    + by left.
    + intros [?|H]; [done|]. by apply elem_of_nil in H.
  - destruct (Hp m) as (n' & Hn' & Hid & Hup); [by left|].
    simpl. rewrite Hn'. simpl.
    destruct (IH (h ++ [ONode n']) (dict_set (mn_id m) (length h) node_map))
      as (h1 & nm1 & Hb & Hok1 & Hkeys).
    + intros m' Hm'. apply Hp. by right.
    + intros k a [[-> ->]|Hin]%dict_set_elem.
      * exists n'. split; [|done]. by rewrite lookup_app_r, Nat.sub_diag.
      * destruct (Hok k a Hin) as (n & Hl & Hn). exists n. split; [|done].
        by apply lookup_app_l_Some.
    + exists h1, nm1. split; [done|]. split; [done|].
      intros k. rewrite Hkeys, dict_set_keys, elem_of_cons. tauto.
Qed.

Lemma wire_nodes_ok (ns : list NodeModel) (h : Heap) (node_map : list (string * addr)) :
  node_map_ok h node_map ->
  (forall m, m ∈ ns -> mn_id m ∈ dict_keys node_map) ->
  wire_nodes h node_map ns = Ok h.
Proof.
  intros Hok. induction ns as [|m ns IH]; intros Hk; simpl; [done|].
  destruct (dict_get_ok (mn_id m) node_map) as (a & Hg & Hin); [apply Hk; by left|].
  rewrite Hg. simpl. destruct (Hok _ _ Hin) as (n & Hl & _ & Hup).
  unfold node_at. rewrite Hl. unfold upstream_node_ids. rewrite Hup. simpl.
  apply IH. intros m' Hm'. apply Hk. by right.
Qed.

Lemma promoted_nodes_no_upstream (h : Heap) (node_map : list (string * addr)) :
  node_map_ok h node_map ->
  Forall (fun n => upstream_nodes n = []) (nodes_at h (dict_values node_map)).
Proof.
  intros Hok. apply Forall_forall. intros n Hn.
  apply list_elem_of_omap in Hn as (a & Ha & Hat).
  apply list_elem_of_fmap in Ha as ([k a'] & -> & Hin). simpl in Hat.
  destruct (Hok _ _ Hin) as (n' & Hl & _ & Hup).
  unfold node_at in Hat. rewrite Hl in Hat. by injection Hat as <-.
Qed.

Lemma promoted_node_ids (h : Heap) (node_map : list (string * addr)) :
  node_map_ok h node_map ->
  node_id_set (nodes_at h (dict_values node_map)) = list_to_set (dict_keys node_map).
Proof.
  intros Hok. apply set_eq. intros k. unfold node_id_set.
  rewrite !elem_of_list_to_set. split.
  - intros (n & Hn & Hid)%list_elem_of_omap.
    apply list_elem_of_omap in Hn as (a & Ha & Hat).
    apply list_elem_of_fmap in Ha as ([k' a'] & -> & Hin). simpl in Hat.
    destruct (Hok _ _ Hin) as (n' & Hl & Hid' & _).
    unfold node_at in Hat. rewrite Hl in Hat. injection Hat as <-.
    rewrite Hid' in Hid. injection Hid as <-. by eapply dict_elem_key.
  - intros [a Hin]%dict_key_elem.
    destruct (Hok _ _ Hin) as (n & Hl & Hid & _).
    apply list_elem_of_omap. exists n. split; [|done].
    apply list_elem_of_omap. exists a. split.
    + by apply (list_elem_of_fmap_2 snd) in Hin.
    + unfold node_at. by rewrite Hl.
Qed.

(** What [promote_from_model] returns for a template whose nodes the
    node-level promotion can rebuild. *)
Lemma promote_from_model_ok (cfg : Config) (h : Heap) (t : WorkflowTemplate)
    (drawn : nat) :
  (forall m, m ∈ t_nodes t -> exists n', promote_node m subs tasks = Ok n'
      /\ n_id n' = Some (mn_id m) /\ upstream_nodes n' = []) ->
  exists w' h',
    promote_from_model START END promote_node idp tip cfg h t (Some subs)
      (Some tasks) drawn = (Ok w', h', drawn)
    /\ interface w' = tip (t_interface t)
    /\ outputs w' = t_outputs t
    /\ user_inputs w' = None
    /\ node_id_set (nodes w')
       = list_to_set (map mn_id (get_non_system_nodes START END (t_nodes t))).
Proof.
  intros Hp. unfold promote_from_model. simpl.
  destruct (build_node_map_ok (get_non_system_nodes START END (t_nodes t)) h [])
    as (h1 & nm & Hb & Hok & Hkeys).
  { intros m Hm. apply Hp. by apply list_elem_of_filter in Hm as [_ ?]. }
  { intros k a Hin. by apply elem_of_nil in Hin. }
  rewrite Hb. rewrite (wire_nodes_ok _ h1 nm Hok).
  2:{ intros m Hm. apply Hkeys. right. by apply list_elem_of_fmap_2. }
  destruct (SdkWorkflow_init _ _ _ _ _ _ _ _ _ _ _) as [r d] eqn:Hinit.
  revert Hinit. unfold SdkWorkflow_init.
  rewrite (check_nodes_no_upstream _ _ (promoted_nodes_no_upstream h1 nm Hok)).
  simpl. intros [= <- <-]. eexists _, h1. split; [done|]. simpl.
  repeat split. rewrite (promoted_node_ids h1 nm Hok).
  apply set_eq. intros k. rewrite !elem_of_list_to_set, Hkeys.
  split; [|by right]. intros [H|H]; [|done]. by apply elem_of_nil in H.
Qed.
End PromotionProps.

Lemma serialized_node_ids (START END : string) (h : Heap) (ns : list SdkNode) :
  Forall (fun n => exists i, n_id n = Some i /\ i <> START /\ i <> END) ns ->
  get_non_system_nodes START END (map (node_to_model h) ns)
    = map (node_to_model h) ns
  /\ map mn_id (map (node_to_model h) ns) = omap n_id ns.
Proof.
  induction 1 as [|n ns (i & Hi & Hs & He) _ [IH1 IH2]]; [done|].
  split.
  - unfold get_non_system_nodes in *. simpl. rewrite filter_cons_True.
    + by rewrite IH1.
    + simpl. by rewrite Hi.
  - simpl. rewrite IH2.
    change (omap n_id (n :: ns)) with
      (match n_id n with Some y => y :: omap n_id ns | None => omap n_id ns end).
    by rewrite Hi.
Qed.

(** C5, as the code has it.  Take a workflow accepted by the constructor,
    whose nodes all have an id that is neither of the two reserved ids, and
    a node-level promotion that rebuilds every serialized node under its
    id (without upstream references: the serialized node has ids only).
    Promoting the primary template of its serialized form with empty
    lookup tables gives a workflow with the same interface, the same output
    bindings and the same set of node ids, and without authoring-time
    inputs. *)
Theorem promote_serialize_round_trip (START END : string)
    (promote_node : NodeModel -> list (Identifier * WorkflowTemplate)
                    -> list (Identifier * TaskTemplate) -> result SdkNode)
    (idp : Identifier -> Identifier) (tip : TypedInterface -> TypedInterface)
    (cfg : Config) (h : Heap)
    (inputs : option (list Input)) (outs : option (list Output))
    (ns : list SdkNode) (id : option Identifier)
    (md : option WorkflowMetadata) (mdd : option WorkflowMetadataDefaults)
    (iface : option TypedInterface) (ob : option (list Binding))
    (drawn drawn1 : nat) (w : SdkWorkflow) (wire : WireWorkflowSpec) :
  SdkWorkflow_init cfg h inputs outs ns id md mdd iface ob drawn = (Ok w, drawn1) ->
  serialize h w = Ok wire ->
  Forall (fun n => exists i, n_id n = Some i /\ i <> START /\ i <> END) ns ->
  (forall m, m ∈ t_nodes (primary_template wire) ->
     exists n', promote_node m [] [] = Ok n'
                /\ n_id n' = Some (mn_id m) /\ upstream_nodes n' = []) ->
  (forall i, tip i = i) ->
  exists w' h',
    promote_from_model START END promote_node idp tip cfg h
      (primary_template wire) (Some []) (Some []) drawn1 = (Ok w', h', drawn1)
    /\ interface w' = interface w
    /\ outputs w' = outputs w
    /\ node_id_set (nodes w') = node_id_set (nodes w)
    /\ user_inputs w' = None.
Proof.
  intros Hinit Hser Hids Hp Htip.
  apply SdkWorkflow_init_ok in Hinit as (Hnodes & _ & _).
  unfold serialize in Hser.
  destruct (get_sub_workflows w) as [sw|e]; [|done]. simpl in Hser.
  injection Hser as <-. simpl in *.
  destruct (promote_from_model_ok START END promote_node idp tip [] [] cfg h
              (template_of h w) drawn1 Hp) as (w' & h' & Hpr & Hi & Ho & Hu & Hn).
  exists w', h'. split; [done|]. simpl in Hi, Ho, Hn.
  rewrite Hi, Htip, Ho, Hn, Hnodes.
  destruct (serialized_node_ids START END h ns Hids) as [-> ->].
  done.
Qed.

Lemma promote_serialize_round_trip_witness :
  exists w wire w' h',
    SdkWorkflow_init Sample.cfg [] (Some []) (Some []) SampleRoundTrip.plain
      None None None None None 0 = (Ok w, 1)
    /\ serialize [] w = Ok wire
    /\ promote_from_model SampleRoundTrip.START SampleRoundTrip.END
         SampleRoundTrip.promote_node (fun i => i) (fun i => i) Sample.cfg []
         (primary_template wire) (Some []) (Some []) 1 = (Ok w', h', 1)
    /\ node_id_set (nodes w') = node_id_set (nodes w)
    /\ interface w' = interface w.
Proof.
  eexists _, _.
  destruct (promote_serialize_round_trip SampleRoundTrip.START SampleRoundTrip.END
              SampleRoundTrip.promote_node (fun i => i) (fun i => i) Sample.cfg []
              (Some []) (Some []) SampleRoundTrip.plain None None None None None
              0 1 _ _ eq_refl eq_refl)
    as (w' & h' & Hp & Hi & _ & Hn & _).
  - repeat constructor; eexists; (split; [reflexivity|]); split; discriminate.
  - intros m _. eexists. split; [reflexivity|]. split; reflexivity.
  - reflexivity.
  - exists w', h'. split; [reflexivity|]. split; [reflexivity|]. done.
Defined.

(** C5 does not hold as stated: a workflow with a node whose id is the
    reserved id of the start node is accepted by the constructor, and the
    promotion of its serialized form has no node. *)
Lemma round_trip_drops_reserved_node_id :
  exists w wire w' h',
    SdkWorkflow_init Sample.cfg [] (Some []) (Some []) SampleRoundTrip.reserved
      None None None None None 0 = (Ok w, 1)
    /\ serialize [] w = Ok wire
    /\ promote_from_model SampleRoundTrip.START SampleRoundTrip.END
         SampleRoundTrip.promote_node (fun i => i) (fun i => i) Sample.cfg []
         (primary_template wire) (Some []) (Some []) 1 = (Ok w', h', 1)
    /\ map n_id (nodes w) = [Some "start-node"]
    /\ nodes w' = []
    /\ node_id_set (nodes w') <> node_id_set (nodes w).
Proof.
  eexists _, _, _, _.
  split; [reflexivity|]. split; [reflexivity|]. split; [reflexivity|].
  split; [reflexivity|]. split; [reflexivity|].
  intros H. assert (Hin : "start-node" ∈ (∅ : gset string)).
  { change (∅ : gset string) with
      (node_id_set ([] : list SdkNode)). simpl in H. rewrite H.
    apply elem_of_list_to_set. simpl. by left. }
  by apply not_elem_of_empty in Hin.
Qed.

(** ** Discovery: every reachable entity is collected *)

Lemma snd_imap_pair {A B : Type} (f : nat -> A) (l : list B) :
  map snd (imap (fun i v => (f i, v)) l) = l.
Proof.
  revert f. induction l as [|a l IH]; intros f; [done|].
  rewrite imap_cons. simpl. f_equal. apply (IH (f ∘ S)).
Qed.

Lemma snd_seq_children (nm : string) (elems : list addr) :
  map snd (seq_children nm elems) = elems.
Proof. unfold seq_children. apply snd_imap_pair. Qed.

Lemma snd_dict_children (nm : string) (items : list (string * addr * addr)) :
  map snd (dict_children nm items) = obj_children (ODict items).
Proof.
  unfold dict_children. simpl. rewrite map_app, !map_map. done.
Qed.

Section DiscoveryCoverage.
Variable assign : SdkNode -> string -> result SdkNode.
Variable top : gset string.
Variable h0 : Heap.
Variable workflow_class : list (string * addr).

Local Abbreviation both_inv := (discovery_and_coverage_inv assign top h0 workflow_class).

Lemma coverage_skip h nm a rest vis ins outs ns log :
  coverage_inv h0 workflow_class (mkDiscovery h ((nm, a) :: rest) vis ins outs ns log) ->
  a ∈ vis ->
  coverage_inv h0 workflow_class
    (mkDiscovery h rest vis ins outs ns (log ++ [(nm, a)])).
Proof.
  intros (K & J0 & J) Ha. unfold coverage_inv in *; simpl in *.
  repeat split.
  - exact K.
  - intros nm' a' Hin. destruct (J0 nm' a' Hin) as [?|Hq]; [by left|].
    apply elem_of_cons in Hq as [->|?]; [by left|by right].
  - intros b o b' Hb Ho Hc. destruct (J b o b' Hb Ho Hc) as [?|Hq]; [by left|].
    apply elem_of_cons in Hq as [->|?]; [by left|by right].
Qed.

Lemma collected_if_entity_mono st st' a :
  map fst (d_inputs st) ⊆ map fst (d_inputs st') ->
  map fst (d_outputs st) ⊆ map fst (d_outputs st') ->
  map fst (d_nodes st) ⊆ map fst (d_nodes st') ->
  collected_if_entity h0 st a -> collected_if_entity h0 st' a.
Proof.
  intros Hi Ho Hn. unfold collected_if_entity.
  destruct (h0 !! a) as [[]|]; auto.
Qed.

Lemma coverage_visit h nm a rest vis ins outs ns log st' :
  both_inv (mkDiscovery h ((nm, a) :: rest) vis ins outs ns log) ->
  a ∉ vis ->
  visit assign top
    (mkDiscovery h rest ({[a]} ∪ vis) ins outs ns (log ++ [(nm, a)])) nm a = Ok st' ->
  coverage_inv h0 workflow_class st'.
Proof.
  intros [Hinv (K & J0 & J)] Ha Hv. simpl in *.
  destruct (inv_first assign top h0 _ _ _ _ _ _ _ nm a Hinv Ha) as (_ & Hh & _).
  assert (Hvis : visited_obj_ids st' = {[a]} ∪ vis).
  { revert Hv. unfold visit. destruct (h !! a) as [[n|i|o|elems|items|]|];
      try (by intros [= <-]).
    - destruct (assign n nm); simpl; [|done]. by intros [= <-].
    - case_bool_decide as Hdec; [done|]. by intros [= <-].
    - case_bool_decide as Hdec; [done|]. by intros [= <-]. }
  assert (Hq : forall b, b ∈ map snd rest \/ b ∈ default [] (obj_children <$> h !! a)
                         -> b ∈ map snd (to_visit_objs st')).
  { revert Hv. unfold visit. destruct (h !! a) as [[n|i|o|elems|items|]|]; simpl.
    - destruct (assign n nm); simpl; [|done]. intros [= <-] b [?|H]; [done|].
      by apply elem_of_nil in H.
    - case_bool_decide as Hdec; [done|]. intros [= <-] b [?|H]; [done|].
      by apply elem_of_nil in H.
    - case_bool_decide as Hdec; [done|]. intros [= <-] b [?|H]; [done|].
      by apply elem_of_nil in H.
    - intros [= <-] b Hb. simpl. rewrite map_app, snd_seq_children.
      apply elem_of_app. tauto.
    - intros [= <-] b Hb. simpl. rewrite map_app, snd_dict_children.
      apply elem_of_app. tauto.
    - intros [= <-] b [?|H]; [done|]. by apply elem_of_nil in H.
    - intros [= <-] b [?|H]; [done|]. by apply elem_of_nil in H. }
  assert (Hmono : map fst ins ⊆ map fst (d_inputs st')
                  /\ map fst outs ⊆ map fst (d_outputs st')
                  /\ map fst ns ⊆ map fst (d_nodes st')).
  { revert Hv. unfold visit. destruct (h !! a) as [[n|i|o|elems|items|]|];
      try (by intros [= <-]).
    - destruct (assign n nm); simpl; [|done]. intros [= <-]. simpl.
      repeat split; try done. rewrite map_app. intros x Hx.
      apply elem_of_app. by left.
    - case_bool_decide as Hdec; [done|]. intros [= <-]. simpl.
      repeat split; try done. rewrite map_app. intros x Hx.
      apply elem_of_app. by left.
    - case_bool_decide as Hdec; [done|]. intros [= <-]. simpl.
      repeat split; try done. rewrite map_app. intros x Hx.
      apply elem_of_app. by left. }
  destruct Hmono as (Mi & Mo & Mn).
  unfold coverage_inv. rewrite Hvis. repeat split.
  - intros b [Hb|Hb]%elem_of_union.
    + apply elem_of_singleton in Hb as ->.
      unfold collected_if_entity. rewrite <- Hh.
      revert Hv. unfold visit. destruct (h !! a) as [[n|i|o|elems|items|]|];
        try done.
      * destruct (assign n nm); simpl; [|done]. intros [= <-]. simpl.
        rewrite map_app. apply elem_of_app. right. by left.
      * case_bool_decide as Hdec; [done|]. intros [= <-]. simpl.
        rewrite map_app. apply elem_of_app. right. by left.
      * case_bool_decide as Hdec; [done|]. intros [= <-]. simpl.
        rewrite map_app. apply elem_of_app. right. by left.
    + eapply (collected_if_entity_mono
                (mkDiscovery h ((nm, a) :: rest) vis ins outs ns log)); try done.
      by apply K.
  - intros nm' b Hin. destruct (J0 nm' b Hin) as [?|Hb].
    + left. apply elem_of_union. by right.
    + apply elem_of_cons in Hb as [->|Hb].
      * left. apply elem_of_union. left. by apply elem_of_singleton.
      * right. apply Hq. by left.
  - intros b o b' [Hb|Hb]%elem_of_union Ho Hc.
    + apply elem_of_singleton in Hb as ->. right. apply Hq. right.
      rewrite Hh, Ho. done.
    + destruct (J b o b' Hb Ho Hc) as [?|Hb'].
      * left. apply elem_of_union. by right.
      * apply elem_of_cons in Hb' as [->|Hb'].
        -- left. apply elem_of_union. left. by apply elem_of_singleton.
        -- right. apply Hq. by left.
Qed.

Lemma both_inv_loop (fuel : nat) (st st' : Discovery) :
  both_inv st -> discover_loop assign fuel top st = Some (Ok st') ->
  both_inv st' /\ to_visit_objs st' = [].
Proof.
  apply (discover_loop_invariant assign top both_inv).
  - intros h nm a rest vis ins outs ns log [H1 H2] Ha. split.
    + by apply (inv_log assign top h0 h ((nm, a) :: rest) rest vis vis).
    + by apply coverage_skip.
  - intros h nm a rest vis ins outs ns log st1 HP Ha Hv. split.
    + eapply inv_visit; [exact (proj1 HP)|done|done].
    + by eapply coverage_visit.
Qed.

(** When the loop has ended, every reachable object has been visited. *)
Lemma reachable_visited (st : Discovery) :
  coverage_inv h0 workflow_class st -> to_visit_objs st = [] ->
  forall a, reachable h0 workflow_class a -> a ∈ visited_obj_ids st.
Proof.
  intros (_ & J0 & J) Hq a Hr. rewrite Hq in J0, J. simpl in *.
  induction Hr as [nm a Hin|a o a' _ IH Ho Hc].
  - destruct (J0 nm a Hin) as [?|H]; [done|]. by apply elem_of_nil in H.
  - destruct (J a o a' IH Ho Hc) as [?|H]; [done|]. by apply elem_of_nil in H.
Qed.
End DiscoveryCoverage.

Lemma coverage_initial (h0 : Heap) (workflow_class : list (string * addr)) :
  coverage_inv h0 workflow_class (mkDiscovery h0 workflow_class ∅ [] [] [] []).
Proof.
  unfold coverage_inv; simpl. repeat split.
  - intros a Ha. by apply not_elem_of_empty in Ha.
  - intros nm a Hin. right. by apply (list_elem_of_fmap_2 snd) in Hin.
  - intros a o a' Ha. by apply not_elem_of_empty in Ha.
Qed.

(** What holds of the state that discovery returns. *)
Lemma discovery_collects_each_object_once_aux
    (assign : SdkNode -> string -> result SdkNode)
    (h : Heap) (workflow_class : list (string * addr)) (st : Discovery) :
  discover_state assign h workflow_class = Some (Ok st) ->
  (forall a, reachable h workflow_class a -> collected_if_entity h st a)
  /\ NoDup (collected_addrs st)
  /\ (forall a i, (a, i) ∈ d_inputs st ->
        input_collected_as (list_to_set (map fst workflow_class)) h (visit_log st) a i)
  /\ (forall a o, (a, o) ∈ d_outputs st ->
        output_collected_as (list_to_set (map fst workflow_class)) h (visit_log st) a o)
  /\ (forall a n, (a, n) ∈ d_nodes st ->
        node_collected_as assign h (visit_log st) a n)
  /\ to_visit_objs st = [].
Proof.
  intros Hst. unfold discover_state in Hst.
  set (top := list_to_set (map fst workflow_class) : gset string) in *.
  destruct (both_inv_loop assign top h workflow_class _ _ st
              (conj (inv_initial assign top h h workflow_class eq_refl)
                    (coverage_initial h workflow_class)) Hst)
    as [[Hinv Hcov] Hq].
  destruct Hinv as (_ & _ & I3 & _ & I5 & I6 & I7).
  repeat split; try done.
  intros a Hr. apply (proj1 Hcov).
  by apply (reachable_visited h workflow_class st Hcov Hq).
Qed.

(** C8. Discovery always ends.  When it returns, every input, output and
    node that can be reached from the attributes of the class has been
    collected and no object is collected twice; every collected object is the
    object of the initial heap at its address, renamed to (for a node: given
    the id made from) the name under which its address was first taken from
    the queue; a later pair with the address of a visited object is
    skipped. *)
Theorem discovery_collects_each_object_once
    (assign : SdkNode -> string -> result SdkNode)
    (h : Heap) (workflow_class : list (string * addr)) :
  (exists r, discover_state assign h workflow_class = Some r)
  /\ (forall st,
        discover_state assign h workflow_class = Some (Ok st) ->
        let top : gset string := list_to_set (map fst workflow_class) in
        to_visit_objs st = []
        /\ (forall a, reachable h workflow_class a -> collected_if_entity h st a)
        /\ NoDup (collected_addrs st)
        /\ (forall a i, (a, i) ∈ d_inputs st ->
              input_collected_as top h (visit_log st) a i)
        /\ (forall a o, (a, o) ∈ d_outputs st ->
              output_collected_as top h (visit_log st) a o)
        /\ (forall a n, (a, n) ∈ d_nodes st ->
              node_collected_as assign h (visit_log st) a n))
  /\ (forall fuel top h q vis ins outs ns log nm a,
        a ∈ vis ->
        discover_loop assign (S fuel) top
          (mkDiscovery h ((nm, a) :: q) vis ins outs ns log)
        = discover_loop assign fuel top
            (mkDiscovery h q vis ins outs ns (log ++ [(nm, a)]))).
Proof.
  split; [apply discover_state_terminates|]. split.
  - intros st Hst top.
    destruct (discovery_collects_each_object_once_aux assign h workflow_class st Hst)
      as (H1 & H2 & H3 & H4 & H5 & H6).
    done.
  - intros. by apply discover_loop_skip.
Qed.

Lemma discovery_collects_each_object_once_witness :
  exists st,
    discover_state assign_id_once SampleSurface.heap SampleSurface.surface = Some (Ok st)
    /\ collected_addrs st = [0; 3; 2]
    /\ NoDup (collected_addrs st)
    /\ map (fun p => in_name p.2) (d_inputs st) = ["a"]
    /\ map (fun p => n_id p.2) (d_nodes st) = [Some "d"].
Proof.
  destruct (discovery_collects_each_object_once assign_id_once
              SampleSurface.heap SampleSurface.surface) as (_ & H & _).
  eexists. split; [vm_compute; reflexivity|].
  split; [reflexivity|]. split; [|split; reflexivity].
  eapply H. vm_compute. reflexivity.
Defined.

(** ** Discovery: inputs and outputs of a class without bracketed names *)

Lemma first_visit_elem (log : list (string * addr)) (a : addr) (nm : string) :
  first_visit log a = Some nm -> (nm, a) ∈ log.
Proof.
  induction log as [|[nm' b] log IH]; simpl; [done|].
  destruct (decide (b = a)) as [->|Hb].
  - intros [= ->]. by left.
  - intros H. right. by apply IH.
Qed.

Lemma names_inv_loop (assign : SdkNode -> string -> result SdkNode)
    (top : gset string) (workflow_class : list (string * addr))
    (fuel : nat) (st st' : Discovery) :
  names_inv workflow_class st ->
  discover_loop assign fuel top st = Some (Ok st') ->
  names_inv workflow_class st'.
Proof.
  intros Hinit Hl.
  apply (discover_loop_invariant assign top (names_inv workflow_class))
    with (fuel := fuel) (st := st); try done.
  - intros h nm a rest vis ins outs ns log HP Ha nm' a' Hin. apply HP.
    change ((nm', a') ∈ (nm, a) :: (rest ++ log)).
    change ((nm', a') ∈ rest ++ log ++ [(nm, a)]) in Hin.
    rewrite !elem_of_app, list_elem_of_singleton in Hin.
    rewrite elem_of_cons, elem_of_app. tauto.
  - intros h nm a rest vis ins outs ns log st1 HP Ha Hv nm' a' Hin.
    assert (Hold : forall p, p ∈ rest ++ log ++ [(nm, a)] ->
                     p ∈ ((nm, a) :: rest) ++ log).
    { intros p Hp. change (p ∈ (nm, a) :: (rest ++ log)).
      rewrite !elem_of_app, list_elem_of_singleton in Hp.
      rewrite elem_of_cons, elem_of_app. tauto. }
    revert Hv Hin. unfold visit.
    destruct (h !! a) as [[n|i|o|elems|items|]|]; simpl.
    + destruct (assign n nm); simpl; [|done]. intros [= <-] Hin. simpl in Hin.
      by apply HP, Hold.
    + case_bool_decide as Hdec; [done|]. intros [= <-] Hin. by apply HP, Hold.
    + case_bool_decide as Hdec; [done|]. intros [= <-] Hin. by apply HP, Hold.
    + intros [= <-] Hin. simpl in Hin. rewrite <- app_assoc in Hin.
      apply elem_of_app in Hin as [Hin|Hin].
      * apply HP, Hold. apply elem_of_app. by left.
      * apply elem_of_app in Hin as [Hin|Hin].
        -- right. exists nm. apply (children_names_indexed nm elems [] nm' a').
           apply elem_of_app. by left.
        -- apply HP, Hold. apply elem_of_app. by right.
    + intros [= <-] Hin. simpl in Hin. rewrite <- app_assoc in Hin.
      apply elem_of_app in Hin as [Hin|Hin].
      * apply HP, Hold. apply elem_of_app. by left.
      * apply elem_of_app in Hin as [Hin|Hin].
        -- right. exists nm. apply (children_names_indexed nm [] items nm' a').
           apply elem_of_app. by right.
        -- apply HP, Hold. apply elem_of_app. by right.
    + intros [= <-] Hin. by apply HP, Hold.
    + intros [= <-] Hin. by apply HP, Hold.
Qed.

(** When no attribute name of the class contains a bracket and discovery
    returns, the name of the first visit of a collected input or output is
    the name of an attribute that holds it. *)
Lemma first_visit_top_level (assign : SdkNode -> string -> result SdkNode)
    (h : Heap) (workflow_class : list (string * addr)) (st : Discovery)
    (a : addr) (nm : string) :
  (forall nm a, (nm, a) ∈ workflow_class -> has_open_bracket nm = false) ->
  discover_state assign h workflow_class = Some (Ok st) ->
  first_visit (visit_log st) a = Some nm ->
  nm ∈ (list_to_set (map fst workflow_class) : gset string) ->
  (nm, a) ∈ workflow_class.
Proof.
  intros Hb Hst Hf Ht. unfold discover_state in Hst.
  assert (Hn : names_inv workflow_class st).
  { eapply names_inv_loop; [|exact Hst]. intros nm' a' Hin. left. simpl in Hin.
    by rewrite app_nil_r in Hin. }
  destruct (Hn nm a) as [?|(base & index & ->)]; [|done|].
  - apply elem_of_app. right. by apply first_visit_elem.
  - exfalso. apply elem_of_list_to_set, list_elem_of_fmap in Ht as ([nm' b] & Heq & Hin).
    simpl in Heq. subst nm'. apply Hb in Hin.
    by rewrite indexed_name_has_bracket in Hin.
Qed.

(** Placement is checked by name.  When discovery takes an input or an output
    from the queue for the first time, it tests the name of the pair against
    the names of the top-level attributes: if the name is not one of them,
    discovery fails with the value error that carries that name; if it is,
    the object is renamed to it and collected, and discovery goes on.  Every
    name that a container gives to its elements has the form
    [attr[index]], and is no top-level name when no top-level name contains
    a bracket: for such a class, when discovery returns, every input and
    output that can be reached is the value of an attribute and has been
    collected under the name of such an attribute. *)
Theorem placement_is_checked_by_name
    (assign : SdkNode -> string -> result SdkNode) (fuel : nat)
    (top : gset string) (h : Heap) (q : list (string * addr)) (vis : gset addr)
    (ins : list (addr * Input)) (outs : list (addr * Output))
    (ns : list (addr * SdkNode)) (log : list (string * addr))
    (nm : string) (a : addr) :
  a ∉ vis ->
  (forall i, h !! a = Some (OInput i) ->
     discover_loop assign (S fuel) top (mkDiscovery h ((nm, a) :: q) vis ins outs ns log)
     = if bool_decide (nm ∈ top) then
         discover_loop assign fuel top
           (mkDiscovery (<[a := OInput (Input_rename_and_return_reference i nm)]> h)
              q ({[a]} ∪ vis)
              (ins ++ [(a, Input_rename_and_return_reference i nm)]) outs ns
              (log ++ [(nm, a)]))
       else Some (Raise (FlyteValueException nm input_outside_msg)))
  /\ (forall o, h !! a = Some (OOutput o) ->
     discover_loop assign (S fuel) top (mkDiscovery h ((nm, a) :: q) vis ins outs ns log)
     = if bool_decide (nm ∈ top) then
         discover_loop assign fuel top
           (mkDiscovery (<[a := OOutput (Output_rename_and_return_reference o nm)]> h)
              q ({[a]} ∪ vis) ins
              (outs ++ [(a, Output_rename_and_return_reference o nm)]) ns
              (log ++ [(nm, a)]))
       else Some (Raise (FlyteValueException nm output_outside_msg)))
  /\ (forall attribute_name elems items,
        (nm, a) ∈ seq_children attribute_name elems
          ++ dict_children attribute_name items ->
        (forall t, t ∈ top -> has_open_bracket t = false) ->
        nm ∉ top)
  /\ (forall h0 workflow_class st b,
        (forall nm b, (nm, b) ∈ workflow_class -> has_open_bracket nm = false) ->
        discover_state assign h0 workflow_class = Some (Ok st) ->
        reachable h0 workflow_class b ->
        (forall i, h0 !! b = Some (OInput i) ->
           exists nm, (nm, b) ∈ workflow_class
             /\ (b, Input_rename_and_return_reference i nm) ∈ d_inputs st)
        /\ (forall o, h0 !! b = Some (OOutput o) ->
           exists nm, (nm, b) ∈ workflow_class
             /\ (b, Output_rename_and_return_reference o nm) ∈ d_outputs st)).
Proof.
  intros Ha. split; [|split; [|split]].
  - intros i Hi. simpl. rewrite bool_decide_eq_false_2 by done.
    unfold visit. rewrite Hi.
    destruct (decide (nm ∈ top)) as [Ht|Ht].
    + rewrite (bool_decide_eq_true_2 (nm ∈ top)) by done.
      rewrite bool_decide_eq_false_2; [done|]. by intros Hn.
    + rewrite (bool_decide_eq_false_2 (nm ∈ top)) by done.
      by rewrite bool_decide_eq_true_2.
  - intros o Ho. simpl. rewrite bool_decide_eq_false_2 by done.
    unfold visit. rewrite Ho.
    destruct (decide (nm ∈ top)) as [Ht|Ht].
    + rewrite (bool_decide_eq_true_2 (nm ∈ top)) by done.
      rewrite bool_decide_eq_false_2; [done|]. by intros Hn.
    + rewrite (bool_decide_eq_false_2 (nm ∈ top)) by done.
      by rewrite bool_decide_eq_true_2.
  - intros attribute_name elems items Hin Htop.
    apply children_names_indexed in Hin as [index ->].
    by apply indexed_name_not_top_level.
  - intros h0 workflow_class st b Hb Hst Hr.
    destruct (discovery_collects_each_object_once_aux assign h0 workflow_class st Hst)
      as (Hcov & _ & Hins & Houts & _).
    specialize (Hcov b Hr). unfold collected_if_entity in Hcov. split.
    + intros i Hi. rewrite Hi in Hcov.
      apply list_elem_of_fmap in Hcov as ([b' i'] & Heq & Hin). simpl in Heq. subst b'.
      destruct (Hins _ _ Hin) as (nm' & i0 & Hf & Ht & Hh & ->).
      rewrite Hi in Hh. injection Hh as <-. exists nm'. split; [|done].
      by eapply first_visit_top_level.
    + intros o Ho. rewrite Ho in Hcov.
      apply list_elem_of_fmap in Hcov as ([b' o'] & Heq & Hin). simpl in Heq. subst b'.
      destruct (Houts _ _ Hin) as (nm' & o0 & Hf & Ht & Hh & ->).
      rewrite Ho in Hh. injection Hh as <-. exists nm'. split; [|done].
      by eapply first_visit_top_level.
Qed.

Lemma placement_is_checked_by_name_witness :
  discover_loop assign_id_once 1 (list_to_set ["x"])
    (mkDiscovery SampleSurface.bracket_heap [("x[0]", 1)] {[0]} [] [] []
       [("x", 0)])
  = Some (Raise (FlyteValueException "x[0]" input_outside_msg)).
Proof.
  destruct (placement_is_checked_by_name assign_id_once 0 (list_to_set ["x"])
              SampleSurface.bracket_heap [] {[0]} [] [] [] [("x", 0)]
              "x[0]" 1) as (Hin & _ & _).
  - intros H. apply elem_of_singleton in H. discriminate H.
  - rewrite (Hin SampleSurface.x eq_refl). reflexivity.
Defined.

(** The same on a whole class: with the attribute [x = [inp]] only,
    discovery fails with the error that names [x[0]]. *)
Lemma nested_input_is_rejected :
  _discover_workflow_components assign_id_once SampleSurface.bracket_heap
    SampleSurface.nested_surface
  = Some (Raise (FlyteValueException "x[0]" input_outside_msg)).
Proof. reflexivity. Qed.

(** C7. In a class with the attribute [x = [inp]] only, discovery fails
    with the placement error that names [x[0]], as the claim says.  In a
    class that has besides an attribute named [x[0]], the input [inp] is
    still reached through the list only, and yet discovery raises nothing:
    it collects [inp] under the name [x[0]], because it tests the
    synthesized name against the names of the attributes and not how the
    object was reached. *)
Theorem nested_input_is_accepted :
  _discover_workflow_components assign_id_once SampleSurface.bracket_heap
    SampleSurface.nested_surface
  = Some (Raise (FlyteValueException "x[0]" input_outside_msg))
  /\ SampleSurface.bracket_heap !! 0 = Some (OSeq [1])
  /\ SampleSurface.bracket_heap !! 1 = Some (OInput SampleSurface.x)
  /\ (1 ∉ map snd SampleSurface.bracket_surface)
  /\ _discover_workflow_components assign_id_once SampleSurface.bracket_heap
       SampleSurface.bracket_surface
     = Some (Ok ([mkInput "x[0]" (mkVar "Int" "") true None], [], [])).
Proof.
  split; [reflexivity|]. split; [reflexivity|]. split; [reflexivity|].
  split; [|reflexivity].
  intros H. simpl in H.
  apply elem_of_cons in H as [H|H]; [discriminate H|].
  apply list_elem_of_singleton in H. discriminate H.
Qed.

(** * Further properties *)

(** ** The closure of a workflow *)

Lemma wf_size_nodes (ns : list SdkNode) (n : SdkNode) (w1 : SdkWorkflow)
    (i : Identifier) (m : WorkflowMetadata) (d : WorkflowMetadataDefaults)
    (f : TypedInterface) (o : list Binding) (u : option (list Input)) :
  n ∈ ns -> executable_sdk_object n = Some (ExWorkflow w1) ->
  wf_size w1 < wf_size (mkSdkWorkflow i m d f ns o u).
Proof.
  intros Hin Hex. simpl. apply Nat.lt_succ_r.
  induction ns as [|[ni nu nb nm wn ex] rest IH]; [by apply elem_of_nil in Hin|].
  apply elem_of_cons in Hin as [->|Hin].
  - simpl in Hex. subst ex. lia.
  - specialize (IH Hin). destruct ex as [[]|]; lia.
Qed.

Lemma in_closure_inv (w w' : SdkWorkflow) :
  in_closure w w' <->
  exists n w1, n ∈ nodes w /\ sub_workflow_node n w1
               /\ (w' = w1 \/ in_closure w1 w').
Proof.
  split.
  - intros H. destruct H as [w w1 (n & Hn & Hs)|w w1 w2 (n & Hn & Hs) Hc].
    + exists n, w1. eauto.
    + exists n, w1. eauto.
  - intros (n & w1 & Hn & Hs & [->|Hc]).
    + apply closure_direct. by exists n.
    + eapply closure_nested; [|exact Hc]. by exists n.
Qed.

Lemma node_cases (n : SdkNode) :
  skipped_node n \/ bad_node n \/ exists w1, sub_workflow_node n w1.
Proof.
  unfold skipped_node, bad_node, sub_workflow_node.
  destruct (has_sub_workflow_ref (workflow_node n)); [|by left]. right.
  destruct (executable_sdk_object n) as [[t|w1|]|] eqn:Hex; eauto;
    left; split; done.
Qed.

Lemma sub_workflow_node_fun (n : SdkNode) (w1 w2 : SdkWorkflow) :
  sub_workflow_node n w1 -> sub_workflow_node n w2 -> w1 = w2.
Proof. intros [_ H1] [_ H2]. congruence. Qed.

Lemma has_bad_node_nodes (w : SdkWorkflow) :
  has_bad_node w <-> list_has_bad (nodes w).
Proof.
  unfold has_bad_node, list_has_bad. split.
  - intros [H|(w' & Hc & Hb)]; [by left|]. right.
    apply in_closure_inv in Hc as (n & w1 & Hn & Hs & [->|Hc]).
    + exists n, w1. split; [done|]. split; [done|]. by left.
    + exists n, w1. split; [done|]. split; [done|]. right. by exists w'.
  - intros [H|(n & w1 & Hn & Hs & [Hb|(w' & Hc & Hb)])]; [by left|..]; right.
    + exists w1. split; [|done]. apply closure_direct. by exists n.
    + exists w'. split; [|done]. eapply closure_nested; [|exact Hc]. by exists n.
Qed.

Lemma list_closure_skip (n : SdkNode) (rest : list SdkNode) (w' : SdkWorkflow) :
  (forall w1, ~ sub_workflow_node n w1) ->
  list_closure (n :: rest) w' <-> list_closure rest w'.
Proof.
  intros Hn. unfold list_closure. split.
  - intros (m & w1 & [->|Hm]%elem_of_cons & Hs & H); [by destruct (Hn w1)|].
    by exists m, w1.
  - intros (m & w1 & Hm & Hs & H). exists m, w1. split; [by right|done].
Qed.

Lemma list_closure_cons (n : SdkNode) (w1 : SdkWorkflow) (rest : list SdkNode)
    (w' : SdkWorkflow) :
  sub_workflow_node n w1 ->
  list_closure (n :: rest) w'
  <-> w' = w1 \/ in_closure w1 w' \/ list_closure rest w'.
Proof.
  intros Hn. unfold list_closure. split.
  - intros (m & w2 & [->|Hm]%elem_of_cons & Hs & H).
    + rewrite (sub_workflow_node_fun _ _ _ Hn Hs). tauto.
    + right. right. by exists m, w2.
  - intros [->|[H|(m & w2 & Hm & Hs & H)]].
    + exists n, w1. split; [by left|]. split; [done|]. by left.
    + exists n, w1. split; [by left|]. split; [done|]. by right.
    + exists m, w2. split; [by right|done].
Qed.

Lemma list_has_bad_cons (n : SdkNode) (rest : list SdkNode) :
  list_has_bad (n :: rest)
  <-> bad_node n \/ (exists w1, sub_workflow_node n w1 /\ has_bad_node w1)
      \/ list_has_bad rest.
Proof.
  unfold list_has_bad. split.
  - intros [(m & [->|Hm]%elem_of_cons & Hb)|(m & w1 & [->|Hm]%elem_of_cons & Hs & Hb)].
    + by left.
    + right. right. left. by exists m.
    + right. left. by exists w1.
    + right. right. right. by exists m, w1.
  - intros [Hb|[(w1 & Hs & Hb)|[(m & Hm & Hb)|(m & w1 & Hm & Hs & Hb)]]].
    + left. exists n. split; [by left|done].
    + right. exists n, w1. split; [by left|done].
    + left. exists m. split; [by right|done].
    + right. exists m, w1. split; [by right|done].
Qed.

Lemma skipped_not_sub (n : SdkNode) (w1 : SdkWorkflow) :
  skipped_node n -> ~ sub_workflow_node n w1.
Proof. unfold skipped_node. intros H [H' _]. congruence. Qed.

Lemma bad_not_sub (n : SdkNode) (w1 : SdkWorkflow) :
  bad_node n -> ~ sub_workflow_node n w1.
Proof. intros [_ H] [_ H']. by apply (H w1). Qed.

Lemma list_bad_node_of_tail (n m : SdkNode) (rest : list SdkNode) :
  list_bad_node_of rest m -> list_bad_node_of (n :: rest) m.
Proof.
  intros [Hb [Hm|(w' & (k & w1 & Hk & Hs & Hc) & Hm)]]; (split; [done|]).
  - left. by right.
  - right. exists w'. split; [|done]. exists k, w1. split; [by right|done].
Qed.

Lemma list_bad_node_of_sub (n m : SdkNode) (w1 : SdkWorkflow)
    (rest : list SdkNode) :
  sub_workflow_node n w1 -> bad_node_of w1 m -> list_bad_node_of (n :: rest) m.
Proof.
  intros Hn [Hb [Hm|(w' & Hc & Hm)]]; (split; [done|]); right.
  - exists w1. split; [|done]. apply (list_closure_cons n w1 rest w1 Hn). by left.
  - exists w'. split; [|done]. apply (list_closure_cons n w1 rest w' Hn).
    right. by left.
Qed.

Lemma bad_node_text (n : SdkNode) :
  bad_node n -> exists text, executable_text (executable_sdk_object n) = Some text.
Proof.
  intros [_ Hx]. destruct (executable_sdk_object n) as [[t text|w|text]|]; simpl; eauto.
  by destruct (Hx w).
Qed.

(** The loop over a list of nodes, given what holds of the workflows that
    the nodes of the list execute. *)
Lemma sub_workflows_of_nodes_spec (ns : list SdkNode) :
  (forall n w1, n ∈ ns -> executable_sdk_object n = Some (ExWorkflow w1) ->
     closure_spec (get_sub_workflows w1) (in_closure w1) (has_bad_node w1)
       (bad_node_of w1)) ->
  closure_spec (sub_workflows_of_nodes ns) (list_closure ns) (list_has_bad ns)
    (list_bad_node_of ns).
Proof.
  induction ns as [|n rest IH]; intros Hex.
  - unfold closure_spec. simpl. split; [|split; [split|]].
    + intros res [= <-] w'. split.
      * intros H. by apply elem_of_nil in H.
      * intros (n & w1 & Hn & _). by apply elem_of_nil in Hn.
    + by intros [e He].
    + intros [(n & Hn & _)|(n & w1 & Hn & _)]; by apply elem_of_nil in Hn.
    + by intros e He.
  - assert (IH' : closure_spec (sub_workflows_of_nodes rest) (list_closure rest)
                    (list_has_bad rest) (list_bad_node_of rest)).
    { apply IH. intros m w1 Hm. apply Hex. by right. }
    clear IH. destruct IH' as (Ra & Rb & Rc).
    destruct (node_cases n) as [Hs|[Hb|[w1 Hn]]].
    + assert (Hr : sub_workflows_of_nodes (n :: rest) = sub_workflows_of_nodes rest).
      { simpl. unfold skipped_node in Hs. by rewrite Hs. }
      unfold closure_spec. rewrite Hr. split; [|split; [split|]].
      * intros res Hl w'. rewrite (Ra res Hl w'). symmetry.
        apply list_closure_skip. intros w1. by apply skipped_not_sub.
      * intros He. apply list_has_bad_cons. right. right. by apply Rb.
      * intros [Hb|[(w1 & Hn & _)|H]]%list_has_bad_cons.
        -- destruct Hb as [Hg _]. unfold skipped_node in Hs. congruence.
        -- by destruct (skipped_not_sub n w1 Hs).
        -- by apply Rb.
      * intros e He. destruct (Rc e He) as (m & Hm & Hraised).
        exists m. split; [by apply list_bad_node_of_tail|done].
    + destruct (bad_node_text n Hb) as [text Htext].
      assert (Hr : sub_workflows_of_nodes (n :: rest)
                   = Raise (FlyteSystemException (bad_executable_msg text))).
      { simpl. destruct Hb as [Hg Hx]. rewrite Hg.
        destruct (executable_sdk_object n) as [[t tx|w|tx]|];
          simpl in Htext; by try injection Htext as ->. }
      unfold closure_spec. rewrite Hr. split; [|split; [split|]].
      * by intros res Hl.
      * intros _. apply list_has_bad_cons. by left.
      * intros _. eauto.
      * intros e [= <-]. exists n. split.
        -- split; [done|]. left. by left.
        -- by exists text.
    + destruct (Hex n w1) as (Wa & Wb & Wc); [by left|by destruct Hn|].
      assert (Hr : sub_workflows_of_nodes (n :: rest)
                   = subs ← get_sub_workflows w1;
                     more ← sub_workflows_of_nodes rest;
                     Ok (w1 :: subs ++ more)).
      { simpl. destruct Hn as [Hg Hx]. by rewrite Hg, Hx. }
      unfold closure_spec. rewrite Hr.
      destruct (get_sub_workflows w1) as [subs|e1] eqn:H1; simpl.
      * destruct (sub_workflows_of_nodes rest) as [more|e2] eqn:H2; simpl.
        -- split; [|split; [split|]].
           ++ intros res [= <-] w'. rewrite (list_closure_cons n w1 rest w' Hn).
              rewrite elem_of_cons, elem_of_app.
              rewrite (Wa subs eq_refl w'), (Ra more eq_refl w'). tauto.
           ++ by intros [e He].
           ++ intros [Hb|[(w2 & Hn2 & Hb)|H]]%list_has_bad_cons.
              ** by destruct (bad_not_sub n w1 Hb).
              ** rewrite (sub_workflow_node_fun _ _ _ Hn2 Hn) in Hb.
                 by apply Wb in Hb as [e He].
              ** by apply Rb in H as [e He].
           ++ by intros e He.
        -- split; [|split; [split|]].
           ++ by intros res Hl.
           ++ intros _. apply list_has_bad_cons. right. right. apply Rb. eauto.
           ++ intros _. eauto.
           ++ intros e [= <-]. destruct (Rc e2 eq_refl) as (m & Hm & Hraised).
              exists m. split; [by apply list_bad_node_of_tail|done].
      * split; [|split; [split|]].
        -- by intros res Hl.
        -- intros _. apply list_has_bad_cons. right. left. exists w1.
           split; [done|]. apply Wb. eauto.
        -- intros _. eauto.
        -- intros e [= <-]. destruct (Wc e1 eq_refl) as (m & Hm & Hraised).
           exists m. split; [by eapply list_bad_node_of_sub|done].
Qed.

Lemma get_sub_workflows_spec (k : nat) (w : SdkWorkflow) :
  wf_size w <= k ->
  closure_spec (get_sub_workflows w) (in_closure w) (has_bad_node w)
    (bad_node_of w).
Proof.
  revert w. induction k as [|k IH]; intros w Hk.
  - destruct w. simpl in Hk. lia.
  - destruct (sub_workflows_of_nodes_spec (nodes w)) as (Ra & Rb & Rc).
    + intros n w1 Hn Hx. apply IH.
      destruct w as [i m d f ns o u]. simpl in Hn.
      pose proof (wf_size_nodes ns n w1 i m d f o u Hn Hx). lia.
    + unfold closure_spec. rewrite get_sub_workflows_unfold.
      split; [|split; [split|]].
      * intros l Hl w'. rewrite (Ra l Hl w'). symmetry. apply in_closure_inv.
      * intros He. apply has_bad_node_nodes. by apply Rb.
      * intros Hb. apply Rb. by apply has_bad_node_nodes.
      * intros e He. destruct (Rc e He) as (m & [Hb Hm] & Hraised).
        exists m. split; [|done]. split; [done|].
        destruct Hm as [Hm|(w' & Hc & Hm)]; [by left|right].
        exists w'. split; [|done]. by apply in_closure_inv.
Qed.

(** X1. [get_sub_workflows] raises exactly when the workflow, or a workflow
    it uses through sub-workflow nodes, has a sub-workflow node whose
    executable is missing or is no workflow.  What it raises then is the
    system exception whose message ends with the executable of such a node
    as [format] prints it ([None] when it is missing).  When it returns, the
    list holds exactly the workflows used through one or more sub-workflow
    nodes. *)
Theorem get_sub_workflows_closure (w : SdkWorkflow) :
  (forall l, get_sub_workflows w = Ok l -> forall w', w' ∈ l <-> in_closure w w')
  /\ ((exists e, get_sub_workflows w = Raise e) <-> has_bad_node w)
  /\ (forall e, get_sub_workflows w = Raise e ->
        exists n text,
          bad_node n
          /\ (n ∈ nodes w \/ exists w', in_closure w w' /\ n ∈ nodes w')
          /\ executable_text (executable_sdk_object n) = Some text
          /\ e = FlyteSystemException
                   ("workflow node with subworkflow found but bad executable object "
                    +:+ text)).
Proof.
  destruct (get_sub_workflows_spec (wf_size w) w (le_n _)) as (Ha & Hb & Hc).
  split; [exact Ha|]. split; [exact Hb|].
  intros e He. destruct (Hc e He) as (n & [Hbad Hn] & text & Htext & ->).
  by exists n, text.
Qed.

Lemma get_sub_workflows_closure_witness :
  get_sub_workflows SampleRegister.broken
    = Raise (FlyteSystemException
               "workflow node with subworkflow found but bad executable object None")
  /\ has_bad_node SampleRegister.broken.
Proof.
  destruct (get_sub_workflows_closure SampleRegister.broken) as (_ & Hb & He).
  split; [reflexivity|]. apply Hb. eexists. reflexivity.
Defined.

(** ** register: what it leaves behind *)

(** X3. When the workflow or a workflow of its closure has a sub-workflow
    node without a hydrated workflow, [register] raises the system
    exception of [get_sub_workflows], whose message ends with the
    executable of such a node as [format] prints it, and restores the id,
    whatever the client is: the client is not called.  Likewise when the
    client cannot be obtained. *)
Theorem register_fails_before_client_call (str : Identifier -> string)
    (self : SdkWorkflow) (p d n v : string) :
  (has_bad_node self ->
   exists m text,
     bad_node m
     /\ (m ∈ nodes self \/ exists w', in_closure self w' /\ m ∈ nodes w')
     /\ executable_text (executable_sdk_object m) = Some text
     /\ get_sub_workflows self
        = Raise (FlyteSystemException
                   ("workflow node with subworkflow found but bad executable object "
                    +:+ text))
     /\ forall client,
          register str (Ok client) self p d n v
          = (Raise (FlyteSystemException
                      ("workflow node with subworkflow found but bad executable object "
                       +:+ text)), self))
  /\ (forall e, is_Exception e = true -> is_already_exists e = false ->
        register str (Raise e) self p d n v = (Raise e, self)).
Proof.
  split.
  - intros Hb.
    destruct (get_sub_workflows_spec _ self (le_n _)) as (_ & Hr & He).
    apply Hr in Hb as [e Hb].
    destruct (He e Hb) as (m & [Hbad Hm] & text & Htext & ->).
    exists m, text. split; [done|]. split; [done|]. split; [done|].
    split; [done|]. intros client.
    rewrite (register_raise _ _ _ _ _ _ _
               (FlyteSystemException (bad_executable_msg text))).
    + done.
    + unfold register_attempt. simpl. by rewrite get_sub_workflows_set_id, Hb.
  - intros e Hx Ha. rewrite (register_raise _ _ _ _ _ _ _ e); [|done].
    by rewrite Ha, Hx.
Qed.

Lemma register_fails_before_client_call_witness :
  register Sample.str (Ok Sample.accepting_client) SampleRegister.broken
    "proj" "dev" "wb" "v2"
  = (Raise (FlyteSystemException
              "workflow node with subworkflow found but bad executable object None"),
     SampleRegister.broken).
Proof.
  destruct (proj1 (register_fails_before_client_call Sample.str
                     SampleRegister.broken "proj" "dev" "wb" "v2"))
    as (m & text & _ & _ & _ & Hg & Hreg).
  - left. exists SampleRegister.unhydrated. split.
    + apply elem_of_cons. right. apply list_elem_of_singleton. reflexivity.
    + split; [reflexivity|]. intros w H. discriminate H.
  - assert (Htext : text = "None") by (vm_compute in Hg; congruence).
    rewrite (Hreg Sample.accepting_client), Htext. reflexivity.
Defined.

(** X4. When [create_workflow] raises something that is no [Exception] (a
    keyboard interrupt, a system exit), [register] lets it through without
    restoring the id: the workflow keeps the id it was to be registered
    under. *)
Theorem register_keeps_new_id_on_interrupt (str : Identifier -> string)
    (client : Client) (self : SdkWorkflow) (p d n v : string)
    (subs : list SdkWorkflow) (e : exn) :
  get_sub_workflows self = Ok subs ->
  create_workflow client (mkIdentifier WORKFLOW p d n v)
    (mkWorkflowSpec (set_id self (mkIdentifier WORKFLOW p d n v)) subs) = Raise e ->
  is_Exception e = false ->
  register str (Ok client) self p d n v
  = (Raise e, set_id self (mkIdentifier WORKFLOW p d n v)).
Proof.
  intros Hs Hc Hx. rewrite (register_raise _ _ _ _ _ _ _ e).
  - destruct e; try discriminate Hx. done.
  - rewrite (register_attempt_client _ _ _ subs); [done|].
    by rewrite get_sub_workflows_set_id.
Qed.

Lemma register_keeps_new_id_on_interrupt_witness :
  register Sample.str (Ok SampleRegister.interrupted_client) Sample.W0
    "proj" "dev" "w0" "v2"
  = (Raise (BaseExceptionOnly "KeyboardInterrupt"),
     set_id Sample.W0 (mkIdentifier WORKFLOW "proj" "dev" "w0" "v2")).
Proof.
  apply (register_keeps_new_id_on_interrupt Sample.str
           SampleRegister.interrupted_client Sample.W0 "proj" "dev" "w0" "v2"
           [Sample.W1; Sample.W2]); reflexivity.
Defined.

(** ** The constructors: defaults *)

(** X5. Once the upstream check has passed, [SdkWorkflow.__init__] draws one
    identifier from [uuid4] exactly when no id is given (even when it then
    fails), fails only with a type error, and does so exactly when it has to
    derive the interface or the output bindings from [inputs] or [outputs]
    that are [None]; otherwise it returns the workflow with the given or
    the default parts. *)
Theorem SdkWorkflow_init_defaulting (cfg : Config) (h : Heap)
    (inputs : option (list Input)) (outs : option (list Output))
    (ns : list SdkNode) (id : option Identifier)
    (md : option WorkflowMetadata) (mdd : option WorkflowMetadataDefaults)
    (iface : option TypedInterface) (ob : option (list Binding)) (drawn : nat) :
  check_nodes h ns = Ok tt ->
  (SdkWorkflow_init cfg h inputs outs ns id md mdd iface ob drawn).2
    = match id with Some _ => drawn | None => S drawn end
  /\ ((exists e, (SdkWorkflow_init cfg h inputs outs ns id md mdd iface ob drawn).1
                 = Raise e)
      <-> (iface = None /\ (inputs = None \/ outs = None))
          \/ (ob = None /\ outs = None))
  /\ (forall e, (SdkWorkflow_init cfg h inputs outs ns id md mdd iface ob drawn).1
                = Raise e -> exists msg, e = TypeError msg)
  /\ (forall w, (SdkWorkflow_init cfg h inputs outs ns id md mdd iface ob drawn).1
                = Ok w ->
        w_id w = default (mkIdentifier WORKFLOW (PROJECT cfg) (DOMAIN cfg)
                            (uuid4_hex cfg drawn) (VERSION cfg)) id
        /\ nodes w = ns
        /\ user_inputs w = inputs
        /\ w_metadata w = default (mkWorkflowMetadata None) md
        /\ w_metadata_defaults w = default (mkWorkflowMetadataDefaults None) mdd
        /\ interface w
           = default (mkTypedInterface (input_vars (default [] inputs))
                        (output_vars (default [] outs))) iface
        /\ outputs w = default (output_bindings_of (default [] outs)) ob).
Proof.
  intros Hc. unfold SdkWorkflow_init. rewrite Hc.
  destruct id, iface, ob, inputs, outs; simpl;
    (split; [done|]); (split; [split|]);
    try (intros [e He]; discriminate He);
    try (intros [[? [?|?]]|[? ?]]; discriminate);
    try (intros _; eauto; fail);
    try (intros _; first [left; split; [done|]; first [by left|by right]
                         |right; by split]);
    (split; [intros e [= <-]; eauto|]); try (intros e He; discriminate He);
    try (intros w [= <-]; done); intros w Hw; discriminate Hw.
Qed.

Lemma SdkWorkflow_init_defaulting_witness :
  (SdkWorkflow_init Sample.cfg SampleHeap.heap None None SampleHeap.attached
     None None None None None 0).2 = 1
  /\ exists e, (SdkWorkflow_init Sample.cfg SampleHeap.heap None None
                  SampleHeap.attached None None None None None 0).1 = Raise e.
Proof.
  destruct (SdkWorkflow_init_defaulting Sample.cfg SampleHeap.heap None None
              SampleHeap.attached None None None None None 0 eq_refl)
    as (Hd & Hr & _).
  split; [exact Hd|]. apply Hr. left. split; [reflexivity|]. by left.
Defined.

(** ** The derived interface *)

Lemma foldl_insert_lookup {A V : Type} (key : A -> string) (val : A -> V)
    (l : list A) (m : gmap string V) (k : string) :
  foldl (fun m v => <[key v := val v]> m) m l !! k
  = match last (filter (fun v => key v = k) l) with
    | Some v => Some (val v)
    | None => m !! k
    end.
Proof.
  revert m. induction l as [|x l IH]; intros m; simpl; [done|].
  rewrite IH. destruct (decide (key x = k)) as [Hk|Hk].
  - rewrite filter_cons_True by done. rewrite last_cons.
    destruct (last _); [done|]. by rewrite Hk, lookup_insert_eq.
  - rewrite filter_cons_False by done.
    destruct (last _); [done|]. by rewrite lookup_insert_ne.
Qed.

Lemma foldl_insert_dom {A V : Type} (key : A -> string) (val : A -> V)
    (l : list A) (m : gmap string V) :
  dom (foldl (fun m v => <[key v := val v]> m) m l)
  = list_to_set (map key l) ∪ dom m.
Proof.
  revert m. induction l as [|x l IH]; intros m; simpl.
  - by rewrite union_empty_l_L.
  - rewrite IH, dom_insert_L. apply set_eq. intros y.
    rewrite !elem_of_union, elem_of_singleton. tauto.
Qed.

Lemma size_list_to_set_le (l : list string) :
  size (list_to_set l : gset string) <= length l
  /\ (size (list_to_set l : gset string) = length l -> NoDup l).
Proof.
  induction l as [|x l [IH1 IH2]]; simpl.
  - split; [|intros _; apply NoDup_nil_2].
    change (size (∅ : gset string) <= 0). by rewrite size_empty.
  - change (size ({[x]} ∪ list_to_set l : gset string) <= S (length l)
            /\ (size ({[x]} ∪ list_to_set l : gset string) = S (length l)
                -> NoDup (x :: l))).
    destruct (decide (x ∈ l)) as [Hx|Hx].
    + assert (He : ({[x]} ∪ list_to_set l : gset string) = list_to_set l).
      { apply subseteq_union_1_L, singleton_subseteq_l.
        by apply elem_of_list_to_set. }
      rewrite He. split; lia.
    + rewrite size_union, size_singleton.
      * split; [lia|]. intros H. apply NoDup_cons. split; [done|].
        apply IH2. lia.
      * apply disjoint_singleton_l. by rewrite elem_of_list_to_set.
Qed.

(** X6. In the interface that the constructors derive, a name is bound to
    the variable of the last input (output) declared under it, and to
    nothing when there is none; the derived output bindings are one per
    output, in order.  So the interface has as many outputs as there are
    bindings exactly when no two outputs share a name. *)
Theorem derived_interface_last_wins (inputs : list Input) (outs : list Output)
    (k : string) :
  input_vars inputs !! k
    = in_var <$> last (filter (fun v => in_name v = k) inputs)
  /\ output_vars outs !! k
    = out_var <$> last (filter (fun v => out_name v = k) outs)
  /\ map b_var (output_bindings_of outs) = map out_name outs
  /\ map b_binding (output_bindings_of outs) = map out_binding_data outs
  /\ size (output_vars outs) <= length (output_bindings_of outs)
  /\ (size (output_vars outs) = length (output_bindings_of outs)
      <-> NoDup (map out_name outs)).
Proof.
  unfold input_vars, output_vars, output_bindings_of.
  rewrite !foldl_insert_lookup, !lookup_empty, !map_map, length_map.
  assert (Hs : size (foldl (fun m v => <[out_name v := out_var v]> m)
                       (∅ : gmap string Var) outs)
               = size (list_to_set (map out_name outs) : gset string)).
  { rewrite <- size_dom, foldl_insert_dom, dom_empty_L, union_empty_r_L. done. }
  rewrite Hs. destruct (size_list_to_set_le (map out_name outs)) as [H1 H2].
  rewrite length_map in H1, H2.
  split; [by destruct (last _)|]. split; [by destruct (last _)|].
  split; [done|]. split; [done|]. split; [done|]. split; [done|].
  intros Hnd. rewrite size_list_to_set by done. by rewrite length_map.
Qed.

(** Two outputs under one name: two bindings, one interface entry. *)
Lemma derived_interface_last_wins_witness :
  size (output_vars SampleInterface.twice) = 1
  /\ length (output_bindings_of SampleInterface.twice) = 2
  /\ output_vars SampleInterface.twice !! "r" = Some (mkVar "Int" "2").
Proof.
  destruct (derived_interface_last_wins [] SampleInterface.twice "r")
    as (_ & Hl & _ & _ & _ & _).
  split; [vm_compute; reflexivity|]. split; [reflexivity|].
  rewrite Hl. reflexivity.
Defined.

(** ** construct_from_class_definition *)

(** X7. Once the upstream check has passed, [construct_from_class_definition]
    always returns and draws exactly one identifier: the workflow has the
    id made of the configured project, domain and version and of that
    identifier, the interface and the output bindings derived from the
    inputs and outputs, the given metadata or the default one, and no
    authoring-time inputs of its own, while the wrapper keeps the inputs
    and the nodes.  Two constructions in a row give two ids when [uuid4]
    does not repeat itself. *)
Theorem construct_from_class_definition_result (cfg : Config) (h : Heap)
    (inputs : list Input) (outs : list Output) (ns : list SdkNode)
    (md : option WorkflowMetadata) (mdd : option WorkflowMetadataDefaults)
    (drawn : nat) :
  check_nodes h ns = Ok tt ->
  construct_from_class_definition cfg h inputs outs ns md mdd drawn
  = (Ok (mkPythonWorkflow
           (mkSdkWorkflow
              (mkIdentifier WORKFLOW (PROJECT cfg) (DOMAIN cfg)
                 (uuid4_hex cfg drawn) (VERSION cfg))
              (default (mkWorkflowMetadata None) md)
              (default (mkWorkflowMetadataDefaults None) mdd)
              (mkTypedInterface (input_vars inputs) (output_vars outs))
              ns (output_bindings_of outs) None)
           inputs ns inputs),
     S drawn)
  /\ (forall inputs' outs' ns' md' mdd' p1 p2 d1 d2,
        (forall i j, uuid4_hex cfg i = uuid4_hex cfg j -> i = j) ->
        construct_from_class_definition cfg h inputs outs ns md mdd drawn
          = (Ok p1, d1) ->
        construct_from_class_definition cfg h inputs' outs' ns' md' mdd' d1
          = (Ok p2, d2) ->
        w_id (flyte_workflow p1) <> w_id (flyte_workflow p2)).
Proof.
  intros Hc.
  assert (Hres : forall ins os nodes0 m1 m2 k,
            check_nodes h nodes0 = Ok tt ->
            construct_from_class_definition cfg h ins os nodes0 m1 m2 k
            = (Ok (mkPythonWorkflow
                     (mkSdkWorkflow
                        (mkIdentifier WORKFLOW (PROJECT cfg) (DOMAIN cfg)
                           (uuid4_hex cfg k) (VERSION cfg))
                        (default (mkWorkflowMetadata None) m1)
                        (default (mkWorkflowMetadataDefaults None) m2)
                        (mkTypedInterface (input_vars ins) (output_vars os))
                        nodes0 (output_bindings_of os) None)
                     ins nodes0 ins), S k)).
  { intros ins os nodes0 m1 m2 k Hk.
    unfold construct_from_class_definition, SdkWorkflow_init. by rewrite Hk. }
  split; [by apply Hres|].
  intros inputs' outs' ns' md' mdd' p1 p2 d1 d2 Hinj H1 H2.
  rewrite (Hres _ _ _ _ _ _ Hc) in H1. injection H1 as <- <-.
  destruct (check_nodes h ns') as [[]|e] eqn:Hc'.
  - rewrite (Hres _ _ _ _ _ _ Hc') in H2. injection H2 as <- <-. simpl.
    intros [= Heq]. apply Hinj in Heq. lia.
  - unfold construct_from_class_definition in H2. by rewrite Hc' in H2.
Qed.

Lemma construct_from_class_definition_result_witness :
  exists p, construct_from_class_definition Sample.cfg SampleHeap.heap [] []
              SampleHeap.attached None None 0 = (Ok p, 1)
            /\ name (w_id (flyte_workflow p)) = "uuid0"
            /\ user_inputs (flyte_workflow p) = None.
Proof.
  eexists. split.
  - apply (construct_from_class_definition_result Sample.cfg SampleHeap.heap [] []
             SampleHeap.attached None None 0 eq_refl).
  - split; reflexivity.
Defined.

(** ** Calling a workflow *)

(** X8. With a positional argument, calling a workflow raises the assertion
    error that counts the positional arguments, whatever the keyword
    arguments and the resolver; without one, an error of the resolver is
    the error of the call.  The node that a call returns has no id: a
    workflow one of whose nodes has it upstream cannot be constructed
    before the node is given one. *)
Theorem call_rejects_positional_and_returns_unassigned
    (resolve : TypedInterface -> list (string * Arg) -> result (list Binding * list addr))
    (self : SdkWorkflow) (kw : list (string * Arg)) :
  (forall a args,
     SdkWorkflow_call resolve self (a :: args) kw
     = Raise (FlyteAssertion (positional_args_msg (S (length args)))))
  /\ (forall e, resolve (interface self) kw = Raise e ->
        SdkWorkflow_call resolve self [] kw = Raise e)
  /\ (forall n, SdkWorkflow_call resolve self [] kw = Ok n ->
        n_id n = None
        /\ executable_sdk_object n = Some (ExWorkflow self)
        /\ forall cfg h u m ns inputs outs id md mdd iface ob drawn,
             h !! u = Some (ONode n) -> m ∈ ns -> u ∈ upstream_nodes m ->
             upstream_refs_are_nodes h ns ->
             SdkWorkflow_init cfg h inputs outs ns id md mdd iface ob drawn
             = (Raise (FlyteAssertion missing_node_msg), drawn)).
Proof.
  split; [done|]. split.
  - intros e He. unfold SdkWorkflow_call. simpl. by rewrite He.
  - intros n Hn. unfold SdkWorkflow_call in Hn. simpl in Hn.
    destruct (resolve (interface self) kw) as [r|e]; [|done].
    simpl in Hn. injection Hn as <-. split; [done|]. split; [done|].
    intros cfg h u m ns inputs outs id md mdd iface ob drawn Hu Hm Hin Hty.
    destruct (check_nodes_cases h ns Hty) as [[Hc _]|[_ Hno]].
    + unfold SdkWorkflow_init. by rewrite Hc.
    + destruct Hno. by exists m, u, (SdkNode_for_workflow None
        (mkNodeMetadata "placeholder" 0 0) r.2 (sorted b_var r.1) self).
Qed.

Lemma call_rejects_positional_and_returns_unassigned_witness :
  exists n, SdkWorkflow_call SampleCall.resolve Sample.W2 [] SampleCall.kw_ab = Ok n
    /\ SdkWorkflow_init Sample.cfg [ONode n] None None [Sample.task_node "t" [0]]
         None None None None None 0
       = (Raise (FlyteAssertion missing_node_msg), 0).
Proof.
  eexists. split; [reflexivity|].
  eapply (proj2 (proj2 (proj2 (call_rejects_positional_and_returns_unassigned
            SampleCall.resolve Sample.W2 SampleCall.kw_ab)) _ eq_refl))
    with (u := 0) (m := Sample.task_node "t" [0]).
  - reflexivity.
  - apply list_elem_of_singleton. reflexivity.
  - apply list_elem_of_singleton. reflexivity.
  - intros m u Hm Hu. apply list_elem_of_singleton in Hm as ->.
    apply list_elem_of_singleton in Hu as ->. eexists. reflexivity.
Defined.

Lemma dict_get_set_eq {V : Type} (k : string) (v : V) (d : list (string * V)) :
  dict_get k (dict_set k v d) = Ok v.
Proof.
  induction d as [|[k' v'] d IH]; simpl.
  - by rewrite String.eqb_refl.
  - destruct (String.eqb k k') eqn:Hk; simpl.
    + by rewrite String.eqb_refl.
    + by rewrite Hk.
Qed.

Lemma dict_get_set_ne {V : Type} (k k0 : string) (v : V) (d : list (string * V)) :
  k <> k0 -> dict_get k (dict_set k0 v d) = dict_get k d.
Proof.
  intros Hne. induction d as [|[k' v'] d IH]; simpl.
  - by rewrite (proj2 (String.eqb_neq k k0)).
  - destruct (String.eqb k0 k') eqn:Hk; simpl.
    + apply String.eqb_eq in Hk as <-.
      by rewrite (proj2 (String.eqb_neq k k0)).
    + destruct (String.eqb k k'); [done|exact IH].
Qed.

Lemma dict_set_NoDup {V : Type} (k : string) (v : V) (d : list (string * V)) :
  NoDup (dict_keys d) -> NoDup (dict_keys (dict_set k v d)).
Proof.
  unfold dict_keys. induction d as [|[k' v'] d IH]; simpl; intros Hnd.
  - apply NoDup_singleton.
  - apply NoDup_cons in Hnd as [Hk' Hnd].
    destruct (String.eqb k k') eqn:Hk; simpl.
    + apply String.eqb_eq in Hk as ->. by apply NoDup_cons.
    + apply NoDup_cons. split; [|by apply IH].
      intros Hin. apply (dict_set_keys k k' v d) in Hin as [->|Hin]; [|done].
      by rewrite String.eqb_refl in Hk.
Qed.

Lemma foldl_dict_set_get {A V : Type} (key : A -> string) (val : A -> V)
    (l : list A) (d : list (string * V)) (k : string) :
  dict_get k (foldl (fun d x => dict_set (key x) (val x) d) d l)
  = match last (filter (fun x => key x = k) l) with
    | Some x => Ok (val x)
    | None => dict_get k d
    end.
Proof.
  revert d. induction l as [|x l IH]; intros d; simpl; [done|].
  rewrite IH. destruct (decide (key x = k)) as [Hk|Hk].
  - rewrite filter_cons_True by done. rewrite last_cons.
    destruct (last _); [done|]. by rewrite <- Hk, dict_get_set_eq.
  - rewrite filter_cons_False by done.
    destruct (last _); [done|]. by rewrite dict_get_set_ne.
Qed.

Lemma foldl_dict_set_NoDup {A V : Type} (key : A -> string) (val : A -> V)
    (l : list A) (d : list (string * V)) :
  NoDup (dict_keys d) ->
  NoDup (dict_keys (foldl (fun d x => dict_set (key x) (val x) d) d l)).
Proof.
  revert d. induction l as [|x l IH]; intros d Hd; simpl; [done|].
  by apply IH, dict_set_NoDup.
Qed.

(** X9. [PythonWorkflow.__call__] calls the workflow with keyword arguments
    in which every keyword occurs once: a keyword of the call has the value
    the caller gave it (the last one, if it is given twice), any other
    name has the default of the last declared input of that name that is not
    required, and a name that is neither is not passed at all. *)
Theorem python_call_compiles_defaults
    (resolve : TypedInterface -> list (string * Arg) -> result (list Binding * list addr))
    (self : PythonWorkflow) (args : list Arg) (input_map : list (string * Arg)) :
  exists compiled_inputs,
    PythonWorkflow_call resolve self args input_map
    = SdkWorkflow_call resolve (flyte_workflow self) args compiled_inputs
    /\ NoDup (dict_keys compiled_inputs)
    /\ forall k,
         dict_get k compiled_inputs
         = match last (filter (fun p => p.1 = k) input_map) with
           | Some p => Ok p.2
           | None =>
               match last (filter (fun v => in_name v = k)
                             (filter (fun v => sdk_required v = false)
                                (pw_user_inputs self))) with
               | Some v => Ok (arg_of_default (sdk_default v))
               | None => Raise (KeyError k)
               end
           end.
Proof.
  eexists. split; [reflexivity|]. unfold dict_update. split.
  - apply (foldl_dict_set_NoDup fst snd), (foldl_dict_set_NoDup in_name).
    apply NoDup_nil_2.
  - intros k. rewrite (foldl_dict_set_get fst snd).
    destruct (last (filter _ input_map)); [done|].
    by rewrite (foldl_dict_set_get in_name
                  (fun v => arg_of_default (sdk_default v))).
Qed.

(** ** Launch plans, continued *)

Lemma filter_name_unfixed (inputs : list Input) (fixed : gmap string Value)
    (k : string) :
  fixed !! k = None ->
  filter (fun v => in_name v = k)
    (filter (fun v => fixed !! in_name v = None) inputs)
  = filter (fun v => in_name v = k) inputs.
Proof.
  intros Hk. induction inputs as [|v l IH]; [done|].
  destruct (decide (in_name v = k)) as [Hv|Hv].
  - rewrite (filter_cons_True (fun v => fixed !! in_name v = None))
      by (by rewrite Hv).
    rewrite !(filter_cons_True (fun v => in_name v = k)) by done.
    by rewrite IH.
  - rewrite (filter_cons_False (fun v => in_name v = k) v l) by done.
    destruct (decide (fixed !! in_name v = None)) as [Hf|Hf].
    + rewrite (filter_cons_True (fun v => fixed !! in_name v = None)) by done.
      by rewrite (filter_cons_False (fun v => in_name v = k)).
    + by rewrite (filter_cons_False (fun v => fixed !! in_name v = None)).
Qed.

Lemma declared_defaults_lookup (inputs : list Input) (fixed : gmap string Value)
    (k : string) :
  declared_defaults inputs fixed !! k
  = if bool_decide (is_Some (fixed !! k)) then None
    else last (filter (fun v => in_name v = k) inputs).
Proof.
  unfold declared_defaults.
  rewrite (foldl_insert_lookup in_name (fun v => v)), lookup_empty.
  case_bool_decide as Hfix.
  - destruct (last _) as [v|] eqn:Hl; [|done].
    apply last_Some_elem_of in Hl.
    apply list_elem_of_filter in Hl as [Hv Hl].
    apply list_elem_of_filter in Hl as [Hf _].
    rewrite Hv in Hf. rewrite Hf in Hfix. by destruct Hfix.
  - rewrite filter_name_unfixed.
    + by destruct (last _).
    + destruct (fixed !! k) eqn:Hk; [|done]. destruct Hfix. by eexists.
Qed.

(** X10. [PythonWorkflow.create_launch_plan] raises its [ValueError] without
    calling [AuthRole] or the launch plan constructor when [role] is set
    together with one of the two auth arguments.  Otherwise it calls
    [AuthRole] with the role (if set) as the IAM role; an error of that call
    is its error and the launch plan constructor is not called; else the
    constructor is called with the auth role so made, its result is the
    result, and the default inputs are, name by name: the caller's default
    input renamed to its key; else, for a name that is not fixed, the last
    declared input of that name, as it is; else nothing.  Every default
    input handed over carries the name of its key. *)
Theorem launch_plan_default_inputs
    (LP : Type)
    (AuthRole_init : option string -> option string -> result AuthRole)
    (ctor : RunnableLaunchPlanArgs -> result LP)
    (self : PythonWorkflow) (default_inputs : option (gmap string Input))
    (fixed_inputs : option (gmap string Value)) (schedule : option Schedule)
    (role : option string) (notifications : option (list Notification))
    (labels annotations : option (gmap string string))
    (iam ksa : option string) :
  let result :=
    PythonWorkflow_create_launch_plan LP AuthRole_init ctor self default_inputs
      fixed_inputs schedule role notifications labels annotations iam ksa in
  (truthy role && (truthy iam || truthy ksa) = true ->
     result = Raise (ValueError
       "Cannot set both role and auth. Role is deprecated, use auth instead."))
  /\ (truthy role && (truthy iam || truthy ksa) = false ->
      (forall e, AuthRole_init (if truthy role then role else iam) ksa = Raise e ->
         result = Raise e)
      /\ forall auth,
           AuthRole_init (if truthy role then role else iam) ksa = Ok auth ->
           exists args,
             result = ctor args
             /\ rlp_sdk_workflow args = self
             /\ rlp_fixed_inputs args = default ∅ fixed_inputs
             /\ rlp_auth_role args = auth
             /\ (forall k,
                   rlp_default_inputs args !! k
                   = match default ∅ default_inputs !! k with
                     | Some i => Some (Input_rename_and_return_reference i k)
                     | None =>
                         if bool_decide (is_Some (default ∅ fixed_inputs !! k))
                         then None
                         else last (filter (fun v => in_name v = k)
                                      (pw_workflow_inputs self))
                     end)
             /\ (forall k i, rlp_default_inputs args !! k = Some i ->
                   in_name i = k)).
Proof.
  intros result. subst result. unfold PythonWorkflow_create_launch_plan. split.
  - intros Hrole. by rewrite Hrole.
  - intros Hrole. rewrite Hrole. split.
    + intros e He. by rewrite He.
    + intros auth Hauth. rewrite Hauth. simpl.
      eexists. split; [reflexivity|]. simpl.
      split; [done|]. split; [done|]. split; [done|].
      assert (Hlk : forall k,
        map_imap (fun k user_input =>
                    Some (Input_rename_and_return_reference user_input k))
          (default ∅ default_inputs
             ∪ declared_defaults (pw_workflow_inputs self) (default ∅ fixed_inputs))
          !! k
        = match default ∅ default_inputs !! k with
          | Some i => Some (Input_rename_and_return_reference i k)
          | None =>
              if bool_decide (is_Some (default ∅ fixed_inputs !! k)) then None
              else last (filter (fun v => in_name v = k) (pw_workflow_inputs self))
          end).
      { intros k. rewrite map_lookup_imap.
        destruct (default ∅ default_inputs !! k) as [i|] eqn:Hd.
        - by rewrite (lookup_union_Some_l _ _ _ _ Hd).
        - rewrite lookup_union_r by done. rewrite declared_defaults_lookup.
          case_bool_decide as Hfix; [done|].
          destruct (last _) as [v|] eqn:Hl; [|done]. simpl.
          apply last_Some_elem_of, list_elem_of_filter in Hl as [Hv _].
          rewrite <- Hv. by destruct v. }
      split; [exact Hlk|].
      intros k i Hi. rewrite map_lookup_imap in Hi.
      destruct (_ !! k) as [j|]; [|done]. simpl in Hi. by injection Hi as <-.
Qed.

Lemma launch_plan_default_inputs_witness :
  (exists args,
     PythonWorkflow_create_launch_plan _ sample_auth_role
       SdkRunnableLaunchPlan_init SampleLaunch.pw (Some SamplePlan.defaults)
       None None (Some "r") None None None (Some "") None = Ok args
     /\ rlp_auth_role args = mkAuthRole (Some "r") None
     /\ rlp_default_inputs args !! "a"
        = Some (mkInput "a" (mkVar "Int" "") false (Some "7"))
     /\ rlp_default_inputs args !! "b" = Some SampleLaunch.b)
  /\ PythonWorkflow_create_launch_plan _ sample_auth_role
       SdkRunnableLaunchPlan_init SampleLaunch.pw None None None None None None
       None (Some "iam") (Some "sa")
     = Raise (ValueError
                "Only one of assumable_iam_role or kubernetes_service_account can be set").
Proof.
  split.
  - destruct (proj2 (proj2 (launch_plan_default_inputs _ sample_auth_role
                SdkRunnableLaunchPlan_init SampleLaunch.pw
                (Some SamplePlan.defaults) None None (Some "r") None None None
                (Some "") None) eq_refl)
                (mkAuthRole (Some "r") None) eq_refl)
      as (args & Hc & _ & Hf & Ha & Hl & _).
    exists args. split.
    + rewrite Hc. unfold SdkRunnableLaunchPlan_init. rewrite Hf. simpl.
      rewrite bool_decide_true; [done|].
      by rewrite dom_empty_L, intersection_empty_l_L.
    + split; [exact Ha|]. split; [rewrite Hl; reflexivity|].
      rewrite Hl. reflexivity.
  - exact (proj1 (proj2 (launch_plan_default_inputs _ sample_auth_role
             SdkRunnableLaunchPlan_init SampleLaunch.pw None None None None None
             None None (Some "iam") (Some "sa")) eq_refl) _ eq_refl).
Defined.

(** X11. [SdkWorkflow.create_launch_plan] packs the fixed inputs with a type
    for exactly the fixed names that the interface declares (a fixed name that
    the interface does not have gets no type); when packing raises, that
    is the error and the launch plan constructor is not called; otherwise the
    constructor is called with no workflow id, the packed fixed inputs, the
    default inputs and the auth role as given, and an empty schedule, no
    notifications, no labels and no annotations where none were given. *)
Theorem sdk_launch_plan_arguments
    (SdkType LiteralMap LP : Type) (get_type : LiteralType -> SdkType)
    (pack : gmap string Value -> gmap string SdkType -> result LiteralMap)
    (ctor : LaunchPlanArgs LiteralMap -> result LP)
    (self : SdkWorkflow) (default_inputs : option (gmap string Input))
    (fixed_inputs : option (gmap string Value)) (schedule : option Schedule)
    (notifications : option (list Notification))
    (labels annotations : option (gmap string string))
    (auth_role : option AuthRole) :
  let result :=
    SdkWorkflow_create_launch_plan SdkType LiteralMap LP get_type pack ctor self
      default_inputs fixed_inputs schedule notifications labels annotations
      auth_role in
  exists types,
    (forall k,
       types !! k
       = if bool_decide (is_Some (default ∅ fixed_inputs !! k))
         then get_type ∘ var_type <$> ti_inputs (interface self) !! k
         else None)
    /\ dom types = dom (default ∅ fixed_inputs) ∩ dom (ti_inputs (interface self))
    /\ (forall e, pack (default ∅ fixed_inputs) types = Raise e ->
          result = Raise e)
    /\ (forall lm, pack (default ∅ fixed_inputs) types = Ok lm ->
          result
          = ctor (mkLaunchPlanArgs None
                    (mkLaunchPlanMetadata
                       (match schedule with Some s => s | None => mkSchedule "" end)
                       (match notifications with Some l => l | None => [] end))
                    default_inputs lm
                    (match labels with Some l => l | None => ∅ end)
                    (match annotations with Some l => l | None => ∅ end)
                    auth_role)).
Proof.
  intros result. subst result. unfold SdkWorkflow_create_launch_plan.
  eexists.
  assert (Hlk : forall k,
    (get_type ∘ var_type <$>
       filter (fun kv => is_Some (default ∅ fixed_inputs !! kv.1))
         (ti_inputs (interface self))) !! k
    = if bool_decide (is_Some (default ∅ fixed_inputs !! k))
      then get_type ∘ var_type <$> ti_inputs (interface self) !! k
      else None).
  { intros k. rewrite lookup_fmap. case_bool_decide as Hfix.
    - f_equal. destruct (ti_inputs (interface self) !! k) as [x|] eqn:Hx.
      + apply map_lookup_filter_Some. by split.
      + apply map_lookup_filter_None. by left.
    - replace (filter _ _ !! k) with (@None Var); [done|].
      symmetry. apply map_lookup_filter_None. right. intros x _. exact Hfix. }
  split; [exact Hlk|]. split; [|split].
  - apply set_eq. intros k. rewrite elem_of_intersection, !elem_of_dom, Hlk.
    case_bool_decide as Hfix.
    + rewrite <- lookup_fmap, lookup_fmap, fmap_is_Some. tauto.
    + split; [by intros [? ?]|tauto].
  - intros e He. simpl. by rewrite He.
  - intros lm Hlm. simpl. rewrite Hlm. simpl.
    by destruct schedule, notifications, labels, annotations.
Qed.

Lemma sdk_launch_plan_arguments_witness :
  SdkWorkflow_create_launch_plan _ _ _ (fun t => t) SampleLaunch.failing_pack
    (fun args => Ok args) Sample.W2 None (Some SamplePlan.fixed) None None None
    None None
  = Raise (TypeError "cannot pack").
Proof.
  destruct (sdk_launch_plan_arguments _ _ _ (fun t => t)
              SampleLaunch.failing_pack (fun args => Ok args) Sample.W2 None
              (Some SamplePlan.fixed) None None None None None)
    as (types & _ & _ & He & _).
  exact (He _ eq_refl).
Defined.

(** ** Discovery, continued *)

Lemma queue_inv_loop (assign : SdkNode -> string -> result SdkNode)
    (top : gset string) (workflow_class : list (string * addr))
    (fuel : nat) (st st' : Discovery) :
  queue_inv workflow_class st ->
  discover_loop assign fuel top st = Some (Ok st') ->
  queue_inv workflow_class st'.
Proof.
  intros Hinit Hl.
  apply (discover_loop_invariant assign top (queue_inv workflow_class))
    with (fuel := fuel) (st := st); try done.
  - intros h nm a rest vis ins outs ns log [ch HP] Ha. exists ch.
    simpl in *. by rewrite <- app_assoc.
  - intros h nm a rest vis ins outs ns log st1 [ch HP] Ha Hv. simpl in HP.
    assert (Hsame : (log ++ [(nm, a)]) ++ rest = workflow_class ++ ch).
    { by rewrite <- app_assoc. }
    assert (Hmore : forall l, (log ++ [(nm, a)]) ++ rest ++ l
                              = workflow_class ++ ch ++ l).
    { intros l. by rewrite !app_assoc, Hsame. }
    revert Hv. unfold visit.
    destruct (h !! a) as [[n|i|o|elems|items|]|]; simpl.
    + destruct (assign n nm); simpl; [|done]. intros [= <-]. by exists ch.
    + case_bool_decide as Hdec; [done|]. intros [= <-]. by exists ch.
    + case_bool_decide as Hdec; [done|]. intros [= <-]. by exists ch.
    + intros [= <-]. exists (ch ++ seq_children nm elems). apply Hmore.
    + intros [= <-]. exists (ch ++ dict_children nm items). apply Hmore.
    + intros [= <-]. by exists ch.
    + intros [= <-]. by exists ch.
Qed.

(** X12. Discovery takes the attributes of the class from the queue, in
    their order, before anything that a container holds.  So an input,
    output or node that is the value of an attribute is collected under the
    name of the first attribute that holds it, also when a container that
    is visited earlier holds it too: the input or output is renamed to that
    name, the node is given the id made from it. *)
Theorem discovery_prefers_attribute_names
    (assign : SdkNode -> string -> result SdkNode)
    (h : Heap) (workflow_class : list (string * addr)) (st : Discovery) :
  discover_state assign h workflow_class = Some (Ok st) ->
  (exists rest, visit_log st = workflow_class ++ rest)
  /\ forall a nm,
       first_visit workflow_class a = Some nm ->
       first_visit (visit_log st) a = Some nm
       /\ (forall i0, h !! a = Some (OInput i0) ->
             (a, Input_rename_and_return_reference i0 nm) ∈ d_inputs st)
       /\ (forall o0, h !! a = Some (OOutput o0) ->
             (a, Output_rename_and_return_reference o0 nm) ∈ d_outputs st)
       /\ (forall n0, h !! a = Some (ONode n0) ->
             exists n, assign n0 nm = Ok n /\ (a, n) ∈ d_nodes st).
Proof.
  intros Hst.
  destruct (discovery_collects_each_object_once_aux assign h workflow_class st Hst)
    as (Hcov & _ & Hi & Ho & Hn & Hq).
  assert (Hlog : exists rest, visit_log st = workflow_class ++ rest).
  { unfold discover_state in Hst.
    eapply queue_inv_loop in Hst as [ch Hch].
    - exists ch. by rewrite Hq, app_nil_r in Hch.
    - exists []. simpl. by rewrite app_nil_r. }
  split; [exact Hlog|]. destruct Hlog as [rest Hlog].
  intros a nm Hf.
  assert (Hfirst : first_visit (visit_log st) a = Some nm).
  { by rewrite Hlog, first_visit_app, Hf. }
  split; [exact Hfirst|].
  assert (Hr : reachable h workflow_class a).
  { apply (reach_attribute h workflow_class nm). by apply first_visit_elem. }
  specialize (Hcov a Hr). unfold collected_if_entity in Hcov.
  split; [|split].
  - intros i0 Ha. rewrite Ha in Hcov.
    apply list_elem_of_fmap in Hcov as ([a' i] & Heq & Hin). simpl in Heq. subst a'.
    destruct (Hi a i Hin) as (nm' & i0' & Hf' & _ & Ha' & ->).
    rewrite Hfirst in Hf'. injection Hf' as <-.
    rewrite Ha in Ha'. by injection Ha' as <-.
  - intros o0 Ha. rewrite Ha in Hcov.
    apply list_elem_of_fmap in Hcov as ([a' o] & Heq & Hin). simpl in Heq. subst a'.
    destruct (Ho a o Hin) as (nm' & o0' & Hf' & _ & Ha' & ->).
    rewrite Hfirst in Hf'. injection Hf' as <-.
    rewrite Ha in Ha'. by injection Ha' as <-.
  - intros n0 Ha. rewrite Ha in Hcov.
    apply list_elem_of_fmap in Hcov as ([a' n] & Heq & Hin). simpl in Heq. subst a'.
    destruct (Hn a n Hin) as (nm' & n0' & Hf' & Ha' & Hass).
    rewrite Hfirst in Hf'. injection Hf' as <-.
    rewrite Ha in Ha'. injection Ha' as <-. by exists n.
Qed.

Lemma discovery_prefers_attribute_names_witness :
  exists st n,
    discover_state assign_id_once SampleSurface.heap SampleSurface.surface
    = Some (Ok st)
    /\ first_visit (visit_log st) 2 = Some "d"
    /\ n_id n = Some "d" /\ (2, n) ∈ d_nodes st.
Proof.
  eexists.
  assert (Hst : discover_state assign_id_once SampleSurface.heap
                  SampleSurface.surface = Some (Ok _)) by (vm_compute; reflexivity).
  destruct (proj2 (discovery_prefers_attribute_names assign_id_once
                     SampleSurface.heap SampleSurface.surface _ Hst) 2 "d" eq_refl)
    as (Hf & _ & _ & Hn).
  destruct (Hn _ eq_refl) as (n & Hass & Hin).
  exists n. split; [exact Hst|]. split; [exact Hf|]. split; [|exact Hin].
  injection Hass as <-. reflexivity.
Defined.

Section DiscoveryHeap.
Variable assign : SdkNode -> string -> result SdkNode.
Variable top : gset string.
Variable h0 : Heap.

Lemma heap_inv_visit h nm a rest vis ins outs ns log st' :
  heap_inv h0 (mkDiscovery h ((nm, a) :: rest) vis ins outs ns log) ->
  a ∉ vis ->
  visit assign top
    (mkDiscovery h rest ({[a]} ∪ vis) ins outs ns (log ++ [(nm, a)])) nm a = Ok st' ->
  heap_inv h0 st'.
Proof.
  intros (H1 & H2 & H3 & H4 & H5 & H6) Ha.
  unfold collected_addrs in *. simpl in *.
  assert (Hfresh : a ∉ map fst ins ++ map fst outs ++ map fst ns).
  { intros Hin. by apply Ha, H2. }
  assert (Hh : h !! a = h0 !! a) by by apply H6.
  assert (Hin : a ∈ ({[a]} ∪ vis : gset addr)).
  { apply elem_of_union. left. by apply elem_of_singleton. }
  assert (Hsub : forall b, b ∈ vis -> b ∈ ({[a]} ∪ vis : gset addr)).
  { intros b Hb. apply elem_of_union. by right. }
  assert (Hne : forall b, b ∈ map fst ins ++ map fst outs ++ map fst ns -> a <> b).
  { intros b Hb ->. by apply Hfresh. }
  assert (Hins : forall b (i : Input), (b, i) ∈ ins ->
                   b ∈ map fst ins ++ map fst outs ++ map fst ns).
  { intros b i Hb. apply elem_of_app. left. by apply (list_elem_of_fmap_2 fst) in Hb. }
  assert (Houts : forall b (o : Output), (b, o) ∈ outs ->
                    b ∈ map fst ins ++ map fst outs ++ map fst ns).
  { intros b o Hb. apply elem_of_app. right. apply elem_of_app. left.
    by apply (list_elem_of_fmap_2 fst) in Hb. }
  assert (Hns : forall b (n : SdkNode), (b, n) ∈ ns ->
                  b ∈ map fst ins ++ map fst outs ++ map fst ns).
  { intros b n Hb. apply elem_of_app. right. apply elem_of_app. right.
    by apply (list_elem_of_fmap_2 fst) in Hb. }
  assert (Hcontainer :
    heap_inv h0 (mkDiscovery h rest ({[a]} ∪ vis) ins outs ns (log ++ [(nm, a)]))).
  { unfold heap_inv, collected_addrs. simpl.
    split; [done|]. split; [|done]. intros b Hb. by apply Hsub, H2. }
  assert (Hcont : forall q,
    heap_inv h0 (mkDiscovery h q ({[a]} ∪ vis) ins outs ns (log ++ [(nm, a)]))).
  { intros q. exact Hcontainer. }
  unfold visit. destruct (h !! a) as [[n|i|o|elems|items|]|] eqn:Ho.
  - destruct (assign n nm) as [n'|e] eqn:Hn; simpl; [|done]. intros [= <-].
    assert (Hlt : a < length h) by by eapply lookup_lt_Some.
    unfold heap_inv, collected_addrs. simpl.
    split; [by rewrite length_insert|]. split; [|split; [|split; [|split]]].
    + intros b Hb. rewrite map_app, !app_assoc in Hb.
      apply elem_of_app in Hb as [Hb|Hb].
      * apply Hsub, H2. by rewrite !app_assoc.
      * apply list_elem_of_singleton in Hb. by subst b.
    + intros b i Hb. rewrite list_lookup_insert_ne by eauto. by apply H3.
    + intros b o Hb. rewrite list_lookup_insert_ne by eauto. by apply H4.
    + intros b m [Hb|Hb]%elem_of_app.
      * rewrite list_lookup_insert_ne by eauto. by apply H5.
      * apply list_elem_of_singleton in Hb. injection Hb as -> ->.
        rewrite list_lookup_insert_eq by done. split; [done|].
        exists n. by rewrite <- Hh.
    + intros b Hb. rewrite map_app, !app_assoc in Hb.
      rewrite list_lookup_insert_ne.
      * apply H6. intros Hc. apply Hb. apply elem_of_app. left.
        by rewrite !app_assoc in Hc.
      * intros ->. apply Hb. apply elem_of_app. right. by left.
  - case_bool_decide as Ht; [done|]. intros [= <-].
    assert (Hlt : a < length h) by by eapply lookup_lt_Some.
    unfold heap_inv, collected_addrs. simpl.
    split; [by rewrite length_insert|]. split; [|split; [|split; [|split]]].
    + intros b Hb. rewrite map_app, <- app_assoc in Hb.
      apply elem_of_app in Hb as [Hb|Hb].
      * apply Hsub, H2. apply elem_of_app. by left.
      * apply elem_of_cons in Hb as [->|Hb]; [done|].
        apply Hsub, H2. apply elem_of_app. by right.
    + intros b m [Hb|Hb]%elem_of_app.
      * rewrite list_lookup_insert_ne by eauto. by apply H3.
      * apply list_elem_of_singleton in Hb. injection Hb as -> ->.
        rewrite list_lookup_insert_eq by done. split; [done|].
        exists i. by rewrite <- Hh.
    + intros b o Hb. rewrite list_lookup_insert_ne by eauto. by apply H4.
    + intros b m Hb. rewrite list_lookup_insert_ne by eauto. by apply H5.
    + intros b Hb. rewrite map_app, <- app_assoc in Hb.
      rewrite list_lookup_insert_ne.
      * apply H6. intros Hc. apply Hb.
        apply elem_of_app in Hc as [Hc|Hc].
        -- apply elem_of_app. by left.
        -- apply elem_of_app. right. by right.
      * intros ->. apply Hb. apply elem_of_app. right. by left.
  - case_bool_decide as Ht; [done|]. intros [= <-].
    assert (Hlt : a < length h) by by eapply lookup_lt_Some.
    unfold heap_inv, collected_addrs. simpl.
    split; [by rewrite length_insert|]. split; [|split; [|split; [|split]]].
    + intros b Hb. rewrite map_app in Hb.
      apply elem_of_app in Hb as [Hb|Hb].
      * apply Hsub, H2. apply elem_of_app. by left.
      * rewrite <- app_assoc in Hb. apply elem_of_app in Hb as [Hb|Hb].
        -- apply Hsub, H2. apply elem_of_app. right. apply elem_of_app. by left.
        -- apply elem_of_cons in Hb as [->|Hb]; [done|].
           apply Hsub, H2. apply elem_of_app. right. apply elem_of_app. by right.
    + intros b m Hb. rewrite list_lookup_insert_ne by eauto. by apply H3.
    + intros b m [Hb|Hb]%elem_of_app.
      * rewrite list_lookup_insert_ne by eauto. by apply H4.
      * apply list_elem_of_singleton in Hb. injection Hb as -> ->.
        rewrite list_lookup_insert_eq by done. split; [done|].
        exists o. by rewrite <- Hh.
    + intros b m Hb. rewrite list_lookup_insert_ne by eauto. by apply H5.
    + intros b Hb. rewrite map_app in Hb.
      rewrite list_lookup_insert_ne.
      * apply H6. intros Hc. apply Hb.
        apply elem_of_app in Hc as [Hc|Hc]; [apply elem_of_app; by left|].
        apply elem_of_app. right. rewrite <- app_assoc.
        apply elem_of_app in Hc as [Hc|Hc]; [apply elem_of_app; by left|].
        apply elem_of_app. right. by right.
      * intros ->. apply Hb. apply elem_of_app. right. rewrite <- app_assoc.
        apply elem_of_app. right. by left.
  - intros [= <-]. apply Hcont.
  - intros [= <-]. apply Hcont.
  - intros [= <-]. apply Hcont.
  - intros [= <-]. apply Hcont.
Qed.

Lemma heap_inv_loop (fuel : nat) (st st' : Discovery) :
  heap_inv h0 st ->
  discover_loop assign fuel top st = Some (Ok st') ->
  heap_inv h0 st'.
Proof.
  intros Hinv Hl.
  apply (discover_loop_invariant assign top (heap_inv h0))
    with (fuel := fuel) (st := st); try done.
  intros h nm a rest vis ins outs ns log st1 HP Ha Hv.
  by eapply heap_inv_visit.
Qed.
End DiscoveryHeap.

Lemma heap_inv_final (assign : SdkNode -> string -> result SdkNode)
    (h : Heap) (workflow_class : list (string * addr)) (st : Discovery) :
  discover_state assign h workflow_class = Some (Ok st) -> heap_inv h st.
Proof.
  intros Hst. unfold discover_state in Hst.
  eapply heap_inv_loop; [|exact Hst].
  unfold heap_inv, collected_addrs. simpl.
  split; [done|]. split; [|split; [|split; [|split]]]; try done.
  - intros a Ha. by apply elem_of_nil in Ha.
  - intros a i Ha. by apply elem_of_nil in Ha.
  - intros a i Ha. by apply elem_of_nil in Ha.
  - intros a i Ha. by apply elem_of_nil in Ha.
Qed.

(** X13. Discovery changes the collected objects and nothing else.  In the
    heap it leaves, every collected input, output and node is the object at
    its address, in the place of an object of the same class; no object is
    added or removed; and every other object, so every container, is as
    it was. *)
Theorem discovery_changes_collected_objects_only
    (assign : SdkNode -> string -> result SdkNode)
    (h : Heap) (workflow_class : list (string * addr)) (st : Discovery) :
  discover_state assign h workflow_class = Some (Ok st) ->
  length (d_heap st) = length h
  /\ (forall a i, (a, i) ∈ d_inputs st ->
        d_heap st !! a = Some (OInput i) /\ exists i0, h !! a = Some (OInput i0))
  /\ (forall a o, (a, o) ∈ d_outputs st ->
        d_heap st !! a = Some (OOutput o) /\ exists o0, h !! a = Some (OOutput o0))
  /\ (forall a n, (a, n) ∈ d_nodes st ->
        d_heap st !! a = Some (ONode n) /\ exists n0, h !! a = Some (ONode n0))
  /\ (forall a, a ∉ collected_addrs st -> d_heap st !! a = h !! a)
  /\ (forall a elems, h !! a = Some (OSeq elems) ->
        d_heap st !! a = Some (OSeq elems))
  /\ (forall a items, h !! a = Some (ODict items) ->
        d_heap st !! a = Some (ODict items)).
Proof.
  intros Hst.
  destruct (heap_inv_final assign h workflow_class st Hst)
    as (H1 & H2 & H3 & H4 & H5 & H6).
  split; [done|]. split; [done|]. split; [done|]. split; [done|].
  split; [done|].
  assert (Hnc : forall a o, h !! a = Some o ->
                (forall x, o <> OInput x) -> (forall x, o <> OOutput x) ->
                (forall x, o <> ONode x) -> d_heap st !! a = Some o).
  { intros a o Ha Hi Ho Hn. rewrite H6; [done|]. unfold collected_addrs.
    intros Hin. apply elem_of_app in Hin as [Hin|Hin].
    - apply list_elem_of_fmap in Hin as ([a' x] & Heq & Hin). simpl in Heq. subst a'.
      destruct (H3 _ _ Hin) as (_ & x0 & Hx). rewrite Ha in Hx.
      injection Hx as ->. by eapply Hi.
    - apply elem_of_app in Hin as [Hin|Hin].
      + apply list_elem_of_fmap in Hin as ([a' x] & Heq & Hin). simpl in Heq. subst a'.
        destruct (H4 _ _ Hin) as (_ & x0 & Hx). rewrite Ha in Hx.
        injection Hx as ->. by eapply Ho.
      + apply list_elem_of_fmap in Hin as ([a' x] & Heq & Hin). simpl in Heq. subst a'.
        destruct (H5 _ _ Hin) as (_ & x0 & Hx). rewrite Ha in Hx.
        injection Hx as ->. by eapply Hn. }
  split; intros a x Ha; by apply Hnc.
Qed.

Lemma discovery_changes_collected_objects_only_witness :
  exists st,
    discover_state assign_id_once SampleSurface.heap SampleSurface.surface
    = Some (Ok st)
    /\ length (d_heap st) = 4
    /\ d_heap st !! 1 = Some (OSeq [2; 1; 2]).
Proof.
  eexists.
  assert (Hst : discover_state assign_id_once SampleSurface.heap
                  SampleSurface.surface = Some (Ok _)) by (vm_compute; reflexivity).
  destruct (discovery_changes_collected_objects_only assign_id_once
              SampleSurface.heap SampleSurface.surface _ Hst)
    as (Hlen & _ & _ & _ & _ & Hseq & _).
  split; [exact Hst|]. split; [exact Hlen|]. exact (Hseq 1 _ eq_refl).
Defined.

(** ** Building from a class, continued *)

Lemma sorted_opt_assigned {A : Type} (key : A -> option string) (l : list A) :
  Forall (fun x => key x <> None) l ->
  sorted_opt key l = Ok (sorted (fun x => default "" (key x)) l).
Proof.
  intros Hall. unfold sorted_opt.
  replace (existsb (fun x => is_None (key x)) l) with false;
    [by rewrite andb_false_r|].
  symmetry. induction Hall as [|x l Hx _ IH]; simpl; [done|].
  rewrite IH. by destruct (key x).
Qed.

Lemma assign_id_once_assigns : assigns_an_id assign_id_once.
Proof.
  intros n nm n'. unfold assign_id_once.
  destruct n as [[i|] ups b m w e]; simpl; [done|]. by intros [= <-].
Qed.

(** The upstream check on the heap that discovery leaves. *)
Lemma discovered_upstream (assign : SdkNode -> string -> result SdkNode)
    (h : Heap) (workflow_class : list (string * addr)) (st : Discovery)
    (ns : list SdkNode) :
  assigns_an_id assign -> heap_upstream_are_nodes h ->
  discover_state assign h workflow_class = Some (Ok st) ->
  ns ≡ₚ map snd (d_nodes st) ->
  upstream_refs_are_nodes (d_heap st) ns
  /\ (has_unassigned_upstream (d_heap st) ns <-> missing_upstream h st)
  /\ Forall (fun n => n_id n <> None) ns.
Proof.
  intros Hassign Hrefs Hst Hperm.
  destruct (discovery_collects_each_object_once_aux assign h workflow_class st Hst)
    as (_ & _ & _ & _ & Hn & _).
  destruct (heap_inv_final assign h workflow_class st Hst)
    as (_ & _ & H3 & H4 & H5 & H6).
  assert (HA : forall u m, h !! u = Some (ONode m) ->
            (exists m', (u, m') ∈ d_nodes st /\ d_heap st !! u = Some (ONode m'))
            \/ ((u ∉ map fst (d_nodes st)) /\ d_heap st !! u = Some (ONode m))).
  { intros u m Hu. destruct (decide (u ∈ map fst (d_nodes st))) as [Hin|Hout].
    - left. apply list_elem_of_fmap in Hin as ([u' m'] & Heq & Hin).
      simpl in Heq. subst u'. exists m'. split; [done|]. by apply H5.
    - right. split; [done|]. rewrite H6; [done|]. unfold collected_addrs.
      intros Hin. apply elem_of_app in Hin as [Hin|Hin].
      + apply list_elem_of_fmap in Hin as ([u' x] & Heq & Hin).
        simpl in Heq. subst u'.
        destruct (H3 _ _ Hin) as (_ & x0 & Hx). by rewrite Hu in Hx.
      + apply elem_of_app in Hin as [Hin|Hin]; [|done].
        apply list_elem_of_fmap in Hin as ([u' x] & Heq & Hin).
        simpl in Heq. subst u'.
        destruct (H4 _ _ Hin) as (_ & x0 & Hx). by rewrite Hu in Hx. }
  assert (HB : forall a n, (a, n) ∈ d_nodes st ->
            n_id n <> None
            /\ forall u, u ∈ upstream_nodes n -> exists m, h !! u = Some (ONode m)).
  { intros a n Hin. destruct (Hn a n Hin) as (nm & n0 & _ & Ha & Hass).
    destruct (Hassign _ _ _ Hass) as [Hid Hups]. split; [done|].
    intros u Hu. rewrite Hups in Hu. by eapply Hrefs. }
  assert (Hmem : forall n, n ∈ ns <-> exists a, (a, n) ∈ d_nodes st).
  { intros n. rewrite Hperm. split.
    - intros ([a n'] & Heq & Hin)%list_elem_of_fmap. simpl in Heq. subst n'. eauto.
    - intros [a Hin]. by apply (list_elem_of_fmap_2 snd) in Hin. }
  split; [|split].
  - intros n u Hin Hu. apply Hmem in Hin as [a Hin].
    destruct (HB a n Hin) as [_ Hups]. destruct (Hups u Hu) as [m Hm].
    destruct (HA u m Hm) as [(m' & _ & Hm')|[_ Hm']]; eauto.
  - split.
    + intros (n & u & m & Hin & Hu & Hm & Hid). apply Hmem in Hin as [a Hin].
      destruct (HB a n Hin) as [_ Hups]. destruct (Hups u Hu) as [m0 Hm0].
      destruct (HA u m0 Hm0) as [(m' & Hin' & Hm')|[Hout Hm']].
      * rewrite Hm in Hm'. injection Hm' as <-.
        destruct (HB u m Hin') as [Hsome _]. done.
      * rewrite Hm in Hm'. injection Hm' as <-. by exists a, n, u, m.
    + intros (a & n & u & m & Hin & Hu & Hout & Hm & Hid).
      exists n, u, m. split; [apply Hmem; eauto|]. split; [done|].
      destruct (HA u m Hm) as [(m' & Hin' & _)|[_ Hm']]; [|done].
      destruct Hout. by apply (list_elem_of_fmap_2 fst) in Hin'.
  - apply Forall_forall. intros n Hin. apply Hmem in Hin as [a Hin].
    by destruct (HB a n Hin).
Qed.

(** X14. Take an [assign_id_and_return] that gives a node an id and keeps
    its upstream nodes, and a heap in which the upstream references of
    nodes are nodes.  An error of discovery is the error of
    [build_sdk_workflow_from_metaclass], and no identifier is drawn.  When
    discovery returns, the workflow is built, from the discovered nodes in
    the order of their ids and with one identifier drawn, unless some
    discovered node has upstream a node without id that discovery has not
    collected: then the assertion error of the constructor is raised.  So
    a class from which every such node can be reached is always built. *)
Theorem build_needs_discovered_upstream
    (assign : SdkNode -> string -> result SdkNode) (cfg : Config) (h : Heap)
    (metaclass : list (string * addr)) (on_failure : option OnFailurePolicy)
    (drawn : nat) :
  assigns_an_id assign -> heap_upstream_are_nodes h ->
  let result :=
    build_sdk_workflow_from_metaclass assign cfg h metaclass on_failure drawn in
  (forall e, discover_state assign h metaclass = Some (Raise e) ->
     result = Some (Raise e, drawn))
  /\ (forall st, discover_state assign h metaclass = Some (Ok st) ->
        (missing_upstream h st ->
           result = Some (Raise (FlyteAssertion missing_node_msg), drawn))
        /\ (~ missing_upstream h st ->
            exists p, result = Some (Ok p, S drawn)
              /\ PythonWorkflow_nodes p
                 = sorted (fun n => default "" (n_id n)) (map snd (d_nodes st))
              /\ w_metadata (flyte_workflow p)
                 = mkWorkflowMetadata (on_failure_or_None on_failure)))
  /\ ((forall a n u m, h !! a = Some (ONode n) -> u ∈ upstream_nodes n ->
         h !! u = Some (ONode m) -> n_id m = None -> reachable h metaclass u) ->
      forall st, discover_state assign h metaclass = Some (Ok st) ->
        exists p, result = Some (Ok p, S drawn)).
Proof.
  intros Hassign Hrefs result. subst result.
  unfold build_sdk_workflow_from_metaclass.
  assert (Hbuild : forall st, discover_state assign h metaclass = Some (Ok st) ->
    (missing_upstream h st ->
       (r ← Some (Ok st);
        Some match r with
             | Raise e => (Raise e, drawn)
             | Ok st =>
                 match sorted_opt n_id (map snd (d_nodes st)) with
                 | Raise e => (Raise e, drawn)
                 | Ok ns =>
                     construct_from_class_definition cfg (d_heap st)
                       (sorted in_name (map snd (d_inputs st)))
                       (sorted out_name (map snd (d_outputs st))) ns
                       (Some (mkWorkflowMetadata (on_failure_or_None on_failure)))
                       None drawn
                 end
             end)
       = Some (Raise (FlyteAssertion missing_node_msg), drawn))
    /\ (~ missing_upstream h st ->
        exists p,
          (r ← Some (Ok st);
           Some match r with
                | Raise e => (Raise e, drawn)
                | Ok st =>
                    match sorted_opt n_id (map snd (d_nodes st)) with
                    | Raise e => (Raise e, drawn)
                    | Ok ns =>
                        construct_from_class_definition cfg (d_heap st)
                          (sorted in_name (map snd (d_inputs st)))
                          (sorted out_name (map snd (d_outputs st))) ns
                          (Some (mkWorkflowMetadata (on_failure_or_None on_failure)))
                          None drawn
                    end
                end)
          = Some (Ok p, S drawn)
          /\ PythonWorkflow_nodes p
             = sorted (fun n => default "" (n_id n)) (map snd (d_nodes st))
          /\ w_metadata (flyte_workflow p)
             = mkWorkflowMetadata (on_failure_or_None on_failure))).
  { intros st Hst. simpl.
    destruct (discovered_upstream assign h metaclass st
                (sorted (fun n => default "" (n_id n)) (map snd (d_nodes st)))
                Hassign Hrefs Hst (sorted_perm _ _))
      as (Hty & Hiff & _).
    destruct (discovered_upstream assign h metaclass st (map snd (d_nodes st))
                Hassign Hrefs Hst (reflexivity _)) as (_ & _ & Hids).
    rewrite (sorted_opt_assigned n_id _ Hids).
    unfold construct_from_class_definition, SdkWorkflow_init.
    destruct (check_nodes_cases _ _ Hty) as [[Hc Hun]|[Hc Hun]]; rewrite Hc.
    - split; [done|]. intros Hno. destruct Hno. by apply Hiff.
    - split; [intros Hmiss; destruct Hun; by apply Hiff|].
      intros _. eexists. split; [reflexivity|]. done. }
  split; [|split].
  - intros e He. by rewrite He.
  - intros st Hst. rewrite Hst. by apply Hbuild.
  - intros Hreach st Hst. rewrite Hst.
    destruct (proj2 (Hbuild st Hst)) as (p & Hp & _); [|by exists p].
    intros (a & n & u & m & Hin & Hu & Hout & Hm & Hid).
    destruct (discovery_collects_each_object_once_aux assign h metaclass st Hst)
      as (Hcov & _ & _ & _ & Hn & _).
    destruct (Hn a n Hin) as (nm & n0 & _ & Ha & Hass).
    destruct (Hassign _ _ _ Hass) as [_ Hups]. rewrite Hups in Hu.
    specialize (Hcov u (Hreach a n0 u m Ha Hu Hm Hid)).
    unfold collected_if_entity in Hcov. rewrite Hm in Hcov. done.
Qed.

Lemma build_needs_discovered_upstream_witness :
  build_sdk_workflow_from_metaclass assign_id_once Sample.cfg SampleMissing.heap
    SampleMissing.surface None 0
  = Some (Raise (FlyteAssertion missing_node_msg), 0).
Proof.
  assert (Hrefs : heap_upstream_are_nodes SampleMissing.heap).
  { intros a n u Ha Hu. destruct a as [|[|a]]; simpl in Ha; [| |done].
    - injection Ha as <-. apply list_elem_of_singleton in Hu as ->.
      eexists. reflexivity.
    - injection Ha as <-. by apply elem_of_nil in Hu. }
  assert (Hst : discover_state assign_id_once SampleMissing.heap
                  SampleMissing.surface = Some (Ok _)) by (vm_compute; reflexivity).
  apply (proj1 (proj1 (proj2 (build_needs_discovered_upstream assign_id_once
           Sample.cfg SampleMissing.heap SampleMissing.surface None 0
           assign_id_once_assigns Hrefs)) _ Hst)).
  exists 0, (set_node_id (Sample.unassigned_task_node [1]) (Some "b")), 1,
    (Sample.unassigned_task_node []).
  split; [apply list_elem_of_singleton; reflexivity|].
  split; [apply list_elem_of_singleton; reflexivity|].
  split; [|split; reflexivity].
  intros Hin. apply list_elem_of_singleton in Hin. discriminate.
Defined.

(** ** Promotion, continued *)

Section PromotionErrors.
Variables START END : string.
Variable idp : Identifier -> Identifier.
Variable tip : TypedInterface -> TypedInterface.
Variable subs : list (Identifier * WorkflowTemplate).
Variable tasks : list (Identifier * TaskTemplate).

Lemma build_node_map_ext
    (f g : NodeModel -> list (Identifier * WorkflowTemplate)
           -> list (Identifier * TaskTemplate) -> result SdkNode)
    (ns : list NodeModel) (h : Heap) (node_map : list (string * addr)) :
  (forall m, m ∈ ns -> f m subs tasks = g m subs tasks) ->
  build_node_map f subs tasks h node_map ns
  = build_node_map g subs tasks h node_map ns.
Proof.
  revert h node_map. induction ns as [|m ns IH]; intros h node_map Hfg; [done|].
  simpl. rewrite (Hfg m) by by left.
  destruct (g m subs tasks) as [n|e]; [|done]. simpl.
  apply IH. intros m' Hm'. apply Hfg. by right.
Qed.

Lemma build_node_map_raise
    (f : NodeModel -> list (Identifier * WorkflowTemplate)
         -> list (Identifier * TaskTemplate) -> result SdkNode)
    (pre post : list NodeModel) (m : NodeModel) (e : exn) (h : Heap)
    (node_map : list (string * addr)) :
  (forall x, x ∈ pre -> exists n, f x subs tasks = Ok n) ->
  f m subs tasks = Raise e ->
  build_node_map f subs tasks h node_map (pre ++ m :: post) = Raise e.
Proof.
  revert h node_map. induction pre as [|x pre IH]; intros h node_map Hpre Hm.
  - simpl. by rewrite Hm.
  - destruct (Hpre x) as [n Hn]; [by left|]. simpl. rewrite Hn. simpl.
    apply IH; [|done]. intros y Hy. apply Hpre. by right.
Qed.
End PromotionErrors.

(** X15. [promote_from_model] never hands a node with one of the two
    reserved ids to the node-level promotion.  When the node-level
    promotion raises for a node of the template that is not reserved, that
    is the error of [promote_from_model] (the first such error, in the
    order of the template), and no identifier is drawn.  A template whose
    nodes are all reserved is promoted to a workflow without nodes that
    has the promoted id and interface and the metadata and output bindings
    of the template. *)
Theorem promotion_skips_reserved_nodes (START END : string)
    (promote_node : NodeModel -> list (Identifier * WorkflowTemplate)
                    -> list (Identifier * TaskTemplate) -> result SdkNode)
    (idp : Identifier -> Identifier) (tip : TypedInterface -> TypedInterface)
    (cfg : Config) (h : Heap) (t : WorkflowTemplate)
    (sub_workflows : option (list (Identifier * WorkflowTemplate)))
    (tasks : option (list (Identifier * TaskTemplate))) (drawn : nat) :
  let result :=
    promote_from_model START END promote_node idp tip cfg h t sub_workflows
      tasks drawn in
  (forall promote_node',
     (forall m, m ∈ t_nodes t -> mn_id m <> START -> mn_id m <> END ->
        promote_node m (default [] sub_workflows) (default [] tasks)
        = promote_node' m (default [] sub_workflows) (default [] tasks)) ->
     result
     = promote_from_model START END promote_node' idp tip cfg h t sub_workflows
         tasks drawn)
  /\ (forall pre m post e,
        get_non_system_nodes START END (t_nodes t) = pre ++ m :: post ->
        (forall x, x ∈ pre ->
           exists n, promote_node x (default [] sub_workflows) (default [] tasks)
                     = Ok n) ->
        promote_node m (default [] sub_workflows) (default [] tasks) = Raise e ->
        result = (Raise e, h, drawn))
  /\ (get_non_system_nodes START END (t_nodes t) = [] ->
      result
      = (Ok (mkSdkWorkflow (idp (t_id t)) (t_metadata t) (t_metadata_defaults t)
               (tip (t_interface t)) [] (t_outputs t) None), h, drawn)).
Proof.
  intros result. subst result. unfold promote_from_model. split; [|split].
  - intros promote_node' Hagree.
    rewrite (build_node_map_ext (default [] sub_workflows) (default [] tasks)
               promote_node promote_node'); [done|].
    intros m Hm. apply list_elem_of_filter in Hm as [[Hs He] Hm].
    by apply Hagree.
  - intros pre m post e Hns Hpre Hm. rewrite Hns.
    by rewrite (build_node_map_raise (default [] sub_workflows)
                  (default [] tasks) promote_node pre post m e).
  - intros Hns. rewrite Hns. reflexivity.
Qed.

Lemma promotion_skips_reserved_nodes_witness :
  promote_from_model SampleRoundTrip.START SampleRoundTrip.END
    SamplePromote.promote_node (fun i => i) (fun i => i) Sample.cfg []
    SamplePromote.template None None 0
  = (Raise (FlyteSystemException "cannot hydrate n2"), [], 0).
Proof.
  apply (proj1 (proj2 (promotion_skips_reserved_nodes SampleRoundTrip.START
           SampleRoundTrip.END SamplePromote.promote_node (fun i => i)
           (fun i => i) Sample.cfg [] SamplePromote.template None None 0))
         [SamplePromote.node "n1"] (SamplePromote.node "n2") []).
  - reflexivity.
  - intros x Hx. apply list_elem_of_singleton in Hx as ->. eexists. reflexivity.
  - reflexivity.
Defined.

Lemma dict_get_elem {V : Type} (k : string) (v : V) (d : list (string * V)) :
  dict_get k d = Ok v -> (k, v) ∈ d.
Proof.
  induction d as [|[k' v'] d IH]; simpl; [done|].
  destruct (String.eqb k k') eqn:Hk.
  - intros [= ->]. apply String.eqb_eq in Hk as ->. by left.
  - intros H. right. by apply IH.
Qed.

Lemma dict_get_NoDup {V : Type} (k : string) (v : V) (d : list (string * V)) :
  NoDup (dict_keys d) -> (k, v) ∈ d -> dict_get k d = Ok v.
Proof.
  unfold dict_keys. induction d as [|[k' v'] d IH]; simpl; intros Hnd Hin.
  - by apply elem_of_nil in Hin.
  - apply NoDup_cons in Hnd as [Hk' Hnd].
    apply elem_of_cons in Hin as [Heq|Hin].
    + injection Heq as -> ->. by rewrite String.eqb_refl.
    + destruct (String.eqb k k') eqn:Hk.
      * apply String.eqb_eq in Hk as ->. destruct Hk'.
        by apply (list_elem_of_fmap_2 fst) in Hin.
      * by apply IH.
Qed.

Lemma nodes_at_ids (h : Heap) (node_map : list (string * addr)) :
  node_map_ok h node_map ->
  map n_id (nodes_at h (dict_values node_map)) = map Some (dict_keys node_map).
Proof.
  induction node_map as [|[k a] nm IH]; intros Hok; [done|].
  destruct (Hok k a) as (n & Hl & Hid & _); [by left|].
  unfold nodes_at, dict_values, dict_keys in *.
  change (omap (node_at h) (map snd ((k, a) :: nm)))
    with (match node_at h a with
          | Some y => y :: omap (node_at h) (map snd nm)
          | None => omap (node_at h) (map snd nm)
          end).
  unfold node_at at 1. rewrite Hl. simpl. rewrite Hid. f_equal.
  apply IH. intros k' a' Hin. apply Hok. by right.
Qed.

Section PromotionDuplicates.
Variable promote_node :
  NodeModel -> list (Identifier * WorkflowTemplate)
  -> list (Identifier * TaskTemplate) -> result SdkNode.
Variable subs : list (Identifier * WorkflowTemplate).
Variable tasks : list (Identifier * TaskTemplate).

(** In the node map a key is bound to the promotion of the last node that
    has it as its id. *)
Lemma build_node_map_last (ns : list NodeModel) (h : Heap)
    (node_map : list (string * addr)) :
  (forall m, m ∈ ns -> exists n', promote_node m subs tasks = Ok n') ->
  NoDup (dict_keys node_map) ->
  exists h1 node_map1,
    build_node_map promote_node subs tasks h node_map ns = Ok (h1, node_map1)
    /\ (exists ext, h1 = h ++ ext)
    /\ NoDup (dict_keys node_map1)
    /\ forall k,
         match last (filter (fun m => mn_id m = k) ns) with
         | Some m =>
             exists a n', dict_get k node_map1 = Ok a
               /\ h1 !! a = Some (ONode n')
               /\ promote_node m subs tasks = Ok n'
         | None => dict_get k node_map1 = dict_get k node_map
         end.
Proof.
  revert h node_map. induction ns as [|m ns IH]; intros h node_map Hp Hnd.
  - exists h, node_map. simpl. split; [done|].
    split; [exists []; by rewrite app_nil_r|]. split; [done|]. by intros k.
  - destruct (Hp m) as [n' Hn']; [by left|]. simpl. rewrite Hn'. simpl.
    destruct (IH (h ++ [ONode n']) (dict_set (mn_id m) (length h) node_map))
      as (h1 & nm1 & Hb & [ext Hext] & Hnd1 & Hlast).
    + intros m' Hm'. apply Hp. by right.
    + by apply dict_set_NoDup.
    + exists h1, nm1. split; [done|].
      split; [exists ([ONode n'] ++ ext); by rewrite Hext, <- app_assoc|].
      split; [done|].
      intros k. specialize (Hlast k). destruct (decide (mn_id m = k)) as [Hk|Hk].
      * rewrite filter_cons_True by done. rewrite last_cons.
        destruct (last (filter _ ns)) as [m'|]; [done|].
        exists (length h), n'. subst k. rewrite Hlast, dict_get_set_eq.
        split; [done|]. split; [|done].
        rewrite Hext, <- app_assoc, lookup_app_r by lia.
        by rewrite Nat.sub_diag.
      * rewrite filter_cons_False by done.
        destruct (last (filter _ ns)) as [m'|]; [done|].
        by rewrite Hlast, dict_get_set_ne.
Qed.
End PromotionDuplicates.

(** X16. Take a node-level promotion that rebuilds under its id, without
    upstream references, every node of a template that is not reserved (the
    only nodes it is asked for).  When several nodes of the
    template have the same id, the promoted workflow has one node for that
    id, the promotion of the last of them: its nodes have pairwise
    different ids, there are as many as the nodes of the template that are
    not reserved have different ids, and they are the promotions of the
    nodes that are the last with their id. *)
Theorem promotion_merges_duplicate_ids (START END : string)
    (promote_node : NodeModel -> list (Identifier * WorkflowTemplate)
                    -> list (Identifier * TaskTemplate) -> result SdkNode)
    (idp : Identifier -> Identifier) (tip : TypedInterface -> TypedInterface)
    (cfg : Config) (h : Heap) (t : WorkflowTemplate)
    (subs : list (Identifier * WorkflowTemplate))
    (tasks : list (Identifier * TaskTemplate)) (drawn : nat) :
  (forall m, m ∈ get_non_system_nodes START END (t_nodes t) ->
     exists n', promote_node m subs tasks = Ok n'
       /\ n_id n' = Some (mn_id m) /\ upstream_nodes n' = []) ->
  exists w' h',
    promote_from_model START END promote_node idp tip cfg h t (Some subs)
      (Some tasks) drawn = (Ok w', h', drawn)
    /\ NoDup (map n_id (nodes w'))
    /\ length (nodes w')
       = size (list_to_set
                 (map mn_id (get_non_system_nodes START END (t_nodes t)))
               : gset string)
    /\ forall n,
         n ∈ nodes w'
         <-> exists k m,
               last (filter (fun x => mn_id x = k)
                       (get_non_system_nodes START END (t_nodes t))) = Some m
               /\ promote_node m subs tasks = Ok n.
Proof.
  intros Hp'. unfold promote_from_model. simpl.
  set (nonsys := get_non_system_nodes START END (t_nodes t)) in *.
  destruct (build_node_map_ok promote_node subs tasks nonsys h [] Hp')
    as (h1 & nm & Hb & Hok & Hkeys).
  { intros k a Hin. by apply elem_of_nil in Hin. }
  destruct (build_node_map_last promote_node subs tasks nonsys h [])
    as (h1' & nm' & Hb' & _ & Hnd & Hlast).
  { intros m Hm. destruct (Hp' m Hm) as (n' & Hn' & _). eauto. }
  { apply NoDup_nil_2. }
  rewrite Hb in Hb'. injection Hb' as <- <-.
  rewrite Hb. rewrite (wire_nodes_ok _ h1 nm Hok).
  2:{ intros m Hm. apply Hkeys. right. by apply list_elem_of_fmap_2. }
  destruct (SdkWorkflow_init _ _ _ _ _ _ _ _ _ _ _) as [r d] eqn:Hinit.
  revert Hinit. unfold SdkWorkflow_init.
  rewrite (check_nodes_no_upstream _ _ (promoted_nodes_no_upstream h1 nm Hok)).
  simpl. intros [= <- <-]. eexists _, h1. split; [done|]. simpl.
  pose proof (nodes_at_ids h1 nm Hok) as Hids.
  split; [|split].
  - rewrite Hids. change (map Some (dict_keys nm)) with (Some <$> dict_keys nm).
    by apply (NoDup_fmap_2 Some).
  - transitivity (length (dict_keys nm)).
    + rewrite <- (length_map n_id), Hids. by rewrite length_map.
    + rewrite <- (size_list_to_set (C := gset string)) by done.
      f_equal. apply set_eq. intros k. rewrite !elem_of_list_to_set, Hkeys.
      split; [|by right]. intros [H|H]; [|done]. by apply elem_of_nil in H.
  - intros n. split.
    + intros (a & Ha & Hat)%list_elem_of_omap.
      apply list_elem_of_fmap in Ha as ([k a'] & -> & Hin). simpl in Hat.
      pose proof (dict_get_NoDup k a' nm Hnd Hin) as Hg.
      specialize (Hlast k).
      destruct (last (filter _ nonsys)) as [m|] eqn:Hl.
      * destruct Hlast as (a0 & n' & Hg' & Hh & Hpn).
        rewrite Hg in Hg'. injection Hg' as <-.
        unfold node_at in Hat. rewrite Hh in Hat. injection Hat as <-.
        by exists k, m.
      * rewrite Hg in Hlast. done.
    + intros (k & m & Hl & Hpn). specialize (Hlast k). rewrite Hl in Hlast.
      destruct Hlast as (a & n' & Hg & Hh & Hpn').
      rewrite Hpn in Hpn'. injection Hpn' as <-.
      apply list_elem_of_omap. exists a. split.
      * apply dict_get_elem in Hg. by apply (list_elem_of_fmap_2 snd) in Hg.
      * unfold node_at. by rewrite Hh.
Qed.

Lemma promotion_merges_duplicate_ids_witness :
  exists w' h',
    promote_from_model SampleRoundTrip.START SampleRoundTrip.END
      SamplePromote.promote_user_node (fun i => i) (fun i => i) Sample.cfg []
      SampleDuplicate.template (Some []) (Some []) 0 = (Ok w', h', 0)
    /\ map n_metadata (nodes w')
       = [mkNodeMetadata "second" 0 0; Sample.node_meta]
    /\ NoDup (map n_id (nodes w')).
Proof.
  destruct (promotion_merges_duplicate_ids SampleRoundTrip.START
              SampleRoundTrip.END SamplePromote.promote_user_node (fun i => i)
              (fun i => i) Sample.cfg [] SampleDuplicate.template [] [] 0)
    as (w' & h' & Hp & Hnd & _).
  { intros m Hm.
    change (m ∈ [SampleDuplicate.first; SamplePromote.node "n0";
                 SampleDuplicate.second]) in Hm.
    apply elem_of_cons in Hm as [->|Hm];
      [eexists; split; [reflexivity|split; reflexivity]|].
    apply elem_of_cons in Hm as [->|Hm];
      [eexists; split; [reflexivity|split; reflexivity]|].
    apply list_elem_of_singleton in Hm as ->.
    eexists. split; [reflexivity|split; reflexivity]. }
  exists w', h'. split; [exact Hp|]. split; [|exact Hnd].
  vm_compute in Hp. injection Hp as <- _. reflexivity.
Defined.

(** ** Fetching a workflow *)

(** What [promote_from_model] returns for a template whose nodes that are
    not reserved the node-level promotion can rebuild. *)
Lemma promote_user_nodes_ok (START END : string)
    (promote_node : NodeModel -> list (Identifier * WorkflowTemplate)
                    -> list (Identifier * TaskTemplate) -> result SdkNode)
    (idp : Identifier -> Identifier) (tip : TypedInterface -> TypedInterface)
    (subs : list (Identifier * WorkflowTemplate))
    (tasks : list (Identifier * TaskTemplate))
    (cfg : Config) (h : Heap) (t : WorkflowTemplate) (drawn : nat) :
  (forall m, m ∈ get_non_system_nodes START END (t_nodes t) ->
     exists n', promote_node m subs tasks = Ok n'
       /\ n_id n' = Some (mn_id m) /\ upstream_nodes n' = []) ->
  exists w' h',
    promote_from_model START END promote_node idp tip cfg h t (Some subs)
      (Some tasks) drawn = (Ok w', h', drawn)
    /\ interface w' = tip (t_interface t)
    /\ outputs w' = t_outputs t
    /\ node_id_set (nodes w')
       = list_to_set (map mn_id (get_non_system_nodes START END (t_nodes t))).
Proof.
  intros Hp. unfold promote_from_model. simpl.
  destruct (build_node_map_ok promote_node subs tasks
              (get_non_system_nodes START END (t_nodes t)) h [] Hp)
    as (h1 & nm & Hb & Hok & Hkeys).
  { intros k a Hin. by apply elem_of_nil in Hin. }
  rewrite Hb. rewrite (wire_nodes_ok _ h1 nm Hok).
  2:{ intros m Hm. apply Hkeys. right. by apply list_elem_of_fmap_2. }
  destruct (SdkWorkflow_init _ _ _ _ _ _ _ _ _ _ _) as [r d] eqn:Hinit.
  revert Hinit. unfold SdkWorkflow_init.
  rewrite (check_nodes_no_upstream _ _ (promoted_nodes_no_upstream h1 nm Hok)).
  simpl. intros [= <- <-]. eexists _, h1. split; [done|]. simpl.
  split; [done|]. split; [done|].
  rewrite (promoted_node_ids h1 nm Hok).
  apply set_eq. intros k. rewrite !elem_of_list_to_set, Hkeys.
  split; [|by right]. intros [H|H]; [|done]. by apply elem_of_nil in H.
Qed.

Lemma promote_from_model_drawn (START END : string)
    (promote_node : NodeModel -> list (Identifier * WorkflowTemplate)
                    -> list (Identifier * TaskTemplate) -> result SdkNode)
    (idp : Identifier -> Identifier) (tip : TypedInterface -> TypedInterface)
    (cfg : Config) (h : Heap) (t : WorkflowTemplate)
    (subs : option (list (Identifier * WorkflowTemplate)))
    (tasks : option (list (Identifier * TaskTemplate))) (drawn : nat) :
  (promote_from_model START END promote_node idp tip cfg h t subs tasks drawn).2
  = drawn.
Proof.
  unfold promote_from_model.
  destruct (build_node_map _ _ _ _ _ _) as [[h1 nm]|e]; [|done].
  destruct (wire_nodes _ _ _) as [h2|e]; [|done].
  unfold SdkWorkflow_init. by destruct (check_nodes _ _).
Qed.

(** X17. [fetch] asks the client for the workflow with the given project,
    domain and name and with the given version, or the configured one when
    none (or an empty one) is given; an error of the client is its error.
    The workflow it returns has that id, whatever id the template that
    Admin sent carries, and no identifier is drawn; it is otherwise the
    promotion of the primary template: when the node-level promotion
    rebuilds the nodes of the template, [fetch] returns a workflow with the
    promoted interface, the output bindings and the node ids of the
    template; the node-level promotion is asked for, and has to rebuild,
    only the nodes that are not reserved. *)
Theorem fetch_returns_requested_id (START END : string)
    (promote_node : NodeModel -> list (Identifier * WorkflowTemplate)
                    -> list (Identifier * TaskTemplate) -> result SdkNode)
    (idp : Identifier -> Identifier) (tip : TypedInterface -> TypedInterface)
    (client_manager : result FetchClient) (cfg : Config) (h : Heap)
    (project domain name : string) (version : option string) (drawn : nat) :
  let workflow_id :=
    mkIdentifier WORKFLOW project domain name
      (match version with
       | Some v => if String.eqb v "" then VERSION cfg else v
       | None => VERSION cfg
       end) in
  let result :=
    fetch START END promote_node idp tip client_manager cfg h project domain
      name version drawn in
  (forall e, (client ← client_manager; get_workflow client workflow_id) = Raise e ->
     result = (Raise e, h, drawn))
  /\ (forall w h' drawn', result = (Ok w, h', drawn') ->
        w_id w = workflow_id /\ drawn' = drawn)
  /\ (forall admin_workflow,
        (client ← client_manager; get_workflow client workflow_id)
        = Ok admin_workflow ->
        let cwc := compiled_workflow (closure admin_workflow) in
        let t := cw_template (cwc_primary cwc) in
        (forall m, m ∈ get_non_system_nodes START END (t_nodes t) ->
           exists n', promote_node m (sub_workflow_map cwc) (task_map cwc) = Ok n'
             /\ n_id n' = Some (mn_id m) /\ upstream_nodes n' = []) ->
        exists w h',
          result = (Ok w, h', drawn)
          /\ w_id w = workflow_id
          /\ interface w = tip (t_interface t)
          /\ outputs w = t_outputs t
          /\ node_id_set (nodes w)
             = list_to_set (map mn_id (get_non_system_nodes START END (t_nodes t)))).
Proof.
  intros workflow_id result. subst result. unfold fetch, version_or_configured.
  fold workflow_id. split; [|split].
  - intros e He. by rewrite He.
  - intros w h' drawn'.
    destruct (client ← client_manager; get_workflow client workflow_id)
      as [aw|e]; [|done].
    pose proof (promote_from_model_drawn START END promote_node idp tip cfg h
                  (cw_template (cwc_primary (compiled_workflow (closure aw))))
                  (Some (sub_workflow_map (compiled_workflow (closure aw))))
                  (Some (task_map (compiled_workflow (closure aw)))) drawn) as Hd.
    destruct (promote_from_model _ _ _ _ _ _ _ _ _ _ _) as [[[w0|e] h1] d];
      [|done].
    simpl in Hd. subst d. intros Heq. injection Heq as <- <- <-.
    split; [apply w_id_set_id|reflexivity].
  - intros aw Haw Hp. rewrite Haw.
    destruct (promote_user_nodes_ok START END promote_node idp tip _ _ cfg h _
                drawn Hp)
      as (w' & h' & Heq & Hi & Ho & Hids).
    rewrite Heq. exists (set_id w' workflow_id), h'.
    split; [done|]. split; [by rewrite w_id_set_id|].
    rewrite nodes_set_id. by destruct w'.
Qed.

Lemma fetch_returns_requested_id_witness :
  exists w h',
    fetch SampleRoundTrip.START SampleRoundTrip.END
      SamplePromote.promote_user_node (fun i => i) (fun i => i)
      (Ok SampleFetch.client) Sample.cfg [] "proj" "dev" "asked" (Some "") 0
    = (Ok w, h', 0)
    /\ w_id w = mkIdentifier WORKFLOW "proj" "dev" "asked" "v1"
    /\ node_id_set (nodes w) = {["n1"]}.
Proof.
  destruct (proj2 (proj2 (fetch_returns_requested_id SampleRoundTrip.START
              SampleRoundTrip.END SamplePromote.promote_user_node (fun i => i)
              (fun i => i) (Ok SampleFetch.client) Sample.cfg [] "proj" "dev"
              "asked" (Some "") 0)) _ eq_refl)
    as (w & h' & Hf & Hid & _ & _ & Hn).
  { intros m Hm. change (m ∈ [SamplePromote.node "n1"]) in Hm.
    apply list_elem_of_singleton in Hm as ->.
    eexists. split; [reflexivity|]. split; reflexivity. }
  exists w, h'. split; [exact Hf|]. split; [exact Hid|].
  rewrite Hn. vm_compute. reflexivity.
Defined.

(** ** Discovery: where its errors come from *)

Section DiscoveryErrors.
Variable assign : SdkNode -> string -> result SdkNode.
Variable top : gset string.

(** When the loop raises, it does so in the first visit of some pair, in a
    state that an invariant of the loop holds of. *)
Lemma discover_loop_error (P : Discovery -> Prop) :
  (forall h nm a rest vis ins outs ns log,
      P (mkDiscovery h ((nm, a) :: rest) vis ins outs ns log) -> a ∈ vis ->
      P (mkDiscovery h rest vis ins outs ns (log ++ [(nm, a)]))) ->
  (forall h nm a rest vis ins outs ns log st',
      P (mkDiscovery h ((nm, a) :: rest) vis ins outs ns log) -> a ∉ vis ->
      visit assign top
        (mkDiscovery h rest ({[a]} ∪ vis) ins outs ns (log ++ [(nm, a)])) nm a
        = Ok st' ->
      P st') ->
  forall fuel st e,
    P st -> discover_loop assign fuel top st = Some (Raise e) ->
    exists h nm a rest vis ins outs ns log,
      P (mkDiscovery h ((nm, a) :: rest) vis ins outs ns log)
      /\ (a ∉ vis)
      /\ visit assign top
           (mkDiscovery h rest ({[a]} ∪ vis) ins outs ns (log ++ [(nm, a)])) nm a
         = Raise e.
Proof.
  intros Hskip Hvisit fuel. induction fuel as [|fuel IH]; intros st e HP Hl.
  - by destruct st as [h [|[nm a] rest] vis ins outs ns log].
  - destruct st as [h [|[nm a] rest] vis ins outs ns log]; simpl in Hl; [done|].
    case_bool_decide as Hv.
    + eapply IH; [|exact Hl]. by apply Hskip.
    + destruct (visit _ _ _ _ _) as [st1|e1] eqn:Hvis.
      * eapply IH; [|exact Hl]. by eapply Hvisit.
      * injection Hl as ->. by exists h, nm, a, rest, vis, ins, outs, ns, log.
Qed.
End DiscoveryErrors.

Section DiscoveryFrontier.
Variable assign : SdkNode -> string -> result SdkNode.
Variable top : gset string.
Variable h0 : Heap.
Variable workflow_class : list (string * addr).

Lemma frontier_skip h nm a rest vis ins outs ns log :
  frontier_inv h0 workflow_class
    (mkDiscovery h ((nm, a) :: rest) vis ins outs ns log) ->
  a ∈ vis ->
  frontier_inv h0 workflow_class
    (mkDiscovery h rest vis ins outs ns (log ++ [(nm, a)])).
Proof.
  intros (F1 & F2 & (ch & F3 & F3n) & F4) Ha. unfold frontier_inv. simpl in *.
  split; [|split; [done|split]].
  - intros nm' a' [Hin|Hin]%elem_of_app; [by eapply F1|].
    apply list_elem_of_singleton in Hin. by injection Hin as -> ->.
  - exists ch. split; [|done]. by rewrite <- app_assoc.
  - intros nm' a' Hin. apply (F4 nm'). by right.
Qed.

Lemma frontier_visit h nm a rest vis ins outs ns log st' :
  frontier_inv h0 workflow_class
    (mkDiscovery h ((nm, a) :: rest) vis ins outs ns log) ->
  a ∉ vis ->
  visit assign top
    (mkDiscovery h rest ({[a]} ∪ vis) ins outs ns (log ++ [(nm, a)])) nm a = Ok st' ->
  frontier_inv h0 workflow_class st'.
Proof.
  intros (F1 & F2 & (ch & F3 & F3n) & F4) Ha. simpl in *.
  assert (Hh : h !! a = h0 !! a) by by apply F2.
  assert (Hra : reachable h0 workflow_class a) by (apply (F4 nm); by left).
  assert (G1 : forall nm' a', (nm', a') ∈ log ++ [(nm, a)] ->
                 a' ∈ ({[a]} ∪ vis : gset addr)).
  { intros nm' a' [Hin|Hin]%elem_of_app.
    - apply elem_of_union. right. by eapply F1.
    - apply list_elem_of_singleton in Hin. injection Hin as -> ->.
      apply elem_of_union. left. by apply elem_of_singleton. }
  assert (G2 : forall o b, b ∉ ({[a]} ∪ vis : gset addr) ->
                 <[a := o]> h !! b = h0 !! b).
  { intros o b Hb. rewrite list_lookup_insert_ne.
    - apply F2. intros Hin. apply Hb. apply elem_of_union. by right.
    - intros ->. apply Hb. apply elem_of_union. left. by apply elem_of_singleton. }
  assert (G2' : forall b, b ∉ ({[a]} ∪ vis : gset addr) -> h !! b = h0 !! b).
  { intros b Hb. apply F2. intros Hin. apply Hb. apply elem_of_union. by right. }
  assert (G3 : forall l,
            (forall nm' a', (nm', a') ∈ l ->
               exists attribute_name index,
                 nm' = _assign_indexed_attribute_name attribute_name index) ->
            exists ch',
              (log ++ [(nm, a)]) ++ rest ++ l = workflow_class ++ ch'
              /\ forall nm' a', (nm', a') ∈ ch' ->
                   exists attribute_name index,
                     nm' = _assign_indexed_attribute_name attribute_name index).
  { intros l Hl. exists (ch ++ l). split.
    - rewrite !app_assoc, <- F3. by rewrite <- (app_assoc log).
    - intros nm' a' [Hin|Hin]%elem_of_app; [by eapply F3n|by eapply Hl]. }
  assert (G4 : forall nm' a', (nm', a') ∈ rest -> reachable h0 workflow_class a').
  { intros nm' a' Hin. apply (F4 nm'). by right. }
  assert (Hent : forall o ins' outs' ns',
            frontier_inv h0 workflow_class
              (mkDiscovery (<[a := o]> h) rest ({[a]} ∪ vis) ins' outs' ns'
                 (log ++ [(nm, a)]))).
  { intros o ins' outs' ns'. unfold frontier_inv. simpl.
    split; [done|]. split; [by apply G2|]. split; [|done].
    destruct (G3 []) as (ch' & Hch & Hn).
    - intros nm' a' Hin. by apply elem_of_nil in Hin.
    - exists ch'. split; [|done]. by rewrite app_nil_r in Hch. }
  assert (Hcont : forall l,
            (forall nm' a', (nm', a') ∈ l ->
               (exists attribute_name index,
                  nm' = _assign_indexed_attribute_name attribute_name index)
               /\ reachable h0 workflow_class a') ->
            frontier_inv h0 workflow_class
              (mkDiscovery h (rest ++ l) ({[a]} ∪ vis) ins outs ns
                 (log ++ [(nm, a)]))).
  { intros l Hl. unfold frontier_inv. simpl.
    split; [done|]. split; [done|]. split.
    - apply G3. intros nm' a' Hin. by destruct (Hl nm' a' Hin).
    - intros nm' a' [Hin|Hin]%elem_of_app; [by eapply G4|].
      by destruct (Hl nm' a' Hin). }
  unfold visit. destruct (h !! a) as [[n|i|o|elems|items|]|] eqn:Ho.
  - destruct (assign n nm) as [n'|e]; simpl; [|done]. intros [= <-]. apply Hent.
  - case_bool_decide as Ht; [done|]. intros [= <-]. apply Hent.
  - case_bool_decide as Ht; [done|]. intros [= <-]. apply Hent.
  - intros [= <-]. apply Hcont. intros nm' a' Hin. split.
    + destruct (children_names_indexed nm elems [] nm' a') as [index Hi].
      * apply elem_of_app. by left.
      * by exists nm, index.
    + apply (reach_element h0 workflow_class a (OSeq elems) a' Hra).
      * by rewrite <- Hh.
      * simpl. rewrite <- (snd_seq_children nm elems).
        by apply (list_elem_of_fmap_2 snd) in Hin.
  - intros [= <-]. apply Hcont. intros nm' a' Hin. split.
    + destruct (children_names_indexed nm [] items nm' a') as [index Hi].
      * apply elem_of_app. by right.
      * by exists nm, index.
    + apply (reach_element h0 workflow_class a (ODict items) a' Hra).
      * by rewrite <- Hh.
      * rewrite <- (snd_dict_children nm items).
        by apply (list_elem_of_fmap_2 snd) in Hin.
  - intros [= <-]. unfold frontier_inv. simpl.
    split; [done|]. split; [done|]. split; [|done].
    destruct (G3 []) as (ch' & Hch & Hn).
    + intros nm' a' Hin. by apply elem_of_nil in Hin.
    + exists ch'. split; [|done]. by rewrite app_nil_r in Hch.
  - intros [= <-]. unfold frontier_inv. simpl.
    split; [done|]. split; [done|]. split; [|done].
    destruct (G3 []) as (ch' & Hch & Hn).
    + intros nm' a' Hin. by apply elem_of_nil in Hin.
    + exists ch'. split; [|done]. by rewrite app_nil_r in Hch.
Qed.
End DiscoveryFrontier.

Lemma frontier_initial (h : Heap) (workflow_class : list (string * addr)) :
  frontier_inv h workflow_class (mkDiscovery h workflow_class ∅ [] [] [] []).
Proof.
  unfold frontier_inv. simpl. split; [|split; [done|split]].
  - intros nm a Hin. by apply elem_of_nil in Hin.
  - exists []. split; [by rewrite app_nil_r|].
    intros nm a Hin. by apply elem_of_nil in Hin.
  - intros nm a Hin. by apply (reach_attribute h workflow_class nm).
Qed.

(** The pair at the head of the queue when the pairs taken from it do not
    cover the attributes of the class. *)
Lemma frontier_head (workflow_class ch log rest : list (string * addr))
    (p q : string * addr) :
  log ++ p :: rest = workflow_class ++ ch ->
  q ∈ workflow_class -> q ∈ log \/ p ∈ workflow_class.
Proof.
  intros Heq Hq. apply list_elem_of_lookup in Hq as [i Hi].
  destruct (decide (i < length log)) as [Hlt|Hge].
  - left. apply list_elem_of_lookup. exists i.
    assert (Hl : (log ++ p :: rest) !! i = Some q).
    { rewrite Heq. by apply lookup_app_l_Some. }
    by rewrite lookup_app_l in Hl.
  - right. apply list_elem_of_lookup. exists (length log).
    assert (Hlen : length log < length workflow_class).
    { apply lookup_lt_Some in Hi. lia. }
    assert (Hl : (workflow_class ++ ch) !! length log = Some p).
    { rewrite <- Heq. by rewrite lookup_app_r, Nat.sub_diag. }
    by rewrite lookup_app_l in Hl.
Qed.

(** X18. Discovery raises in two cases only, and for an object that can be
    reached from the class: when [assign_id_and_return] raises for a node
    (then that is the error), and when it meets an input or an output that
    is not the value of any attribute of the class (then it is the value
    error, which carries the synthesized name of an element of a
    container).  So discovery returns when [assign_id_and_return] accepts
    the nodes and every input and output that can be reached is the value of
    an attribute, also when containers hold it too. *)
Theorem discovery_error_origins
    (assign : SdkNode -> string -> result SdkNode)
    (h : Heap) (workflow_class : list (string * addr)) :
  (forall e, discover_state assign h workflow_class = Some (Raise e) ->
     exists nm a,
       reachable h workflow_class a
       /\ ((exists n, h !! a = Some (ONode n) /\ assign n nm = Raise e)
           \/ ((exists attribute_name index,
                  nm = _assign_indexed_attribute_name attribute_name index)
               /\ (forall nm', (nm', a) ∉ workflow_class)
               /\ ((exists i, h !! a = Some (OInput i)
                      /\ e = FlyteValueException nm input_outside_msg)
                   \/ (exists o, h !! a = Some (OOutput o)
                         /\ e = FlyteValueException nm output_outside_msg)))))
  /\ ((forall a n nm, reachable h workflow_class a -> h !! a = Some (ONode n) ->
         exists n', assign n nm = Ok n') ->
      (forall a, reachable h workflow_class a ->
         (exists i, h !! a = Some (OInput i)) \/ (exists o, h !! a = Some (OOutput o)) ->
         exists nm, (nm, a) ∈ workflow_class) ->
      exists st, discover_state assign h workflow_class = Some (Ok st)).
Proof.
  assert (Horigin : forall e,
    discover_state assign h workflow_class = Some (Raise e) ->
    exists nm a,
      reachable h workflow_class a
      /\ ((exists n, h !! a = Some (ONode n) /\ assign n nm = Raise e)
          \/ ((exists attribute_name index,
                 nm = _assign_indexed_attribute_name attribute_name index)
              /\ (forall nm', (nm', a) ∉ workflow_class)
              /\ ((exists i, h !! a = Some (OInput i)
                     /\ e = FlyteValueException nm input_outside_msg)
                  \/ (exists o, h !! a = Some (OOutput o)
                        /\ e = FlyteValueException nm output_outside_msg))))).
  { intros e He. unfold discover_state in He.
    set (top := list_to_set (map fst workflow_class) : gset string) in *.
    destruct (discover_loop_error assign top (frontier_inv h workflow_class)
                (frontier_skip h workflow_class)
                (frontier_visit assign top h workflow_class)
                _ _ e (frontier_initial h workflow_class) He)
      as (h1 & nm & a & rest & vis & ins & outs & ns & log & HP & Ha & Hv).
    destruct HP as (F1 & F2 & (ch & F3 & F3n) & F4). simpl in *.
    assert (Hh : h1 !! a = h !! a) by by apply F2.
    assert (Hra : reachable h workflow_class a) by (apply (F4 nm); by left).
    assert (Hout : nm ∉ top ->
              (exists attribute_name index,
                 nm = _assign_indexed_attribute_name attribute_name index)
              /\ forall nm', (nm', a) ∉ workflow_class).
    { intros Hnm.
      assert (Hnwc : (nm, a) ∉ workflow_class).
      { intros Hin. apply Hnm. apply elem_of_list_to_set.
        by apply (list_elem_of_fmap_2 fst) in Hin. }
      split.
      - assert (Hin : (nm, a) ∈ workflow_class ++ ch).
        { rewrite <- F3. apply elem_of_app. right. by left. }
        apply elem_of_app in Hin as [Hin|Hin]; [done|]. by eapply F3n.
      - intros nm' Hin.
        destruct (frontier_head workflow_class ch log rest (nm, a) (nm', a) F3 Hin)
          as [Hlog|Hwc]; [|done].
        apply Ha. by eapply F1. }
    exists nm, a. split; [done|].
    revert Hv. unfold visit. rewrite Hh.
    destruct (h !! a) as [[n|i|o|elems|items|]|]; simpl; try done.
    - destruct (assign n nm) as [n'|e'] eqn:Hn; simpl; [done|].
      intros [= ->]. left. by exists n.
    - case_bool_decide as Ht; [|done]. intros [= <-]. right.
      destruct (Hout Ht) as [Hidx Hnone]. split; [done|]. split; [done|].
      left. by exists i.
    - case_bool_decide as Ht; [|done]. intros [= <-]. right.
      destruct (Hout Ht) as [Hidx Hnone]. split; [done|]. split; [done|].
      right. by exists o. }
  split; [exact Horigin|].
  intros Hassign Hattr.
  destruct (discover_state_terminates assign h workflow_class) as [[st|e] Hr].
  - by exists st.
  - exfalso. destruct (Horigin e Hr) as (nm & a & Hra & [Hn|(_ & Hnone & Hio)]).
    + destruct Hn as (n & Hn & He).
      destruct (Hassign a n nm Hra Hn) as [n' Hn']. by rewrite Hn' in He.
    + destruct (Hattr a Hra) as [nm' Hin].
      * destruct Hio as [(i & Hi & _)|(o & Ho & _)]; [left|right]; eauto.
      * by apply (Hnone nm').
Qed.

Lemma discovery_error_origins_witness :
  (exists st, discover_state assign_id_once SampleNested.heap SampleNested.both
              = Some (Ok st))
  /\ discover_state assign_id_once SampleNested.heap SampleNested.nested_only
     = Some (Raise (FlyteValueException "a[0]" input_outside_msg)).
Proof.
  split; [|reflexivity].
  apply (proj2 (discovery_error_origins assign_id_once SampleNested.heap
                  SampleNested.both)).
  - intros a n nm _ Ha. by destruct a as [|[|a]].
  - intros a _ [[i Hi]|[o Ho]].
    + destruct a as [|[|a]]; try done. exists "z". apply elem_of_cons. right.
      by left.
    + by destruct a as [|[|a]].
Defined.
